(** * Lowering of LHLO reductions to parallel loops

    A shallow embedding of
    [tensorflow/compiler/mlir/xla/transforms/lhlo_legalize_to_parallel_loops.cc].

    The pass builds IR through a rewriter: every [create<Op>] inserts a new
    operation at the current insertion point and hands back fresh SSA values.
    The embedding keeps exactly that shape.  The rewriter is a state
    ([RewriterState]) holding the block store, the insertion point, the
    diagnostics emitted so far and the operations scheduled for replacement;
    the converters are computations in a state monad whose second outcome,
    [Undefined], records that the C++ code has left defined behaviour
    (dereferencing [begin()] of an empty range, [cast<>] to the wrong type,
    [getValue()] on an absent [Optional], indexing past the end). *)

From Stdlib Require Import ZArith List Bool Lia.
From stdpp Require Import base option list gmap strings.

Local Open Scope Z_scope.
Local Open Scope nat_scope.

(** ** Types and values *)

(** [ShapedType::kDynamicSize]. *)
Definition kDynamicSize : Z := (-1)%Z.

Inductive Ty : Type :=
| IndexTy
| IntegerTy (width : nat)
| FloatTy (width : nat)
| MemRefTy (shape : list Z) (elem : Ty).

(** [getI1Type()]. *)
Definition I1Ty : Ty := IntegerTy 1.

(** An SSA value: its identity and its type. *)
Record Value : Type := mkValue { v_id : nat; v_ty : Ty }.

Abbreviation BlockId := nat.

Inductive CmpIPredicate : Type :=
| eq_ | ne | slt | sle | sgt | sge | ult | ule | ugt | uge.

(** The operations the pass emits.  [LhloOp] stands for a scalar LHLO
    operation of a reduction body ([xla_lhlo.add], [xla_lhlo.maximum], ...)
    once it has been cloned into the new reduction block. *)
Inductive Op : Type :=
| ConstantIndexOp (res : Value) (value : Z)
| ConstantOp (res : Value) (value : Z)
| DimOp (res : Value) (memref : Value) (index : nat)
| AllocOp (res : Value)
| LoadOp (res : Value) (memref : Value) (indices : list Value)
| StoreOp (val : Value) (memref : Value) (indices : list Value)
| MulIOp (res lhs rhs : Value)
| SubIOp (res lhs rhs : Value)
| AddIOp (res lhs rhs : Value)
| CmpIOp (res : Value) (pred : CmpIPredicate) (lhs rhs : Value)
| AndOp (res lhs rhs : Value)
| IfOp (results : list Value) (cond : Value) (thenBlock elseBlock : BlockId)
| YieldOp (vals : list Value)
| ParallelOp (results lower upper step inits : list Value) (body : BlockId)
| ReduceOp (operand : Value) (body : BlockId)
| ReduceReturnOp (val : Value)
| LhloOp (name : string) (operands results : list Value).

Record Block : Type := mkBlock { b_args : list Value; b_ops : list Op }.

(** ** The source operations *)

(** A scalar LHLO operation of a reduction body; these carry no regions. *)
Record LhloOperation : Type := mkLhlo {
  lo_name : string;
  lo_operands : list Value;
  lo_results : list Value
}.

(** The single block of the body region; its last operation is the
    terminator. *)
Record LhloBlock : Type := mkLhloBlock {
  lb_args : list Value;
  lb_ops : list LhloOperation
}.

Record XlaReduceOp : Type := mkReduce {
  r_id : nat;
  r_operands : list Value;
  r_init_values : list Value;
  r_out : list Value;
  r_dimensions : list Z;
  r_body : LhloBlock
}.

Record XlaReduceWindowOp : Type := mkReduceWindow {
  rw_id : nat;
  rw_operand : Value;
  rw_init_value : Value;
  rw_out : Value;
  rw_window_dimensions : list Z;
  rw_window_strides : option (list Z);
  rw_padding : option (list (Z * Z));
  rw_base_dilations : option (list Z);
  rw_window_dilations : option (list Z);
  rw_body : LhloBlock
}.

(** ** Rewriter state *)

Inductive Diagnostic : Type :=
| OpError (op : nat) (msg : string)
| Remark (op : nat) (msg : string).

Record RewriterState : Type := mkState {
  next_value : nat;
  blocks : list Block;
  ip_block : BlockId;
  ip_pos : nat;
  diags : list Diagnostic;
  replaced : list nat
}.

Inductive Outcome (A : Type) : Type :=
| Ok (a : A) (s : RewriterState)
| Undefined (s : RewriterState).
Arguments Ok {A} a s.
Arguments Undefined {A} s.

Definition M (A : Type) : Type := RewriterState -> Outcome A.

Definition ret {A} (a : A) : M A := fun s => Ok a s.

Definition bind {A B} (m : M A) (k : A -> M B) : M B :=
  fun s => match m s with
           | Ok a s' => k a s'
           | Undefined s' => Undefined s'
           end.

Notation "'do' x <- m ; k" := (bind m (fun x => k))
  (at level 10, x name, m at level 100, k at level 200, only parsing).
Notation "'do' ' pat <- m ; k" :=
  (bind m (fun x => match x with pat => k end))
  (at level 10, pat pattern, m at level 100, k at level 200, only parsing).

(** Dereferencing an iterator, indexing, [cast<>], [Optional::getValue]:
    defined only when there is something to read. *)
Definition deref {A} (o : option A) : M A :=
  fun s => match o with Some a => Ok a s | None => Undefined s end.

(** ** Builder primitives *)

Definition splice (pos : nat) (ops : list Op) (b : Block) : Block :=
  mkBlock (b_args b) (take pos (b_ops b) ++ ops ++ drop pos (b_ops b)).

Definition insert_at (b : BlockId) (pos : nat) (ops : list Op)
    (blks : list Block) : list Block :=
  alter (splice pos ops) b blks.

(** Insert one operation at the insertion point; the point moves past it. *)
Definition insert_op (op : Op) : M unit := fun s =>
  Ok tt (mkState (next_value s)
                 (insert_at (ip_block s) (ip_pos s) [op] (blocks s))
                 (ip_block s) (ip_pos s + 1) (diags s) (replaced s)).

Definition fresh (ty : Ty) : M Value := fun s =>
  Ok (mkValue (next_value s) ty)
     (mkState (next_value s + 1) (blocks s) (ip_block s) (ip_pos s)
              (diags s) (replaced s)).

Definition values_from (n : nat) (tys : list Ty) : list Value :=
  imap (fun i ty => mkValue (n + i) ty) tys.

Definition fresh_values (tys : list Ty) : M (list Value) := fun s =>
  Ok (values_from (next_value s) tys)
     (mkState (next_value s + length tys) (blocks s) (ip_block s) (ip_pos s)
              (diags s) (replaced s)).

Definition new_block (args : list Value) (ops : list Op) : M BlockId := fun s =>
  Ok (length (blocks s))
     (mkState (next_value s) (blocks s ++ [mkBlock args ops])
              (ip_block s) (ip_pos s) (diags s) (replaced s)).

Definition setInsertionPointToStart (b : BlockId) : M unit := fun s =>
  Ok tt (mkState (next_value s) (blocks s) b 0 (diags s) (replaced s)).

Definition emit (d : Diagnostic) : M unit := fun s =>
  Ok tt (mkState (next_value s) (blocks s) (ip_block s) (ip_pos s)
                 (diags s ++ [d]) (replaced s)).

Definition replaceOp (op : nat) : M unit := fun s =>
  Ok tt (mkState (next_value s) (blocks s) (ip_block s) (ip_pos s)
                 (diags s) (replaced s ++ [op])).

(** [t.cast<MemRefType>()]. *)
Definition cast_MemRefType (t : Ty) : option Ty :=
  match t with MemRefTy _ _ => Some t | _ => None end.

Definition getShape (t : Ty) : option (list Z) :=
  match t with MemRefTy shape _ => Some shape | _ => None end.

Definition getElementType (t : Ty) : option Ty :=
  match t with MemRefTy _ elem => Some elem | _ => None end.

Definition create_ConstantIndexOp (value : Z) : M Value :=
  do res <- fresh IndexTy;
  do _ <- insert_op (ConstantIndexOp res value);
  ret res.

Definition create_ConstantOp (ty : Ty) (value : Z) : M Value :=
  do res <- fresh ty;
  do _ <- insert_op (ConstantOp res value);
  ret res.

Definition create_DimOp (memref : Value) (index : nat) : M Value :=
  do res <- fresh IndexTy;
  do _ <- insert_op (DimOp res memref index);
  ret res.

Definition create_AllocOp (memref_ty : Ty) : M Value :=
  do res <- fresh memref_ty;
  do _ <- insert_op (AllocOp res);
  ret res.

(** [LoadOp::build] reads the element type off the memref's type. *)
Definition create_LoadOp (memref : Value) (indices : list Value) : M Value :=
  do elem_ty <- deref (getElementType (v_ty memref));
  do res <- fresh elem_ty;
  do _ <- insert_op (LoadOp res memref indices);
  ret res.

Definition create_StoreOp (val memref : Value) (indices : list Value) : M unit :=
  insert_op (StoreOp val memref indices).

Definition create_MulIOp (lhs rhs : Value) : M Value :=
  do res <- fresh (v_ty lhs);
  do _ <- insert_op (MulIOp res lhs rhs);
  ret res.

Definition create_SubIOp (lhs rhs : Value) : M Value :=
  do res <- fresh (v_ty lhs);
  do _ <- insert_op (SubIOp res lhs rhs);
  ret res.

Definition create_AddIOp (lhs rhs : Value) : M Value :=
  do res <- fresh (v_ty lhs);
  do _ <- insert_op (AddIOp res lhs rhs);
  ret res.

Definition create_CmpIOp (pred : CmpIPredicate) (lhs rhs : Value) : M Value :=
  do res <- fresh I1Ty;
  do _ <- insert_op (CmpIOp res pred lhs rhs);
  ret res.

Definition create_AndOp (lhs rhs : Value) : M Value :=
  do res <- fresh (v_ty lhs);
  do _ <- insert_op (AndOp res lhs rhs);
  ret res.

(** Handle on a [loop.parallel]: what its accessors read. *)
Record ParallelOpHandle : Type := mkParallel {
  par_body : BlockId;
  par_ivs : list Value;
  par_step : list Value;
  par_inits : list Value;
  par_results : list Value
}.

Definition getNumLoops (p : ParallelOpHandle) : nat := length (par_step p).

(** [loop::ParallelOp::build]: a body block closed by [loop.yield], one
    index-typed induction variable per step, one result per initial value. *)
Definition create_ParallelOp (lower upper step inits : list Value)
    : M ParallelOpHandle :=
  do ivs <- fresh_values (map (fun _ => IndexTy) step);
  do body <- new_block ivs [YieldOp []];
  do results <- fresh_values (map v_ty inits);
  do _ <- insert_op (ParallelOp results lower upper step inits body);
  ret (mkParallel body ivs step inits results).

(** Handle on a [loop.reduce]: its reduction block and that block's two
    arguments. *)
Record ReduceOpHandle : Type := mkReduceHandle {
  red_body : BlockId;
  red_args : list Value
}.

(** [loop::ReduceOp::build]: a block with two arguments of the operand's
    type and no terminator. *)
Definition create_ReduceOp (operand : Value) : M ReduceOpHandle :=
  do args <- fresh_values [v_ty operand; v_ty operand];
  do body <- new_block args [];
  do _ <- insert_op (ReduceOp operand body);
  ret (mkReduceHandle body args).

Definition create_ReduceReturnOp (val : Value) : M unit :=
  insert_op (ReduceReturnOp val).

(** ** [BlockAndValueMapping] *)

Abbreviation Mapping := (gmap nat Value).

Definition map_value (m : Mapping) (from to : Value) : Mapping :=
  <[v_id from := to]> m.

(** [mapping.map(range, range)] zips the two ranges. *)
Fixpoint map_values (m : Mapping) (from to : list Value) : Mapping :=
  match from, to with
  | f :: from', t :: to' => map_values (map_value m f t) from' to'
  | _, _ => m
  end.

Definition lookupOrDefault (m : Mapping) (v : Value) : Value :=
  default v (m !! v_id v).

(** [rewriter->clone(nested, mapping)]: operands are remapped, results are
    fresh, and the clone's results are recorded in the mapping. *)
Definition clone (nested : LhloOperation) (m : Mapping)
    : M (list Value * Mapping) :=
  do results <- fresh_values (map v_ty (lo_results nested));
  do _ <- insert_op (LhloOp (lo_name nested)
                            (map (lookupOrDefault m) (lo_operands nested))
                            results);
  ret (results, map_values m (lo_results nested) results).

(** [Block::without_terminator]. *)
Definition without_terminator (ops : list LhloOperation) : list LhloOperation :=
  removelast ops.

(** ** ConvertToReductionOperator (lines 37-64) *)

Fixpoint clone_body (ops : list LhloOperation) (m : Mapping) : M Mapping :=
  match ops with
  | [] => ret m
  | nested :: rest =>
      do '(results, m1) <- clone nested m;
      clone_body rest (map_values m1 (lo_results nested) results)
  end.

Definition ConvertToReductionOperator (reduce_op : ReduceOpHandle)
    (lhlo_block : LhloBlock) : M unit :=
  do _ <- setInsertionPointToStart (red_body reduce_op);
  do elem_arg <- deref (lb_args lhlo_block !! 0);
  do elem_ty <- deref (cast_MemRefType (v_ty elem_arg));
  do elem_buf <- create_AllocOp elem_ty;
  do body_arg0 <- deref (red_args reduce_op !! 0);
  do _ <- create_StoreOp body_arg0 elem_buf [];
  do acc_arg <- deref (lb_args lhlo_block !! 1);
  do acc_ty <- deref (cast_MemRefType (v_ty acc_arg));
  do acc_buf <- create_AllocOp acc_ty;
  do body_arg1 <- deref (red_args reduce_op !! 1);
  do _ <- create_StoreOp body_arg1 acc_buf [];
  let mapping := map_values ∅ (lb_args lhlo_block) [elem_buf; acc_buf; acc_buf] in
  do _ <- clone_body (without_terminator (lb_ops lhlo_block)) mapping;
  do acc_result <- create_LoadOp acc_buf [];
  create_ReduceReturnOp acc_result.

(** ** GetStaticOrDynamicDim (lines 68-74) *)

Definition GetStaticOrDynamicDim (shaped_value : Value) (dim_index : nat)
    (dim : Z) : M Value :=
  if (dim =? kDynamicSize)%Z
  then create_DimOp shaped_value dim_index
  else create_ConstantIndexOp dim.

(** ** ReduceOpConverter (lines 109-214) *)

(** Conversion of an [int64_t] or [size_t] to [int]. *)
Definition to_int (z : Z) : Z := ((z + 2 ^ 31) mod 2 ^ 32 - 2 ^ 31)%Z.

(** Lines 151-154: the [DenseSet<int>] of reduced dimensions, for
    dimensions other than the two values of [int] that such a set
    reserves and cannot hold. *)
Definition reducing_dims_of (dimensions : list Z) : gset Z :=
  foldl (fun acc rdim => {[ to_int rdim ]} ∪ acc) ∅ dimensions.

(** [reducing_dims.count(i)] for an index [i]. *)
Definition count (reducing_dims : gset Z) (i : nat) : bool :=
  bool_decide (to_int (Z.of_nat i) ∈ reducing_dims).

(** The three [SmallVector]s of bounds of one loop nest. *)
Record LoopBounds : Type := mkBounds {
  lower : list Value;
  upper : list Value;
  step : list Value
}.

Definition no_bounds : LoopBounds := mkBounds [] [] [].

Definition push_back (b : LoopBounds) (lb ub st : Value) : LoopBounds :=
  mkBounds (lower b ++ [lb]) (upper b ++ [ub]) (step b ++ [st]).

(** Lines 161-171: the loop over [llvm::enumerate(operand_shape)];
    [index] is the position of the head of [shape]. *)
Fixpoint partition_dims (operand : Value) (reducing_dims : gset Z)
    (index : nat) (shape : list Z) (parallel reduce : LoopBounds)
    : M (LoopBounds * LoopBounds) :=
  match shape with
  | [] => ret (parallel, reduce)
  | dim :: rest =>
      let is_reducing_dim := count reducing_dims index in
      do ub <- GetStaticOrDynamicDim operand index dim;
      do lb <- create_ConstantIndexOp 0;
      do st <- create_ConstantIndexOp 1;
      if is_reducing_dim
      then partition_dims operand reducing_dims (S index) rest
             parallel (push_back reduce lb ub st)
      else partition_dims operand reducing_dims (S index) rest
             (push_back parallel lb ub st) reduce
  end.

(** Lines 199-207: the two iterators over the induction variables.  The
    outer iterator is [nullptr] when there is no outer loop; an iterator is
    represented by what is left in front of it.  [i] runs from its start
    value over [n] axes. *)
Fixpoint load_indices (reducing_dims : gset Z) (i n : nat)
    (outer_ivs_it : option (list Value)) (inner_ivs_it : list Value)
    : option (list Value) :=
  match n with
  | O => Some []
  | S n' =>
      if count reducing_dims i then
        match inner_ivs_it with
        | iv :: inner' =>
            cons iv <$> load_indices reducing_dims (S i) n' outer_ivs_it inner'
        | [] => None
        end
      else
        match outer_ivs_it with
        | Some (iv :: outer') =>
            cons iv <$> load_indices reducing_dims (S i) n' (Some outer')
                          inner_ivs_it
        | _ => None
        end
  end.

(** Lines 147-213. *)
Definition CreateReduceOpInNestedParallelLoops (xla_reduce_op : XlaReduceOp)
    : M ReduceOpHandle :=
  let reducing_dims := reducing_dims_of (r_dimensions xla_reduce_op) in
  do operand <- deref (head (r_operands xla_reduce_op));
  do out <- deref (head (r_out xla_reduce_op));
  do operand_shape <- deref (getShape (v_ty operand));
  do '(parallel, reduce) <-
    partition_dims operand reducing_dims 0 operand_shape no_bounds no_bounds;
  do init_buf <- deref (head (r_init_values xla_reduce_op));
  do init <- create_LoadOp init_buf [];
  let init_value := [init] in
  do outer <-
    (if negb (bool_decide (lower parallel = []))
     then
       do o <- create_ParallelOp (lower parallel) (upper parallel)
                 (step parallel) [];
       do _ <- setInsertionPointToStart (par_body o);
       ret (Some o)
     else ret None);
  do inner <- create_ParallelOp (lower reduce) (upper reduce) (step reduce)
                init_value;
  do reduction_result <- deref (head (par_results inner));
  do out_indices <-
    match outer with
    | Some o => ret (par_ivs o)
    | None => do zero <- create_ConstantIndexOp 0; ret [zero]
    end;
  do _ <- create_StoreOp reduction_result out out_indices;
  do indices <-
    deref (load_indices reducing_dims 0 (length operand_shape)
             (par_ivs <$> outer) (par_ivs inner));
  do _ <- setInsertionPointToStart (par_body inner);
  do operand0 <- deref (head (r_operands xla_reduce_op));
  do elem <- create_LoadOp operand0 indices;
  create_ReduceOp elem.

Inductive LogicalResult : Type := success | failure.

(** Lines 113-125. *)
Definition ReduceOpConverter_matchAndRewrite (xla_reduce_op : XlaReduceOp)
    : M LogicalResult :=
  if negb (length (r_out xla_reduce_op) =? 1) then ret failure
  else
    do reduce_op <- CreateReduceOpInNestedParallelLoops xla_reduce_op;
    do _ <- ConvertToReductionOperator reduce_op (r_body xla_reduce_op);
    do _ <- replaceOp (r_id xla_reduce_op);
    ret success.

(** ** ReduceWindowOpConverter (lines 276-418) *)

(** Lines 314-319: the bounds of the loop over the output. *)
Fixpoint output_bounds (xla_output zero one : Value) (index : nat)
    (shape : list Z) (parallel : LoopBounds) : M LoopBounds :=
  match shape with
  | [] => ret parallel
  | dim :: rest =>
      do ub <- GetStaticOrDynamicDim xla_output index dim;
      output_bounds xla_output zero one (S index) rest
        (push_back parallel zero ub one)
  end.

(** Lines 326-331: the bounds of the loop over the window. *)
Fixpoint window_bounds (zero one : Value) (window_dimensions : list Z)
    (window : LoopBounds) : M LoopBounds :=
  match window_dimensions with
  | [] => ret window
  | window_dim :: rest =>
      do ub <- create_ConstantIndexOp window_dim;
      window_bounds zero one rest (push_back window zero ub one)
  end.

(** Lines 299-341. *)
Definition CreateParallelLoopsToTraverseOutputAndWindow
    (xla_reduce_window_op : XlaReduceWindowOp)
    : M (ParallelOpHandle * ParallelOpHandle) :=
  do init_value <- create_LoadOp (rw_init_value xla_reduce_window_op) [];
  do zero <- create_ConstantIndexOp 0;
  do one <- create_ConstantIndexOp 1;
  let xla_output := rw_out xla_reduce_window_op in
  do output_shape <- deref (getShape (v_ty xla_output));
  do parallel <- output_bounds xla_output zero one 0 output_shape no_bounds;
  do output_loop <- create_ParallelOp (lower parallel) (upper parallel)
                      (step parallel) [];
  do _ <- setInsertionPointToStart (par_body output_loop);
  do window <- window_bounds zero one
                 (rw_window_dimensions xla_reduce_window_op) no_bounds;
  do window_loop <- create_ParallelOp (lower window) (upper window)
                      (step window) [init_value];
  do reduction_result <- deref (head (par_results window_loop));
  do _ <- create_StoreOp reduction_result xla_output (par_ivs output_loop);
  ret (output_loop, window_loop).

Definition no_strides_msg : string := "No window strides specified.".
Definition no_padding_msg : string := "No padding specified.".
Definition dilation_msg : string :=
  "Lowering to parallel loops does not support `base_dilations` or `window_dilations` attributes yet. The attributes will be ignored.".

Definition hasValue {A} (o : option A) : bool :=
  match o with Some _ => true | None => false end.

(** Lines 350-361: the three attribute checks. *)
Definition check_attributes (op : XlaReduceWindowOp) : M unit :=
  do _ <- (if negb (hasValue (rw_window_strides op))
           then emit (OpError (rw_id op) no_strides_msg) else ret tt);
  do _ <- (if negb (hasValue (rw_padding op))
           then emit (OpError (rw_id op) no_padding_msg) else ret tt);
  if hasValue (rw_base_dilations op) || hasValue (rw_window_dilations op)
  then emit (Remark (rw_id op) dilation_msg) else ret tt.

(** Lines 378-401: one iteration per loop of the output nest.  [i] runs
    from its start value over [n] axes. *)
Fixpoint operand_index_loop (xla_operand : Value) (xla_operand_shape : list Z)
    (output_ivs window_ivs : list Value)
    (window_strides : list Z) (padding : list (Z * Z))
    (i n : nat) (operand_indices : list Value) (in_bounds : Value)
    : M (list Value * Value) :=
  match n with
  | O => ret (operand_indices, in_bounds)
  | S n' =>
      do stride <- deref (window_strides !! i);
      do pad <- deref (padding !! i);
      let pad_low := fst pad in
      do stride_val <- create_ConstantIndexOp stride;
      do pad_low_val <- create_ConstantIndexOp pad_low;
      do output_iv <- deref (output_ivs !! i);
      do center <- create_MulIOp output_iv stride_val;
      do window_iv <- deref (window_ivs !! i);
      do offset <- create_SubIOp window_iv pad_low_val;
      do index <- create_AddIOp center offset;
      do dim <- deref (xla_operand_shape !! i);
      do upper_bound <- GetStaticOrDynamicDim xla_operand i dim;
      do cmp <- create_CmpIOp ult index upper_bound;
      do in_bounds' <- create_AndOp in_bounds cmp;
      operand_index_loop xla_operand xla_operand_shape output_ivs window_ivs
        window_strides padding (S i) n' (operand_indices ++ [index]) in_bounds'
  end.

(** Handle on a [loop.if] with an else region. *)
Record IfOpHandle : Type := mkIf {
  if_then : BlockId;
  if_else : BlockId;
  if_results : list Value
}.

(** [loop::IfOp::build] with a result type: both regions get an empty
    block, without terminator. *)
Definition create_IfOp (result_ty : Ty) (cond : Value) : M IfOpHandle :=
  do results <- fresh_values [result_ty];
  do then_block <- new_block [] [];
  do else_block <- new_block [] [];
  do _ <- insert_op (IfOp results cond then_block else_block);
  ret (mkIf then_block else_block results).

Definition append_ops (ops : list Op) (b : Block) : Block :=
  mkBlock (b_args b) (b_ops b ++ ops).

Definition append_at (b : BlockId) (ops : list Op) (blks : list Block)
    : list Block :=
  alter (append_ops ops) b blks.

(** An [OpBuilder] of its own, appending to [b]: the rewriter's insertion
    point is left where it was. *)
Definition append_op (b : BlockId) (op : Op) : M unit := fun s =>
  Ok tt (mkState (next_value s) (append_at b [op] (blocks s))
                 (ip_block s) (ip_pos s) (diags s) (replaced s)).

(** Lines 363-417: the operand index, the in-bounds flag and the selection
    between the loaded element and the initial value. *)
Definition select_element_or_init
    (xla_reduce_window_op : XlaReduceWindowOp)
    (output_loop window_loop : ParallelOpHandle) : M ReduceOpHandle :=
  let xla_operand := rw_operand xla_reduce_window_op in
  do xla_operand_type <- deref (cast_MemRefType (v_ty xla_operand));
  do xla_operand_shape <- deref (getShape xla_operand_type);
  let output_ivs := par_ivs output_loop in
  let window_ivs := par_ivs window_loop in
  do window_strides <- deref (rw_window_strides xla_reduce_window_op);
  do padding <- deref (rw_padding xla_reduce_window_op);
  do in_bounds0 <- create_ConstantOp I1Ty 1;
  do '(operand_indices, in_bounds) <-
    operand_index_loop xla_operand xla_operand_shape output_ivs window_ivs
      window_strides padding 0 (getNumLoops output_loop) [] in_bounds0;
  do element_type <- deref (getElementType xla_operand_type);
  do elem_or_init <- create_IfOp element_type in_bounds;
  do elem_ty <- deref (getElementType
                         (v_ty (rw_operand xla_reduce_window_op)));
  do elem <- fresh elem_ty;
  do _ <- append_op (if_then elem_or_init)
            (LoadOp elem (rw_operand xla_reduce_window_op) operand_indices);
  do _ <- append_op (if_then elem_or_init) (YieldOp [elem]);
  do init <- deref (head (par_inits window_loop));
  do _ <- append_op (if_else elem_or_init) (YieldOp [init]);
  do result <- deref (head (if_results elem_or_init));
  create_ReduceOp result.

(** Lines 343-417. *)
Definition ReduceWindow_CreateReduceOpInNestedParallelLoops
    (xla_reduce_window_op : XlaReduceWindowOp)
    (output_loop window_loop : ParallelOpHandle) : M ReduceOpHandle :=
  do _ <- setInsertionPointToStart (par_body window_loop);
  do _ <- check_attributes xla_reduce_window_op;
  select_element_or_init xla_reduce_window_op output_loop window_loop.

(** Lines 281-296. *)
Definition ReduceWindowOpConverter_matchAndRewrite
    (xla_reduce_window_op : XlaReduceWindowOp) : M LogicalResult :=
  do '(output_loop, window_loop) <-
    CreateParallelLoopsToTraverseOutputAndWindow xla_reduce_window_op;
  do reduce_op <-
    ReduceWindow_CreateReduceOpInNestedParallelLoops xla_reduce_window_op
      output_loop window_loop;
  do _ <- ConvertToReductionOperator reduce_op (rw_body xla_reduce_window_op);
  do _ <- replaceOp (rw_id xla_reduce_window_op);
  ret success.

(** ** What a run leaves behind

    State transformers in which the effect of a run is written down: [k]
    fresh values taken and [ops] inserted at the insertion point. *)

Definition emit_ops (k : nat) (ops : list Op) (s : RewriterState)
    : RewriterState :=
  mkState (next_value s + k)
          (insert_at (ip_block s) (ip_pos s) ops (blocks s))
          (ip_block s) (ip_pos s + length ops) (diags s) (replaced s).

Definition at_start (b : BlockId) (s : RewriterState) : RewriterState :=
  mkState (next_value s) (blocks s) b 0 (diags s) (replaced s).

Definition add_block (blk : Block) (s : RewriterState) : RewriterState :=
  mkState (next_value s) (blocks s ++ [blk]) (ip_block s) (ip_pos s)
          (diags s) (replaced s).

(** The operations the cloning loop of the transplanter leaves in the
    reduction block, written as a function of the first fresh value [n] and
    the mapping [m] in force. *)
Fixpoint cloned_ops (n : nat) (m : Mapping) (ops : list LhloOperation)
    : list Op :=
  match ops with
  | [] => []
  | nested :: rest =>
      let results := values_from n (map v_ty (lo_results nested)) in
      LhloOp (lo_name nested) (map (lookupOrDefault m) (lo_operands nested))
             results
      :: cloned_ops (n + length (lo_results nested))
           (map_values m (lo_results nested) results) rest
  end.

Fixpoint results_count (ops : list LhloOperation) : nat :=
  match ops with
  | [] => 0
  | nested :: rest => length (lo_results nested) + results_count rest
  end.

(** ** The dimension partitioner, axis by axis

    With [n] the first fresh value when the partitioner starts, axis [a]
    owns the three values [n + 3a], [n + 3a + 1], [n + 3a + 2]. *)

Definition axis_ub (n a : nat) : Value := mkValue (n + 3 * a) IndexTy.
Definition axis_lb (n a : nat) : Value := mkValue (n + 3 * a + 1) IndexTy.
Definition axis_step (n a : nat) : Value := mkValue (n + 3 * a + 2) IndexTy.

(** What the bound resolver emits for an axis of extent [dim]. *)
Definition bound_op (res shaped_value : Value) (a : nat) (dim : Z) : Op :=
  if (dim =? kDynamicSize)%Z then DimOp res shaped_value a
  else ConstantIndexOp res dim.

Definition axis_ops (operand : Value) (n a : nat) (dim : Z) : list Op :=
  [bound_op (axis_ub n a) operand a dim;
   ConstantIndexOp (axis_lb n a) 0;
   ConstantIndexOp (axis_step n a) 1].

Definition partition_ops (operand : Value) (n : nat) (shape : list Z)
    : list Op :=
  concat (imap (axis_ops operand n) shape).

Definition axes_bounds (n : nat) (axes : list nat) : LoopBounds :=
  mkBounds (map (axis_lb n) axes) (map (axis_ub n) axes)
           (map (axis_step n) axes).

Definition app_bounds (b1 b2 : LoopBounds) : LoopBounds :=
  mkBounds (lower b1 ++ lower b2) (upper b1 ++ upper b2) (step b1 ++ step b2).

(** The reduced and the kept axes among [a, a + n), in increasing order. *)
Definition reduced_axes (reducing_dims : gset Z) (a n : nat) : list nat :=
  List.filter (count reducing_dims) (seq a n).
Definition kept_axes (reducing_dims : gset Z) (a n : nat) : list nat :=
  List.filter (fun i => negb (count reducing_dims i)) (seq a n).

(** ** The windowed converter, axis by axis *)

(** [k] consecutive index-typed values starting at [m]. *)
Definition index_values (m k : nat) : list Value :=
  map (fun j => mkValue j IndexTy) (seq m k).

(** The bound resolver's operations for the axes of the output: the value
    [m + j] is the extent of axis [a + j]. *)
Definition output_bound_ops (xla_output : Value) (m a : nat) (shape : list Z)
    : list Op :=
  imap (fun j dim => bound_op (mkValue (m + j) IndexTy) xla_output (a + j) dim)
       shape.

Definition window_bound_ops (m : nat) (window_dimensions : list Z) : list Op :=
  imap (fun j window_dim => ConstantIndexOp (mkValue (m + j) IndexTy) window_dim)
       window_dimensions.

Definition no_value : Value := mkValue 0 IndexTy.

(** The eight operations of one iteration of the loop of lines 378-401,
    the first of its fresh values being [b]. *)
Definition index_axis_ops (xla_operand output_iv window_iv in_bounds : Value)
    (b i : nat) (stride pad_low dim : Z) : list Op :=
  let stride_val := mkValue b IndexTy in
  let pad_low_val := mkValue (b + 1) IndexTy in
  let center := mkValue (b + 2) (v_ty output_iv) in
  let offset := mkValue (b + 3) (v_ty window_iv) in
  let index := mkValue (b + 4) (v_ty center) in
  let upper_bound := mkValue (b + 5) IndexTy in
  let cmp := mkValue (b + 6) I1Ty in
  let in_bounds' := mkValue (b + 7) (v_ty in_bounds) in
  [ConstantIndexOp stride_val stride;
   ConstantIndexOp pad_low_val pad_low;
   MulIOp center output_iv stride_val;
   SubIOp offset window_iv pad_low_val;
   AddIOp index center offset;
   bound_op upper_bound xla_operand i dim;
   CmpIOp cmp ult index upper_bound;
   AndOp in_bounds' in_bounds cmp].

(** The operations of the iterations [i, i + n). *)
Fixpoint index_ops (xla_operand : Value) (xla_operand_shape : list Z)
    (output_ivs window_ivs : list Value)
    (window_strides : list Z) (padding : list (Z * Z))
    (b i n : nat) (in_bounds : Value) : list Op :=
  match n with
  | O => []
  | S n' =>
      index_axis_ops xla_operand (nth i output_ivs no_value)
        (nth i window_ivs no_value) in_bounds b i
        (nth i window_strides 0%Z) (fst (nth i padding (0%Z, 0%Z)))
        (nth i xla_operand_shape 0%Z)
      ++ index_ops xla_operand xla_operand_shape output_ivs window_ivs
           window_strides padding (b + 8) (S i) n'
           (mkValue (b + 7) (v_ty in_bounds))
  end.

(** The operand index computed by iteration [i] when the first iteration,
    [i0], starts at the fresh value [b]. *)
Definition operand_index (output_ivs : list Value) (b i0 i : nat) : Value :=
  mkValue (b + 8 * (i - i0) + 4) (v_ty (nth i output_ivs no_value)).

Definition append_to (b : BlockId) (ops : list Op) (s : RewriterState)
    : RewriterState :=
  mkState (next_value s) (append_at b ops (blocks s))
          (ip_block s) (ip_pos s) (diags s) (replaced s).

Definition emit_diags (ds : list Diagnostic) (s : RewriterState)
    : RewriterState :=
  mkState (next_value s) (blocks s) (ip_block s) (ip_pos s)
          (diags s ++ ds) (replaced s).

(** The diagnostics of lines 350-361, in the order the checks run. *)
Definition attribute_diagnostics (op : XlaReduceWindowOp) : list Diagnostic :=
  (if hasValue (rw_window_strides op) then []
   else [OpError (rw_id op) no_strides_msg])
  ++ (if hasValue (rw_padding op) then []
      else [OpError (rw_id op) no_padding_msg])
  ++ (if hasValue (rw_base_dilations op) || hasValue (rw_window_dilations op)
      then [Remark (rw_id op) dilation_msg] else []).

(** The conjoined flag after [n] iterations started with [in_bounds] at the
    fresh value [b]. *)
Definition final_in_bounds (b n : nat) (in_bounds : Value) : Value :=
  match n with
  | O => in_bounds
  | S n' => mkValue (b + 8 * n' + 7) (v_ty in_bounds)
  end.

(** ** The loop nest of a windowed reduction

    What the two synthesizer calls of lines 284-290 leave behind.  The
    context collects what the description depends on: the operation, the
    first fresh value [wc_n] and the first fresh block [wc_nb] of the run,
    the shape and element type of the operand, the shape of the output, the
    element type of the initial value, and the strides and padding. *)
Record WindowCtx : Type := mkWindowCtx {
  wc_op : XlaReduceWindowOp;
  wc_n : nat;
  wc_nb : nat;
  wc_shape : list Z;
  wc_ety : Ty;
  wc_out_shape : list Z;
  wc_init_ety : Ty;
  wc_strides : list Z;
  wc_padding : list (Z * Z)
}.

Definition w_orank (c : WindowCtx) : nat := length (wc_out_shape c).
Definition w_wdims (c : WindowCtx) : list Z := rw_window_dimensions (wc_op c).
Definition w_wrank (c : WindowCtx) : nat := length (w_wdims c).

Definition w_init_value (c : WindowCtx) : Value :=
  mkValue (wc_n c) (wc_init_ety c).
Definition w_zero (c : WindowCtx) : Value := mkValue (wc_n c + 1) IndexTy.
Definition w_one (c : WindowCtx) : Value := mkValue (wc_n c + 2) IndexTy.
Definition w_output_ivs (c : WindowCtx) : list Value :=
  index_values (wc_n c + 3 + w_orank c) (w_orank c).
Definition w_window_ivs (c : WindowCtx) : list Value :=
  index_values (wc_n c + 3 + 2 * w_orank c + w_wrank c) (w_wrank c).
Definition w_result (c : WindowCtx) : Value :=
  mkValue (wc_n c + 3 + 2 * w_orank c + 2 * w_wrank c) (wc_init_ety c).
(** First fresh value of the second call. *)
Definition w_base (c : WindowCtx) : nat :=
  wc_n c + 3 + 2 * w_orank c + 2 * w_wrank c + 1.
Definition w_in_bounds0 (c : WindowCtx) : Value := mkValue (w_base c) I1Ty.
Definition w_in_bounds (c : WindowCtx) : Value :=
  final_in_bounds (w_base c + 1) (w_orank c) (w_in_bounds0 c).
Definition w_indices (c : WindowCtx) : list Value :=
  map (operand_index (w_output_ivs c) (w_base c + 1) 0) (seq 0 (w_orank c)).
Definition w_if_result (c : WindowCtx) : Value :=
  mkValue (w_base c + 1 + 8 * w_orank c) (wc_ety c).
Definition w_elem (c : WindowCtx) : Value :=
  mkValue (w_base c + 1 + 8 * w_orank c + 1) (wc_ety c).
Definition w_reduce_args (c : WindowCtx) : list Value :=
  values_from (w_base c + 1 + 8 * w_orank c + 2) [wc_ety c; wc_ety c].

Definition w_output_loop (c : WindowCtx) : ParallelOpHandle :=
  mkParallel (wc_nb c) (w_output_ivs c)
    (map (fun _ => w_one c) (wc_out_shape c)) [] [].
Definition w_window_loop (c : WindowCtx) : ParallelOpHandle :=
  mkParallel (wc_nb c + 1) (w_window_ivs c)
    (map (fun _ => w_one c) (w_wdims c)) [w_init_value c] [w_result c].
Definition w_reduce_op (c : WindowCtx) : ReduceOpHandle :=
  mkReduceHandle (wc_nb c + 4) (w_reduce_args c).

(** Operations inserted where the windowed reduction stands. *)
Definition w_root_ops (c : WindowCtx) : list Op :=
  [LoadOp (w_init_value c) (rw_init_value (wc_op c)) [];
   ConstantIndexOp (w_zero c) 0; ConstantIndexOp (w_one c) 1]
  ++ output_bound_ops (rw_out (wc_op c)) (wc_n c + 3) 0 (wc_out_shape c)
  ++ [ParallelOp [] (map (fun _ => w_zero c) (wc_out_shape c))
        (index_values (wc_n c + 3) (w_orank c))
        (map (fun _ => w_one c) (wc_out_shape c)) [] (wc_nb c)].

(** Body of the loop over the output. *)
Definition w_output_body (c : WindowCtx) : Block :=
  mkBlock (w_output_ivs c)
    (window_bound_ops (wc_n c + 3 + 2 * w_orank c) (w_wdims c)
     ++ [ParallelOp [w_result c] (map (fun _ => w_zero c) (w_wdims c))
           (index_values (wc_n c + 3 + 2 * w_orank c) (w_wrank c))
           (map (fun _ => w_one c) (w_wdims c)) [w_init_value c]
           (wc_nb c + 1);
         StoreOp (w_result c) (rw_out (wc_op c)) (w_output_ivs c);
         YieldOp []]).

(** Body of the loop over the window. *)
Definition w_window_body (c : WindowCtx) : Block :=
  mkBlock (w_window_ivs c)
    (ConstantOp (w_in_bounds0 c) 1
     :: index_ops (rw_operand (wc_op c)) (wc_shape c) (w_output_ivs c)
          (w_window_ivs c) (wc_strides c) (wc_padding c) (w_base c + 1) 0
          (w_orank c) (w_in_bounds0 c)
     ++ [IfOp [w_if_result c] (w_in_bounds c) (wc_nb c + 2) (wc_nb c + 3);
         ReduceOp (w_if_result c) (wc_nb c + 4);
         YieldOp []]).

Definition w_then_block (c : WindowCtx) : Block :=
  mkBlock [] [LoadOp (w_elem c) (rw_operand (wc_op c)) (w_indices c);
              YieldOp [w_elem c]].
Definition w_else_block (c : WindowCtx) : Block :=
  mkBlock [] [YieldOp [w_init_value c]].
Definition w_reduce_block (c : WindowCtx) : Block :=
  mkBlock (w_reduce_args c) [].

Definition w_new_blocks (c : WindowCtx) : list Block :=
  [w_output_body c; w_window_body c; w_then_block c; w_else_block c;
   w_reduce_block c].

(** The rewriter state after the two calls. *)
Definition w_state (c : WindowCtx) (s : RewriterState) : RewriterState :=
  mkState (w_base c + 1 + 8 * w_orank c + 4)
    (insert_at (ip_block s) (ip_pos s) (w_root_ops c) (blocks s)
     ++ w_new_blocks c)
    (wc_nb c + 1) (1 + 8 * w_orank c + 2)
    (diags s ++ attribute_diagnostics (wc_op c)) (replaced s).

(** ** Executing the emitted operations

    One iteration of a loop body, for the standard-dialect operations the
    windowed converter emits.  Index values are two's-complement integers
    of the width [bits] of the target's index type, kept as their unsigned
    representative; a run records the loads it performs and the values it
    hands to [loop.reduce]. *)

Definition wrap (bits z : Z) : Z := (z mod 2 ^ bits)%Z.
Definition signed (bits z : Z) : Z :=
  (if z <? 2 ^ (bits - 1) then z else z - 2 ^ bits)%Z.

Inductive RtVal : Type :=
| IndexVal (z : Z)
| BoolVal (b : bool)
| ElemVal (x : Z).

Abbreviation Env := (gmap nat RtVal).

(** The width of the index type, and the run-time extents and contents of
    the buffers. *)
Record Runtime : Type := mkRuntime {
  rt_index_bits : Z;
  rt_dim : Value -> nat -> Z;
  rt_load : Value -> list Z -> Z
}.

Record ExecState : Type := mkExec {
  env : Env;
  loads : list (Value * list Z);
  fed : list RtVal
}.

Definition eval (st : ExecState) (v : Value) : option RtVal :=
  env st !! v_id v.

Definition eval_index (st : ExecState) (v : Value) : option Z :=
  match eval st v with Some (IndexVal z) => Some z | _ => None end.

Definition eval_bool (st : ExecState) (v : Value) : option bool :=
  match eval st v with Some (BoolVal b) => Some b | _ => None end.

Definition define (res : Value) (x : RtVal) (st : ExecState) : ExecState :=
  mkExec (<[v_id res := x]> (env st)) (loads st) (fed st).

Fixpoint define_all (results : list Value) (xs : list RtVal) (st : ExecState)
    : option ExecState :=
  match results, xs with
  | [], [] => Some st
  | res :: results', x :: xs' => define_all results' xs' (define res x st)
  | _, _ => None
  end.

Definition cmpi (bits : Z) (pred : CmpIPredicate) (a b : Z) : bool :=
  match pred with
  | eq_ => (a =? b)%Z
  | ne => negb (a =? b)%Z
  | slt => (signed bits a <? signed bits b)%Z
  | sle => (signed bits a <=? signed bits b)%Z
  | sgt => (signed bits b <? signed bits a)%Z
  | sge => (signed bits b <=? signed bits a)%Z
  | ult => (a <? b)%Z
  | ule => (a <=? b)%Z
  | ugt => (b <? a)%Z
  | uge => (b <=? a)%Z
  end.

Definition binary_index (bits : Z) (f : Z -> Z -> Z) (res lhs rhs : Value)
    (st : ExecState) : option ExecState :=
  a ← eval_index st lhs;
  b ← eval_index st rhs;
  Some (define res (IndexVal (wrap bits (f a b))) st).

(** Operations without regions. *)
Definition exec_op (rt : Runtime) (op : Op) (st : ExecState)
    : option ExecState :=
  let bits := rt_index_bits rt in
  match op with
  | ConstantIndexOp res value =>
      Some (define res (IndexVal (wrap bits value)) st)
  | ConstantOp res value =>
      match v_ty res with
      | IntegerTy 1 => Some (define res (BoolVal (Z.odd value)) st)
      | IndexTy => Some (define res (IndexVal (wrap bits value)) st)
      | _ => None
      end
  | DimOp res memref index =>
      Some (define res (IndexVal (wrap bits (rt_dim rt memref index))) st)
  | MulIOp res lhs rhs => binary_index bits Z.mul res lhs rhs st
  | SubIOp res lhs rhs => binary_index bits Z.sub res lhs rhs st
  | AddIOp res lhs rhs => binary_index bits Z.add res lhs rhs st
  | CmpIOp res pred lhs rhs =>
      a ← eval_index st lhs;
      b ← eval_index st rhs;
      Some (define res (BoolVal (cmpi bits pred a b)) st)
  | AndOp res lhs rhs =>
      a ← eval_bool st lhs;
      b ← eval_bool st rhs;
      Some (define res (BoolVal (a && b)) st)
  | LoadOp res memref indices =>
      zs ← mapM (eval_index st) indices;
      Some (mkExec (<[v_id res := ElemVal (rt_load rt memref zs)]> (env st))
                   (loads st ++ [(memref, zs)]) (fed st))
  | ReduceOp operand _ =>
      x ← eval st operand;
      Some (mkExec (env st) (loads st) (fed st ++ [x]))
  | _ => None
  end.

(** A block runs until its terminator and returns what that yields; a
    [loop.if] runs the block of the branch taken, through [run_region]. *)
Fixpoint run_with
    (run_region : list Op -> ExecState -> option (ExecState * list RtVal))
    (blks : list Block) (rt : Runtime) (ops : list Op) (st : ExecState)
    : option (ExecState * list RtVal) :=
  match ops with
  | [] => Some (st, [])
  | YieldOp vals :: _ =>
      xs ← mapM (eval st) vals;
      Some (st, xs)
  | IfOp results cond thenBlock elseBlock :: rest =>
      c ← eval_bool st cond;
      blk ← blks !! (if c : bool then thenBlock else elseBlock);
      r ← run_region (b_ops blk) st;
      st2 ← define_all results r.2 r.1;
      run_with run_region blks rt rest st2
  | op :: rest =>
      st1 ← exec_op rt op st;
      run_with run_region blks rt rest st1
  end.

(** [depth] bounds the nesting of regions. *)
Fixpoint run_ops (depth : nat) (blks : list Block) (rt : Runtime)
    : list Op -> ExecState -> option (ExecState * list RtVal) :=
  match depth with
  | O => run_with (fun _ _ => None) blks rt
  | S depth' => run_with (run_ops depth' blks rt) blks rt
  end.

(** Straight-line code. *)
Fixpoint exec_all (rt : Runtime) (ops : list Op) (st : ExecState)
    : option ExecState :=
  match ops with
  | [] => Some st
  | op :: rest => st1 ← exec_op rt op st; exec_all rt rest st1
  end.

Definition straight (op : Op) : bool :=
  match op with
  | YieldOp _ | IfOp _ _ _ _ => false
  | _ => true
  end.

(** Binding a loop's induction variables to the coordinates of an
    iteration. *)
Fixpoint bind_values (vs : list Value) (xs : list RtVal) (e : Env) : Env :=
  match vs, xs with
  | v :: vs', x :: xs' => <[v_id v := x]> (bind_values vs' xs' e)
  | _, _ => e
  end.

Definition coordinates (bits : Z) (zs : list Z) : list RtVal :=
  map (fun z => IndexVal (wrap bits z)) zs.

(** The extent of axis [j] of the operand: the static one when the shape
    has it, the run-time one otherwise. *)
Definition operand_extent (rt : Runtime) (xla_operand : Value)
    (shape : list Z) (j : nat) : Z :=
  let dim := nth j shape 0%Z in
  if (dim =? kDynamicSize)%Z then rt_dim rt xla_operand j else dim.

(** [o_j * stride_j + i_j - pad_low_j] as an index value. *)
Definition window_index (bits : Z) (strides : list Z)
    (padding : list (Z * Z)) (o w : list Z) (j : nat) : Z :=
  wrap bits (nth j o 0 * nth j strides 0 + nth j w 0
             - fst (nth j padding (0, 0)))%Z.

(** The same, read as a signed integer. *)
Definition signed_window_index (bits : Z) (strides : list Z)
    (padding : list (Z * Z)) (o w : list Z) (j : nat) : Z :=
  signed bits (window_index bits strides padding o w j).

(** [AND_j (0 <= index_j < operand_extent_j)]. *)
Definition window_in_bounds (rt : Runtime) (xla_operand : Value)
    (shape strides : list Z) (padding : list (Z * Z)) (o w : list Z)
    (rank : nat) : bool :=
  let bits := rt_index_bits rt in
  forallb (fun j =>
             (0 <=? signed_window_index bits strides padding o w j)%Z
             && (signed_window_index bits strides padding o w j
                 <? operand_extent rt xla_operand shape j)%Z)
          (seq 0 rank).

(** The conjunction of the unsigned comparisons the code emits. *)
Definition window_in_bounds_ult (rt : Runtime) (xla_operand : Value)
    (shape strides : list Z) (padding : list (Z * Z)) (o w : list Z)
    (i n : nat) : bool :=
  let bits := rt_index_bits rt in
  forallb (fun j =>
             cmpi bits ult (window_index bits strides padding o w j)
                  (wrap bits (operand_extent rt xla_operand shape j)))
          (seq i n).

(** ** The loop nest of a plain reduction

    What lines 147-213 leave behind.  The context collects the operation,
    its first operand, first initial-value buffer and first output, the
    first fresh value [pc_n] and the first fresh block [pc_nb] of the run,
    the operand's shape and element type and the element type of the
    initial value. *)
Record ReduceCtx : Type := mkReduceCtx {
  pc_op : XlaReduceOp;
  pc_n : nat;
  pc_nb : nat;
  pc_operand : Value;
  pc_init_buf : Value;
  pc_out : Value;
  pc_shape : list Z;
  pc_ety : Ty;
  pc_init_ety : Ty
}.

Definition p_dims (c : ReduceCtx) : gset Z :=
  reducing_dims_of (r_dimensions (pc_op c)).
Definition p_rank (c : ReduceCtx) : nat := length (pc_shape c).
Definition p_kept (c : ReduceCtx) : list nat := kept_axes (p_dims c) 0 (p_rank c).
Definition p_reduced (c : ReduceCtx) : list nat :=
  reduced_axes (p_dims c) 0 (p_rank c).
(** Whether there are kept axes, that is, an outer loop. *)
Definition p_has_outer (c : ReduceCtx) : bool :=
  match p_kept c with [] => false | _ => true end.

(** First fresh value after the partitioner. *)
Definition p_base (c : ReduceCtx) : nat := pc_n c + 3 * p_rank c.
Definition p_init (c : ReduceCtx) : Value := mkValue (p_base c) (pc_init_ety c).
Definition p_outer_ivs (c : ReduceCtx) : list Value :=
  index_values (p_base c + 1) (length (p_kept c)).
Definition p_inner_ivs (c : ReduceCtx) : list Value :=
  index_values (p_base c + 1 + length (p_kept c)) (length (p_reduced c)).
Definition p_result (c : ReduceCtx) : Value :=
  mkValue (p_base c + 1 + length (p_kept c) + length (p_reduced c))
          (pc_init_ety c).
(** The synthesized zero index of a reduction over all axes. *)
Definition p_zero (c : ReduceCtx) : Value :=
  mkValue (p_base c + 1 + length (p_kept c) + length (p_reduced c) + 1) IndexTy.
Definition p_out_indices (c : ReduceCtx) : list Value :=
  if p_has_outer c then p_outer_ivs c else [p_zero c].
Definition p_elem (c : ReduceCtx) : Value :=
  mkValue (p_base c + 1 + length (p_kept c) + length (p_reduced c) + 1
           + (if p_has_outer c then 0 else 1))
          (pc_ety c).
Definition p_reduce_args (c : ReduceCtx) : list Value :=
  values_from (v_id (p_elem c) + 1) [pc_ety c; pc_ety c].

(** Position [i] of the operand coordinate: the next induction variable of
    the inner loop when axis [i] is reduced, of the outer loop otherwise;
    each cursor has advanced once per earlier axis of its kind. *)
Definition interleaved (reducing_dims : gset Z) (outer_ivs inner_ivs : list Value)
    (i : nat) : Value :=
  if count reducing_dims i
  then nth (length (reduced_axes reducing_dims 0 i)) inner_ivs no_value
  else nth (length (kept_axes reducing_dims 0 i)) outer_ivs no_value.

Definition p_indices (c : ReduceCtx) : list Value :=
  map (interleaved (p_dims c) (p_outer_ivs c) (p_inner_ivs c))
      (seq 0 (p_rank c)).

Definition p_outer_loop (c : ReduceCtx) : Op :=
  ParallelOp [] (lower (axes_bounds (pc_n c) (p_kept c)))
    (upper (axes_bounds (pc_n c) (p_kept c)))
    (step (axes_bounds (pc_n c) (p_kept c))) [] (pc_nb c).

Definition p_inner_body_id (c : ReduceCtx) : BlockId :=
  pc_nb c + (if p_has_outer c then 1 else 0).

Definition p_inner_loop (c : ReduceCtx) : Op :=
  ParallelOp [p_result c] (lower (axes_bounds (pc_n c) (p_reduced c)))
    (upper (axes_bounds (pc_n c) (p_reduced c)))
    (step (axes_bounds (pc_n c) (p_reduced c))) [p_init c]
    (p_inner_body_id c).

Definition p_store (c : ReduceCtx) : Op :=
  StoreOp (p_result c) (pc_out c) (p_out_indices c).

Definition p_reduce_op (c : ReduceCtx) : ReduceOpHandle :=
  mkReduceHandle (p_inner_body_id c + 1) (p_reduce_args c).

(** Operations inserted where the reduction stands. *)
Definition p_root_ops (c : ReduceCtx) : list Op :=
  partition_ops (pc_operand c) (pc_n c) (pc_shape c)
  ++ [LoadOp (p_init c) (pc_init_buf c) []]
  ++ (if p_has_outer c then [p_outer_loop c]
      else [p_inner_loop c; ConstantIndexOp (p_zero c) 0; p_store c]).

Definition p_outer_body (c : ReduceCtx) : Block :=
  mkBlock (p_outer_ivs c) [p_inner_loop c; p_store c; YieldOp []].

Definition p_inner_body (c : ReduceCtx) : Block :=
  mkBlock (p_inner_ivs c)
    [LoadOp (p_elem c) (pc_operand c) (p_indices c);
     ReduceOp (p_elem c) (p_inner_body_id c + 1);
     YieldOp []].

Definition p_reduce_block (c : ReduceCtx) : Block :=
  mkBlock (p_reduce_args c) [].

Definition p_new_blocks (c : ReduceCtx) : list Block :=
  (if p_has_outer c then [p_outer_body c] else [])
  ++ [p_inner_body c; p_reduce_block c].

(** The rewriter state after the call. *)
Definition p_state (c : ReduceCtx) (s : RewriterState) : RewriterState :=
  mkState (v_id (p_elem c) + 3)
    (insert_at (ip_block s) (ip_pos s) (p_root_ops c) (blocks s)
     ++ p_new_blocks c)
    (p_inner_body_id c) 2 (diags s) (replaced s).

(** ** Observations on outcomes and emitted code *)

Definition is_parallel (op : Op) : bool :=
  match op with ParallelOp _ _ _ _ _ _ => true | _ => false end.

Definition is_store (op : Op) : bool :=
  match op with StoreOp _ _ _ => true | _ => false end.

(** The pattern declined: [matchAndRewrite] returned [failure()]. *)
Definition declined (o : Outcome LogicalResult) : bool :=
  match o with Ok failure _ => true | _ => false end.

Definition is_undefined {A} (o : Outcome A) : bool :=
  match o with Undefined _ => true | Ok _ _ => false end.

(** The state a run ends in, whether it returns or not. *)
Definition final_state {A} (o : Outcome A) : RewriterState :=
  match o with Ok _ s => s | Undefined s => s end.

Definition set_diags (ds : list Diagnostic) (s : RewriterState)
    : RewriterState :=
  mkState (next_value s) (blocks s) (ip_block s) (ip_pos s) ds (replaced s).

(** A computation that neither reads nor writes the diagnostics. *)
Definition diag_parametric {A} (m : M A) : Prop :=
  forall s ds, m (set_diags ds s) = match m s with
                                    | Ok a s' => Ok a (set_diags ds s')
                                    | Undefined s' => Undefined (set_diags ds s')
                                    end.

Definition outcome_map {A} (f : RewriterState -> RewriterState)
    (o : Outcome A) : Outcome A :=
  match o with Ok a s => Ok a (f s) | Undefined s => Undefined (f s) end.

(** An outcome with its diagnostics forgotten: the result and the IR. *)
Definition forget_diags {A} (o : Outcome A) : Outcome A :=
  outcome_map (set_diags []) o.

(** The windowed reduction without its dilation attributes. *)
Definition without_dilations (op : XlaReduceWindowOp) : XlaReduceWindowOp :=
  mkReduceWindow (rw_id op) (rw_operand op) (rw_init_value op) (rw_out op)
    (rw_window_dimensions op) (rw_window_strides op) (rw_padding op)
    None None (rw_body op).

(** The plain reduction with only its first operand and first initial
    value. *)
Definition first_operand_only (op : XlaReduceOp) (operand init_buf : Value)
    : XlaReduceOp :=
  mkReduce (r_id op) [operand] [init_buf] (r_out op) (r_dimensions op)
    (r_body op).

(** ** Concrete operations

    The examples of the source file's comments, with [f32] elements. *)

Definition f32 : Ty := FloatTy 32.
Definition scalar_buf (id : nat) : Value := mkValue id (MemRefTy [] f32).

(** A body block computing the maximum. *)
Definition maximum_body : LhloBlock :=
  mkLhloBlock [scalar_buf 3; scalar_buf 4; scalar_buf 5]
    [mkLhlo "xla_lhlo.maximum" [scalar_buf 3; scalar_buf 4; scalar_buf 5] [];
     mkLhlo "xla_lhlo.terminator" [] []].

(** A rewriter positioned in front of the only operation of one block. *)
Definition example_state : RewriterState :=
  mkState 10 [mkBlock [] [YieldOp []]] 0 0 [] [].

(** Reduction of a [100x10x5] buffer along dimension 1 (lines 83-87). *)
Definition example_reduce : XlaReduceOp :=
  mkReduce 7 [mkValue 0 (MemRefTy [100; 10; 5]%Z f32)] [scalar_buf 1]
    [mkValue 2 (MemRefTy [100; 5]%Z f32)] [1%Z] maximum_body.

(** Reduction of a [10] buffer along its only dimension. *)
Definition example_reduce_all : XlaReduceOp :=
  mkReduce 7 [mkValue 0 (MemRefTy [10]%Z f32)] [scalar_buf 1]
    [mkValue 2 (MemRefTy [1]%Z f32)] [0%Z] maximum_body.

(** The same reduction with a second operand, initial value and output. *)
Definition example_reduce_variadic : XlaReduceOp :=
  mkReduce 7
    [mkValue 0 (MemRefTy [100; 10; 5]%Z f32);
     mkValue 6 (MemRefTy [100; 10; 5]%Z f32)]
    [scalar_buf 1; scalar_buf 8]
    [mkValue 2 (MemRefTy [100; 5]%Z f32); mkValue 9 (MemRefTy [100; 5]%Z f32)]
    [1%Z] maximum_body.

(** One output, two operands and two initial values. *)
Definition example_reduce_two_operands : XlaReduceOp :=
  mkReduce 7
    [mkValue 0 (MemRefTy [100; 10; 5]%Z f32);
     mkValue 6 (MemRefTy [100; 10; 5]%Z f32)]
    [scalar_buf 1; scalar_buf 8]
    [mkValue 2 (MemRefTy [100; 5]%Z f32)]
    [1%Z] maximum_body.

(** The windowed reduction of lines 240-254. *)
Definition example_reduce_window : XlaReduceWindowOp :=
  mkReduceWindow 7 (mkValue 0 (MemRefTy [112; 112]%Z f32)) (scalar_buf 1)
    (mkValue 2 (MemRefTy [56; 56]%Z f32)) [3; 3]%Z (Some [2; 2]%Z)
    (Some [(0, 1); (0, 1)]%Z) None None maximum_body.

(** The same without the [window_strides] attribute. *)
Definition example_reduce_window_no_strides : XlaReduceWindowOp :=
  mkReduceWindow 7 (mkValue 0 (MemRefTy [112; 112]%Z f32)) (scalar_buf 1)
    (mkValue 2 (MemRefTy [56; 56]%Z f32)) [3; 3]%Z None
    (Some [(0, 1); (0, 1)]%Z) None None maximum_body.

(** The same with a [window_dilations] attribute. *)
Definition example_reduce_window_dilated : XlaReduceWindowOp :=
  mkReduceWindow 7 (mkValue 0 (MemRefTy [112; 112]%Z f32)) (scalar_buf 1)
    (mkValue 2 (MemRefTy [56; 56]%Z f32)) [3; 3]%Z (Some [2; 2]%Z)
    (Some [(0, 1); (0, 1)]%Z) None (Some [2; 2]%Z) maximum_body.

(** The buffers of the examples. *)
Definition example_operand : Value := mkValue 0 (MemRefTy [100; 10; 5]%Z f32).
Definition example_out : Value := mkValue 2 (MemRefTy [100; 5]%Z f32).
Definition example_window_operand : Value :=
  mkValue 0 (MemRefTy [112; 112]%Z f32).

(** A 64-bit target; all the extents of the examples are static. *)
Definition static_runtime : Runtime :=
  mkRuntime 64 (fun _ _ => 0%Z)
    (fun _ zs => (nth 0 zs 0 * 1000 + nth 1 zs 0)%Z).


(** ** What the converters take for granted

    The source reads its inputs without checking them; these predicates
    collect what it relies on. *)

Definition is_memref (t : Ty) : bool :=
  match t with MemRefTy _ _ => true | _ => false end.

(** The rank of a buffer. *)
Definition rank_of (v : Value) : nat :=
  match v_ty v with MemRefTy shape _ => length shape | _ => 0 end.

(** The body block has its element and accumulator arguments, and both are
    buffers. *)
Definition body_well_formed (lhlo_block : LhloBlock) : bool :=
  match lb_args lhlo_block with
  | elem_arg :: acc_arg :: _ =>
      is_memref (v_ty elem_arg) && is_memref (v_ty acc_arg)
  | _ => false
  end.

(** A plain reduction has a first operand and a first initial value, both
    buffers, and a well-formed body. *)
Definition reduce_well_formed (op : XlaReduceOp) : bool :=
  match r_operands op, r_init_values op with
  | operand :: _, init_buf :: _ =>
      is_memref (v_ty operand) && is_memref (v_ty init_buf)
      && body_well_formed (r_body op)
  | _, _ => false
  end.

(** An optional attribute is present and has an entry for each of [rank]
    axes. *)
Definition covers {A} (rank : nat) (attr : option (list A)) : bool :=
  match attr with Some l => rank <=? length l | None => false end.

(** A windowed reduction has buffers for its operand, initial value and
    output, and strides, padding, window dimensions and operand axes for
    every axis of the output, and a well-formed body. *)
Definition reduce_window_well_formed (op : XlaReduceWindowOp) : bool :=
  let rank := rank_of (rw_out op) in
  is_memref (v_ty (rw_init_value op))
  && is_memref (v_ty (rw_out op))
  && is_memref (v_ty (rw_operand op))
  && covers rank (rw_window_strides op)
  && covers rank (rw_padding op)
  && (rank <=? length (rw_window_dimensions op))
  && (rank <=? rank_of (rw_operand op))
  && body_well_formed (rw_body op).

(** The plain reduction with other [dimensions]. *)
Definition with_dimensions (op : XlaReduceOp) (dimensions : list Z)
    : XlaReduceOp :=
  mkReduce (r_id op) (r_operands op) (r_init_values op) (r_out op) dimensions
    (r_body op).

(** The rank of the first operand of a plain reduction. *)
Definition reduce_rank (op : XlaReduceOp) : nat :=
  match r_operands op with operand :: _ => rank_of operand | [] => 0 end.

(** ** Terminators *)

(** The terminator of a body region of the LHLO dialect (line 247). *)
Definition lhlo_terminator_name : string := "xla_lhlo.terminator".

Definition is_lhlo_terminator (nested : LhloOperation) : bool :=
  String.eqb (lo_name nested) lhlo_terminator_name.

(** The operations that close a block: those of the [loop] dialect, and the
    terminator of the LHLO dialect, which a copy would carry along under
    its name. *)
Definition is_terminator (op : Op) : bool :=
  match op with
  | YieldOp _ | ReduceReturnOp _ => true
  | LhloOp name _ _ => String.eqb name lhlo_terminator_name
  | _ => false
  end.

(** The block ends in [t], and [t] is its only terminator. *)
Definition closed_by (t : Op) (blk : Block) : Prop :=
  is_terminator t = true
  /\ exists body,
       b_ops blk = body ++ [t]
       /\ forallb (fun op => negb (is_terminator op)) body = true.

(** A body block as MLIR has it: it ends in its terminator and holds no
    other. *)
Definition body_terminated (lhlo_block : LhloBlock) : bool :=
  match last (lb_ops lhlo_block) with
  | Some t => is_lhlo_terminator t
  | None => false
  end
  && forallb (fun nested => negb (is_lhlo_terminator nested))
       (without_terminator (lb_ops lhlo_block)).

Definition is_lhlo (op : Op) : bool :=
  match op with LhloOp _ _ _ => true | _ => false end.

Definition is_load (op : Op) : bool :=
  match op with LoadOp _ _ _ => true | _ => false end.

(** ** The keys of [DenseSet<int>]

    [llvm::DenseSet<int>] reserves two values of [int] for its own use and
    cannot hold them; the set of reduced dimensions (lines 151-154) is
    embedded for dimension lists without these two values. *)
Definition INT_MAX : Z := (2 ^ 31 - 1)%Z.
Definition INT_MIN : Z := (- 2 ^ 31)%Z.

Definition no_reserved_key (dimensions : list Z) : bool :=
  forallb (fun rdim =>
             negb (to_int rdim =? INT_MAX)%Z && negb (to_int rdim =? INT_MIN)%Z)
          dimensions.

(** The output buffer of the windowed example. *)
Definition example_window_out : Value := mkValue 2 (MemRefTy [56; 56]%Z f32).

(** The two arguments of a [loop.reduce] block on [f32]. *)
Definition example_reduce_handle : ReduceOpHandle :=
  mkReduceHandle 0 [mkValue 20 f32; mkValue 21 f32].

(** The windowed reduction with other [window_strides] and [padding]. *)
Definition with_window_attributes (op : XlaReduceWindowOp)
    (window_strides : list Z) (padding : list (Z * Z)) : XlaReduceWindowOp :=
  mkReduceWindow (rw_id op) (rw_operand op) (rw_init_value op) (rw_out op)
    (rw_window_dimensions op) (Some window_strides) (Some padding)
    (rw_base_dilations op) (rw_window_dilations op) (rw_body op).

(** * Proofs *)

(** ** Running the monad *)

#[local] Arguments insert_at : simpl never.
#[local] Arguments splice : simpl never.
#[local] Arguments values_from : simpl never.

Lemma bind_Ok {A B} (m : M A) (k : A -> M B) s a s1 :
  m s = Ok a s1 -> bind m k s = k a s1.
Proof. intros H. unfold bind. now rewrite H. Qed.

Lemma bind_Undefined {A B} (m : M A) (k : A -> M B) s s1 :
  m s = Undefined s1 -> bind m k s = Undefined s1.
Proof. intros H. unfold bind. now rewrite H. Qed.

Lemma deref_Some {A} (o : option A) a s : o = Some a -> deref o s = Ok a s.
Proof. now intros ->. Qed.

(** ** Splicing operations into blocks *)

Lemma splice_splice p a c blk :
  splice (p + length a) c (splice p a blk) = splice p (a ++ c) blk.
Proof.
  unfold splice. cbn [b_args b_ops]. f_equal.
  destruct (Nat.le_gt_cases p (length (b_ops blk))) as [Hle | Hgt].
  - assert (Hp : length (take p (b_ops blk)) = p)
      by (rewrite length_take; lia).
    rewrite <- Hp at 1 4.
    rewrite take_app_add, drop_app_add.
    rewrite take_app_length, drop_app_length.
    now rewrite <- !app_assoc.
  - rewrite (take_ge (b_ops blk) p), (drop_ge (b_ops blk) p) by lia.
    rewrite app_nil_r.
    rewrite take_ge, drop_ge by (rewrite length_app; lia).
    now rewrite !app_nil_r, <- !app_assoc.
Qed.

Lemma insert_at_insert_at b p a c blks :
  insert_at b (p + length a) c (insert_at b p a blks)
  = insert_at b p (a ++ c) blks.
Proof.
  unfold insert_at. rewrite list_alter_alter_eq.
  apply list_alter_ext; [ | reflexivity ].
  intros blk _. apply splice_splice.
Qed.

Lemma length_insert_at b p ops blks :
  length (insert_at b p ops blks) = length blks.
Proof. apply length_alter. Qed.

Lemma insert_at_app_l b p ops l1 l2 :
  b < length l1 ->
  insert_at b p ops (l1 ++ l2) = insert_at b p ops l1 ++ l2.
Proof. intros. now apply alter_app_l. Qed.

Lemma insert_at_app_r i p ops l1 l2 :
  insert_at (length l1 + i) p ops (l1 ++ l2) = l1 ++ insert_at i p ops l2.
Proof. apply alter_app_r. Qed.

Lemma insert_at_nil b p blks : insert_at b p [] blks = blks.
Proof.
  unfold insert_at. apply list_alter_id.
  intros [args ops]. unfold splice. cbn. now rewrite take_drop.
Qed.

Lemma emit_ops_emit_ops k1 k2 o1 o2 s :
  emit_ops k2 o2 (emit_ops k1 o1 s) = emit_ops (k1 + k2) (o1 ++ o2) s.
Proof.
  unfold emit_ops. cbn [next_value blocks ip_block ip_pos diags replaced].
  rewrite insert_at_insert_at, length_app. f_equal; lia.
Qed.

Lemma emit_ops_nil s : emit_ops 0 [] s = s.
Proof.
  destruct s. unfold emit_ops. cbn. rewrite insert_at_nil.
  f_equal; lia.
Qed.

(** ** Projections of the state transformers *)

Lemma next_value_emit_ops k o s :
  next_value (emit_ops k o s) = next_value s + k.
Proof. reflexivity. Qed.
Lemma blocks_emit_ops k o s :
  blocks (emit_ops k o s) = insert_at (ip_block s) (ip_pos s) o (blocks s).
Proof. reflexivity. Qed.
Lemma ip_block_emit_ops k o s : ip_block (emit_ops k o s) = ip_block s.
Proof. reflexivity. Qed.
Lemma ip_pos_emit_ops k o s : ip_pos (emit_ops k o s) = ip_pos s + length o.
Proof. reflexivity. Qed.
Lemma diags_emit_ops k o s : diags (emit_ops k o s) = diags s.
Proof. reflexivity. Qed.
Lemma replaced_emit_ops k o s : replaced (emit_ops k o s) = replaced s.
Proof. reflexivity. Qed.

Lemma next_value_at_start b s : next_value (at_start b s) = next_value s.
Proof. reflexivity. Qed.
Lemma blocks_at_start b s : blocks (at_start b s) = blocks s.
Proof. reflexivity. Qed.
Lemma ip_block_at_start b s : ip_block (at_start b s) = b.
Proof. reflexivity. Qed.
Lemma ip_pos_at_start b s : ip_pos (at_start b s) = 0.
Proof. reflexivity. Qed.
Lemma diags_at_start b s : diags (at_start b s) = diags s.
Proof. reflexivity. Qed.
Lemma replaced_at_start b s : replaced (at_start b s) = replaced s.
Proof. reflexivity. Qed.

Lemma next_value_add_block blk s : next_value (add_block blk s) = next_value s.
Proof. reflexivity. Qed.
Lemma blocks_add_block blk s : blocks (add_block blk s) = blocks s ++ [blk].
Proof. reflexivity. Qed.
Lemma ip_block_add_block blk s : ip_block (add_block blk s) = ip_block s.
Proof. reflexivity. Qed.
Lemma ip_pos_add_block blk s : ip_pos (add_block blk s) = ip_pos s.
Proof. reflexivity. Qed.
Lemma diags_add_block blk s : diags (add_block blk s) = diags s.
Proof. reflexivity. Qed.
Lemma replaced_add_block blk s : replaced (add_block blk s) = replaced s.
Proof. reflexivity. Qed.

Create Rewrite HintDb rewriter_state.
#[local] Hint Rewrite
  next_value_emit_ops blocks_emit_ops ip_block_emit_ops ip_pos_emit_ops
  diags_emit_ops replaced_emit_ops
  next_value_at_start blocks_at_start ip_block_at_start ip_pos_at_start
  diags_at_start replaced_at_start
  next_value_add_block blocks_add_block ip_block_add_block ip_pos_add_block
  diags_add_block replaced_add_block : rewriter_state.

#[local] Opaque emit_ops at_start add_block.

(** ** What each [create] does *)

Lemma setInsertionPointToStart_run b s :
  setInsertionPointToStart b s = Ok tt (at_start b s).
Proof. reflexivity. Qed.

Lemma create_ConstantIndexOp_run c s :
  create_ConstantIndexOp c s
  = Ok (mkValue (next_value s) IndexTy)
       (emit_ops 1 [ConstantIndexOp (mkValue (next_value s) IndexTy) c] s).
Proof. reflexivity. Qed.

Lemma create_ConstantOp_run ty c s :
  create_ConstantOp ty c s
  = Ok (mkValue (next_value s) ty) (emit_ops 1 [ConstantOp (mkValue (next_value s) ty) c] s).
Proof. reflexivity. Qed.

Lemma create_DimOp_run memref i s :
  create_DimOp memref i s
  = Ok (mkValue (next_value s) IndexTy)
       (emit_ops 1 [DimOp (mkValue (next_value s) IndexTy) memref i] s).
Proof. reflexivity. Qed.

Lemma create_AllocOp_run ty s :
  create_AllocOp ty s
  = Ok (mkValue (next_value s) ty) (emit_ops 1 [AllocOp (mkValue (next_value s) ty)] s).
Proof. reflexivity. Qed.

Lemma create_LoadOp_run memref indices elem_ty s :
  getElementType (v_ty memref) = Some elem_ty ->
  create_LoadOp memref indices s
  = Ok (mkValue (next_value s) elem_ty)
       (emit_ops 1 [LoadOp (mkValue (next_value s) elem_ty) memref indices] s).
Proof. intros H. unfold create_LoadOp, bind, deref. now rewrite H. Qed.

Lemma create_StoreOp_run val memref indices s :
  create_StoreOp val memref indices s
  = Ok tt (emit_ops 0 [StoreOp val memref indices] s).
Proof.
  Transparent emit_ops. unfold create_StoreOp, insert_op, emit_ops.
  now rewrite Nat.add_0_r. Opaque emit_ops.
Qed.

Lemma create_ReduceReturnOp_run val s :
  create_ReduceReturnOp val s = Ok tt (emit_ops 0 [ReduceReturnOp val] s).
Proof.
  Transparent emit_ops. unfold create_ReduceReturnOp, insert_op, emit_ops.
  now rewrite Nat.add_0_r. Opaque emit_ops.
Qed.

Lemma create_MulIOp_run lhs rhs s :
  create_MulIOp lhs rhs s
  = Ok (mkValue (next_value s) (v_ty lhs))
       (emit_ops 1 [MulIOp (mkValue (next_value s) (v_ty lhs)) lhs rhs] s).
Proof. reflexivity. Qed.

Lemma create_SubIOp_run lhs rhs s :
  create_SubIOp lhs rhs s
  = Ok (mkValue (next_value s) (v_ty lhs))
       (emit_ops 1 [SubIOp (mkValue (next_value s) (v_ty lhs)) lhs rhs] s).
Proof. reflexivity. Qed.

Lemma create_AddIOp_run lhs rhs s :
  create_AddIOp lhs rhs s
  = Ok (mkValue (next_value s) (v_ty lhs))
       (emit_ops 1 [AddIOp (mkValue (next_value s) (v_ty lhs)) lhs rhs] s).
Proof. reflexivity. Qed.

Lemma create_CmpIOp_run pred lhs rhs s :
  create_CmpIOp pred lhs rhs s
  = Ok (mkValue (next_value s) I1Ty)
       (emit_ops 1 [CmpIOp (mkValue (next_value s) I1Ty) pred lhs rhs] s).
Proof. reflexivity. Qed.

Lemma create_AndOp_run lhs rhs s :
  create_AndOp lhs rhs s
  = Ok (mkValue (next_value s) (v_ty lhs))
       (emit_ops 1 [AndOp (mkValue (next_value s) (v_ty lhs)) lhs rhs] s).
Proof. reflexivity. Qed.

Lemma create_ParallelOp_run lo up st inits s :
  let ivs := values_from (next_value s) (map (fun _ => IndexTy) st) in
  let results := values_from (next_value s + length st) (map v_ty inits) in
  let body := length (blocks s) in
  create_ParallelOp lo up st inits s
  = Ok (mkParallel body ivs st inits results)
       (emit_ops (length st + length inits)
          [ParallelOp results lo up st inits body]
          (add_block (mkBlock ivs [YieldOp []]) s)).
Proof.
  Transparent emit_ops add_block.
  unfold create_ParallelOp, bind, fresh_values, new_block, insert_op, ret,
    emit_ops, add_block.
  cbn [next_value blocks ip_block ip_pos diags replaced length].
  rewrite !length_map. cbn zeta. do 2 f_equal. lia.
  Opaque emit_ops add_block.
Qed.

Lemma create_ReduceOp_run operand s :
  let args := values_from (next_value s) [v_ty operand; v_ty operand] in
  let body := length (blocks s) in
  create_ReduceOp operand s
  = Ok (mkReduceHandle body args)
       (emit_ops 2 [ReduceOp operand body] (add_block (mkBlock args []) s)).
Proof. reflexivity. Qed.

Lemma GetStaticOrDynamicDim_run shaped_value i dim s :
  let res := mkValue (next_value s) IndexTy in
  GetStaticOrDynamicDim shaped_value i dim s
  = Ok res
       (emit_ops 1
          [if (dim =? kDynamicSize)%Z then DimOp res shaped_value i
           else ConstantIndexOp res dim] s).
Proof. unfold GetStaticOrDynamicDim. now destruct (dim =? kDynamicSize)%Z. Qed.

(** One step of a run: the head of a [do] sequence is replaced by what the
    given equation says it does. *)
Ltac step_with L :=
  erewrite bind_Ok by (apply L; eauto);
  cbv beta zeta; autorewrite with rewriter_state.
Ltac step_deref :=
  erewrite bind_Ok by (apply deref_Some; eauto; reflexivity);
  cbv beta zeta.
(** Equality of two terms that differ only in how numbers are written. *)
Ltac struct_eq :=
  repeat match goal with
         | |- @eq nat _ _ => lia
         | |- @eq Z _ _ => lia
         | |- @eq _ _ _ => first [ reflexivity | progress f_equal ]
         end.
Ltac norm_nat := rewrite ?Nat.add_0_r, <- ?Nat.add_assoc; cbn [Nat.add].
Tactic Notation "step_deref" "by" tactic(t) :=
  erewrite bind_Ok by (apply deref_Some; t; eauto; reflexivity);
  cbv beta zeta.

(** ** The reduction-body transplanter *)

Lemma map_values_union (from to : list Value) (m : Mapping) :
  map_values m from to = map_values ∅ from to ∪ m.
Proof.
  revert to m. induction from as [ | f from IH ]; intros to m.
  - cbn. now rewrite (left_id_L ∅ (∪)).
  - destruct to as [ | t to ]; cbn.
    + now rewrite (left_id_L ∅ (∪)).
    + unfold map_value. rewrite IH. rewrite (IH to (<[v_id f:=t]> ∅)).
      rewrite insert_empty, <- (assoc_L (∪)).
      now rewrite <- insert_union_singleton_l.
Qed.

Lemma map_values_idemp (from to : list Value) (m : Mapping) :
  map_values (map_values m from to) from to = map_values m from to.
Proof.
  rewrite (map_values_union from to (map_values m from to)).
  rewrite (map_values_union from to m).
  now rewrite (assoc_L (∪)), (idemp_L (∪)).
Qed.

Lemma clone_body_run ops : forall m s,
  exists m',
    clone_body ops m s
    = Ok m' (emit_ops (results_count ops) (cloned_ops (next_value s) m ops) s).
Proof.
  induction ops as [ | nested rest IH ]; intros m s.
  - exists m. cbn. now rewrite emit_ops_nil.
  - cbn [clone_body cloned_ops results_count].
    set (results := values_from (next_value s) (map v_ty (lo_results nested))).
    assert (Hclone : clone nested m s
      = Ok (results, map_values m (lo_results nested) results)
           (emit_ops (length (lo_results nested))
              [LhloOp (lo_name nested)
                 (map (lookupOrDefault m) (lo_operands nested)) results] s)).
    { Transparent emit_ops.
      unfold clone, bind, fresh_values, insert_op, ret, emit_ops.
      cbn [next_value blocks ip_block ip_pos diags replaced length].
      now rewrite length_map.
      Opaque emit_ops. }
    rewrite (bind_Ok _ _ _ _ _ Hclone). cbv beta iota.
    rewrite map_values_idemp.
    destruct (IH (map_values m (lo_results nested) results)
                (emit_ops (length (lo_results nested))
                   [LhloOp (lo_name nested)
                      (map (lookupOrDefault m) (lo_operands nested)) results] s))
      as [m' Hm'].
    exists m'. rewrite Hm'. rewrite emit_ops_emit_ops.
    now autorewrite with rewriter_state.
Qed.

Lemma length_cloned_ops ops : forall n m,
  length (cloned_ops n m ops) = length ops.
Proof. induction ops; intros; cbn; [ reflexivity | now rewrite IHops ]. Qed.

(** The cells the three parameters of the source body are remapped onto. *)
Lemma body_mapping_lookup e_arg a_in r_out elem_buf acc_buf :
  NoDup [v_id e_arg; v_id a_in; v_id r_out] ->
  let mapping := map_values ∅ [e_arg; a_in; r_out] [elem_buf; acc_buf; acc_buf] in
  lookupOrDefault mapping e_arg = elem_buf
  /\ lookupOrDefault mapping a_in = acc_buf
  /\ lookupOrDefault mapping r_out = acc_buf.
Proof.
  intros Hnd. cbn. unfold lookupOrDefault, map_value.
  apply NoDup_cons in Hnd as [He Hnd].
  apply NoDup_cons in Hnd as [Ha _].
  rewrite !not_elem_of_cons in He. rewrite !not_elem_of_cons in Ha.
  destruct He as (He1 & He2 & _). destruct Ha as (Ha1 & _).
  repeat split.
  - rewrite lookup_insert_ne, lookup_insert_ne, lookup_insert_eq by congruence.
    reflexivity.
  - rewrite lookup_insert_ne, lookup_insert_eq by congruence. reflexivity.
  - now rewrite lookup_insert_eq.
Qed.

Lemma ConvertToReductionOperator_run reduce_op lhlo_block s
    elem acc e_arg a_in more_args elem_ty :
  red_args reduce_op = [elem; acc] ->
  lb_args lhlo_block = e_arg :: a_in :: more_args ->
  cast_MemRefType (v_ty e_arg) = Some (v_ty e_arg) ->
  cast_MemRefType (v_ty a_in) = Some (v_ty a_in) ->
  getElementType (v_ty a_in) = Some elem_ty ->
  let n := next_value s in
  let elem_buf := mkValue n (v_ty e_arg) in
  let acc_buf := mkValue (n + 1) (v_ty a_in) in
  let mapping := map_values ∅ (lb_args lhlo_block) [elem_buf; acc_buf; acc_buf] in
  let body := without_terminator (lb_ops lhlo_block) in
  let acc_result := mkValue (n + 2 + results_count body) elem_ty in
  ConvertToReductionOperator reduce_op lhlo_block s
  = Ok tt
      (emit_ops (2 + results_count body + 1)
         ([AllocOp elem_buf; StoreOp elem elem_buf [];
           AllocOp acc_buf; StoreOp acc acc_buf []]
          ++ cloned_ops (n + 2) mapping body
          ++ [LoadOp acc_result acc_buf []; ReduceReturnOp acc_result])
         (at_start (red_body reduce_op) s)).
Proof.
  intros Hargs Hlb He Ha Hel n elem_buf acc_buf mapping body acc_result.
  unfold ConvertToReductionOperator.
  step_with setInsertionPointToStart_run.
  step_deref by (rewrite Hlb). step_deref. step_with create_AllocOp_run.
  step_deref by (rewrite Hargs). step_with create_StoreOp_run.
  step_deref by (rewrite Hlb). step_deref. step_with create_AllocOp_run.
  step_deref by (rewrite Hargs). step_with create_StoreOp_run.
  rewrite !emit_ops_emit_ops. cbn [app Nat.add].
  match goal with
  | |- bind (clone_body ?ops ?m) _ ?st = _ =>
      destruct (clone_body_run ops m st) as [m' Hm']
  end.
  rewrite (bind_Ok _ _ _ _ _ Hm'). cbv beta.
  autorewrite with rewriter_state.
  step_with create_LoadOp_run.
  rewrite create_ReduceReturnOp_run.
  rewrite !emit_ops_emit_ops.
  subst n elem_buf acc_buf mapping body acc_result.
  rewrite ?Nat.add_0_r, <- ?Nat.add_assoc. cbn [Nat.add app].
  rewrite <- ?app_assoc. cbn [app].
  do 2 f_equal; lia.
Qed.

(** ** The dimension partitioner *)

Lemma app_bounds_assoc b1 b2 b3 :
  app_bounds (app_bounds b1 b2) b3 = app_bounds b1 (app_bounds b2 b3).
Proof. unfold app_bounds. cbn. now rewrite <- !app_assoc. Qed.

Lemma app_bounds_nil_r b : app_bounds b (axes_bounds 0 []) = b.
Proof. destruct b. unfold app_bounds. cbn. now rewrite !app_nil_r. Qed.

Lemma app_bounds_nil_l b : app_bounds no_bounds b = b.
Proof. now destruct b. Qed.

Lemma partition_dims_from operand rd shape : forall a parallel reduce s n,
  next_value s = n + 3 * a ->
  partition_dims operand rd a shape parallel reduce s
  = Ok (app_bounds parallel (axes_bounds n (kept_axes rd a (length shape))),
        app_bounds reduce (axes_bounds n (reduced_axes rd a (length shape))))
       (emit_ops (3 * length shape)
          (concat (imap (fun j => axis_ops operand n (a + j)) shape)) s).
Proof.
  induction shape as [ | dim rest IH ]; intros a parallel reduce s n Hn.
  - cbn. rewrite emit_ops_nil. unfold ret.
    now rewrite !(app_bounds_nil_r).
  - cbn [partition_dims].
    step_with GetStaticOrDynamicDim_run.
    step_with create_ConstantIndexOp_run.
    step_with create_ConstantIndexOp_run.
    rewrite !emit_ops_emit_ops. cbn [app Nat.add].
    rewrite Hn.
    rewrite imap_cons. cbn [concat length].
    assert (Himap : imap ((fun j => axis_ops operand n (a + j)) ∘ S) rest
                    = imap (fun j => axis_ops operand n (S a + j)) rest).
    { apply imap_ext. intros j x _. cbn. f_equal. lia. }
    rewrite Himap.
    assert (Hops :
      [if (dim =? kDynamicSize)%Z
       then DimOp (mkValue (n + 3 * a) IndexTy) operand a
       else ConstantIndexOp (mkValue (n + 3 * a) IndexTy) dim;
       ConstantIndexOp (mkValue (n + 3 * a + 1) IndexTy) 0;
       ConstantIndexOp (mkValue (n + 3 * a + 1 + 1) IndexTy) 1]
      = axis_ops operand n (a + 0) dim).
    { unfold axis_ops, bound_op, axis_ub, axis_lb, axis_step.
      now norm_nat. }
    rewrite Hops.
    assert (Hpush : forall b,
      push_back b (mkValue (n + 3 * a + 1) IndexTy)
        (mkValue (n + 3 * a) IndexTy) (mkValue (n + 3 * a + 1 + 1) IndexTy)
      = app_bounds b (axes_bounds n [a])).
    { intros b. unfold push_back, app_bounds, axes_bounds, axis_ub, axis_lb,
        axis_step. cbn [lower upper step map]. now norm_nat. }
    rewrite !Hpush.
    unfold kept_axes, reduced_axes. cbn [seq List.filter].
    destruct (count rd a); cbn [negb].
    + rewrite (IH (S a) _ _ _ n)
        by (autorewrite with rewriter_state; lia).
      rewrite emit_ops_emit_ops, app_bounds_assoc.
      do 2 f_equal; lia.
    + rewrite (IH (S a) _ _ _ n)
        by (autorewrite with rewriter_state; lia).
      rewrite emit_ops_emit_ops, app_bounds_assoc.
      do 2 f_equal; lia.
Qed.

Lemma partition_dims_run operand rd shape s :
  let n := next_value s in
  let rank := length shape in
  partition_dims operand rd 0 shape no_bounds no_bounds s
  = Ok (axes_bounds n (kept_axes rd 0 rank),
        axes_bounds n (reduced_axes rd 0 rank))
       (emit_ops (3 * rank) (partition_ops operand n shape) s).
Proof.
  intros n rank.
  rewrite (partition_dims_from operand rd shape 0 _ _ s n) by (subst n; lia).
  now rewrite !app_bounds_nil_l.
Qed.

(** ** The loops of the windowed converter *)

Lemma values_from_index m (l : list Value) :
  values_from m (map (fun _ => IndexTy) l) = index_values m (length l).
Proof.
  unfold values_from, index_values. revert m.
  induction l as [ | x l IH ]; intros m; [ reflexivity | ].
  cbn [map length seq]. rewrite imap_cons. f_equal.
  - now rewrite Nat.add_0_r.
  - rewrite <- IH. apply imap_ext. intros j y _. cbn. f_equal. lia.
Qed.

Lemma length_index_values m k : length (index_values m k) = k.
Proof. unfold index_values. now rewrite length_map, length_seq. Qed.

Lemma index_values_lookup m k j :
  j < k -> index_values m k !! j = Some (mkValue (m + j) IndexTy).
Proof.
  intros Hj. unfold index_values. rewrite list_lookup_fmap.
  now rewrite lookup_seq_lt.
Qed.

Lemma nth_index_values m k j d :
  j < k -> nth j (index_values m k) d = mkValue (m + j) IndexTy.
Proof.
  intros Hj. rewrite nth_lookup, index_values_lookup by assumption.
  reflexivity.
Qed.

Lemma output_bounds_from xla_output zero one shape : forall a parallel s m,
  next_value s = m ->
  output_bounds xla_output zero one a shape parallel s
  = Ok (app_bounds parallel
          (mkBounds (map (fun _ => zero) shape)
                    (index_values m (length shape))
                    (map (fun _ => one) shape)))
       (emit_ops (length shape) (output_bound_ops xla_output m a shape) s).
Proof.
  induction shape as [ | dim rest IH ]; intros a parallel s m Hm.
  - cbn. rewrite emit_ops_nil. unfold ret, app_bounds. cbn.
    rewrite !app_nil_r. now destruct parallel.
  - cbn [output_bounds].
    step_with GetStaticOrDynamicDim_run. rewrite Hm.
    rewrite (IH (S a) _ _ (m + 1)) by (autorewrite with rewriter_state; lia).
    rewrite emit_ops_emit_ops.
    unfold output_bound_ops. rewrite imap_cons.
    cbn [length map]. unfold index_values. cbn [seq map]. fold (index_values (S m) (length rest)).
    unfold push_back, app_bounds. cbn [lower upper step].
    rewrite <- !app_assoc. cbn [app].
    replace (m + 1) with (S m) by lia.
    f_equal. f_equal. unfold bound_op at 2. rewrite !Nat.add_0_r.
    cbn [app]. f_equal.
    apply imap_ext. intros j x _. cbn.
    replace (m + S j) with (S m + j) by lia.
    replace (a + S j) with (S a + j) by lia. reflexivity.
Qed.

Lemma window_bounds_from zero one window_dimensions : forall window s m,
  next_value s = m ->
  window_bounds zero one window_dimensions window s
  = Ok (app_bounds window
          (mkBounds (map (fun _ => zero) window_dimensions)
                    (index_values m (length window_dimensions))
                    (map (fun _ => one) window_dimensions)))
       (emit_ops (length window_dimensions)
          (window_bound_ops m window_dimensions) s).
Proof.
  induction window_dimensions as [ | dim rest IH ]; intros window s m Hm.
  - cbn. rewrite emit_ops_nil. unfold ret, app_bounds. cbn.
    rewrite !app_nil_r. now destruct window.
  - cbn [window_bounds].
    step_with create_ConstantIndexOp_run. rewrite Hm.
    rewrite (IH _ _ (m + 1)) by (autorewrite with rewriter_state; lia).
    rewrite emit_ops_emit_ops.
    unfold window_bound_ops. rewrite imap_cons.
    cbn [length map]. unfold index_values. cbn [seq map]. fold (index_values (S m) (length rest)).
    unfold push_back, app_bounds. cbn [lower upper step].
    rewrite <- !app_assoc. cbn [app].
    replace (m + 1) with (S m) by lia.
    f_equal. f_equal. rewrite !Nat.add_0_r.
    cbn [app]. f_equal.
    apply imap_ext. intros j x _. cbn.
    replace (m + S j) with (S m + j) by lia. reflexivity.
Qed.

Lemma final_in_bounds_step b n in_bounds :
  final_in_bounds (b + 8) n (mkValue (b + 7) (v_ty in_bounds))
  = final_in_bounds b (S n) in_bounds.
Proof.
  destruct n as [ | n ]; cbn [final_in_bounds v_ty].
  - f_equal. lia.
  - f_equal. lia.
Qed.

Lemma operand_index_loop_run xla_operand shape output_ivs window_ivs
    window_strides padding :
  forall n i operand_indices in_bounds s b,
  next_value s = b ->
  i + n <= length window_strides ->
  i + n <= length padding ->
  i + n <= length output_ivs ->
  i + n <= length window_ivs ->
  i + n <= length shape ->
  operand_index_loop xla_operand shape output_ivs window_ivs window_strides
    padding i n operand_indices in_bounds s
  = Ok (operand_indices ++ map (operand_index output_ivs b i) (seq i n),
        final_in_bounds b n in_bounds)
       (emit_ops (8 * n)
          (index_ops xla_operand shape output_ivs window_ivs window_strides
             padding b i n in_bounds) s).
Proof.
  induction n as [ | n IH ];
    intros i operand_indices in_bounds s b Hb Hs Hp Ho Hw Hsh.
  - cbn. rewrite emit_ops_nil, app_nil_r. reflexivity.
  - cbn [operand_index_loop].
    assert (Hlk : forall A (l : list A) d, i + S n <= length l ->
                    l !! i = Some (nth i l d)).
    { intros A l d Hl. rewrite nth_lookup.
      destruct (lookup_lt_is_Some_2 l i) as [x Hx]; [ lia | ].
      now rewrite Hx. }
    step_deref by (apply (Hlk _ _ 0%Z Hs)).
    step_deref by (apply (Hlk _ _ (0%Z, 0%Z) Hp)).
    step_with create_ConstantIndexOp_run.
    step_with create_ConstantIndexOp_run.
    step_deref by (apply (Hlk _ _ no_value Ho)).
    step_with create_MulIOp_run.
    step_deref by (apply (Hlk _ _ no_value Hw)).
    step_with create_SubIOp_run.
    step_with create_AddIOp_run.
    step_deref by (apply (Hlk _ _ 0%Z Hsh)).
    step_with GetStaticOrDynamicDim_run.
    step_with create_CmpIOp_run.
    step_with create_AndOp_run.
    rewrite !emit_ops_emit_ops. cbn [app Nat.add].
    rewrite (IH (S i) _ _ _ (b + 8))
      by (autorewrite with rewriter_state; lia).
    rewrite emit_ops_emit_ops.
    rewrite Hb. norm_nat.
    rewrite <- final_in_bounds_step.
    cbn [index_ops seq map]. rewrite <- app_assoc. cbn [app].
    unfold index_axis_ops, bound_op. cbn [v_ty]. norm_nat.
    f_equal.
    + f_equal. f_equal. f_equal.
      * unfold operand_index. rewrite Nat.sub_diag. now norm_nat.
      * apply map_ext_in. intros j Hj. apply in_seq in Hj.
        unfold operand_index. f_equal. lia.
    + f_equal. lia.
Qed.

(** ** Normal forms of block stores *)

Lemma next_value_append_to b o s : next_value (append_to b o s) = next_value s.
Proof. reflexivity. Qed.
Lemma blocks_append_to b o s :
  blocks (append_to b o s) = append_at b o (blocks s).
Proof. reflexivity. Qed.
Lemma ip_block_append_to b o s : ip_block (append_to b o s) = ip_block s.
Proof. reflexivity. Qed.
Lemma ip_pos_append_to b o s : ip_pos (append_to b o s) = ip_pos s.
Proof. reflexivity. Qed.
Lemma diags_append_to b o s : diags (append_to b o s) = diags s.
Proof. reflexivity. Qed.
Lemma replaced_append_to b o s : replaced (append_to b o s) = replaced s.
Proof. reflexivity. Qed.

Lemma next_value_emit_diags ds s : next_value (emit_diags ds s) = next_value s.
Proof. reflexivity. Qed.
Lemma blocks_emit_diags ds s : blocks (emit_diags ds s) = blocks s.
Proof. reflexivity. Qed.
Lemma ip_block_emit_diags ds s : ip_block (emit_diags ds s) = ip_block s.
Proof. reflexivity. Qed.
Lemma ip_pos_emit_diags ds s : ip_pos (emit_diags ds s) = ip_pos s.
Proof. reflexivity. Qed.
Lemma diags_emit_diags ds s : diags (emit_diags ds s) = diags s ++ ds.
Proof. reflexivity. Qed.
Lemma replaced_emit_diags ds s : replaced (emit_diags ds s) = replaced s.
Proof. reflexivity. Qed.

#[local] Hint Rewrite
  next_value_append_to blocks_append_to ip_block_append_to ip_pos_append_to
  diags_append_to replaced_append_to
  next_value_emit_diags blocks_emit_diags ip_block_emit_diags
  ip_pos_emit_diags diags_emit_diags replaced_emit_diags : rewriter_state.

#[local] Opaque append_to emit_diags.
#[local] Arguments append_at : simpl never.
#[local] Arguments append_ops : simpl never.

Lemma length_append_at b ops blks : length (append_at b ops blks) = length blks.
Proof. apply length_alter. Qed.

Lemma length_output_bound_ops out m a shape :
  length (output_bound_ops out m a shape) = length shape.
Proof. apply length_imap. Qed.

Lemma length_window_bound_ops m wdims :
  length (window_bound_ops m wdims) = length wdims.
Proof. apply length_imap. Qed.

Lemma length_index_ops operand shape oivs wivs strides padding :
  forall n b i in_bounds,
  length (index_ops operand shape oivs wivs strides padding b i n in_bounds)
  = 8 * n.
Proof.
  induction n as [ | n IH ]; intros b i in_bounds; [ reflexivity | ].
  cbn [index_ops]. rewrite length_app, IH. cbn [index_axis_ops length]. lia.
Qed.

Lemma length_partition_ops operand n shape :
  length (partition_ops operand n shape) = 3 * length shape.
Proof.
  unfold partition_ops.
  assert (H : forall j d, length (axis_ops operand n j d) = 3)
    by reflexivity.
  revert H. generalize (axis_ops operand n).
  induction shape as [ | dim rest IH ]; intros f Hf; [ reflexivity | ].
  rewrite imap_cons. cbn [concat length]. rewrite length_app, Hf, IH.
  - lia.
  - intros j d. apply Hf.
Qed.

Create Rewrite HintDb block_len.
#[local] Hint Rewrite length_insert_at length_append_at @length_app
  length_index_values @length_map length_output_bound_ops
  length_window_bound_ops length_index_ops length_partition_ops : block_len.

Ltac solve_len :=
  repeat (progress (cbn [length]; autorewrite with rewriter_state block_len));
  lia.

Lemma state_eq s nv blks b p d r :
  next_value s = nv -> blocks s = blks -> ip_block s = b -> ip_pos s = p ->
  diags s = d -> replaced s = r ->
  s = mkState nv blks b p d r.
Proof. destruct s; cbn; intros; subst; reflexivity. Qed.

Lemma insert_at_merge b p1 p2 a c blks :
  p2 = p1 + length a ->
  insert_at b p2 c (insert_at b p1 a blks) = insert_at b p1 (a ++ c) blks.
Proof. intros ->. apply insert_at_insert_at. Qed.

Lemma insert_at_snoc_lt b p ops X blk :
  b < length X -> insert_at b p ops (X ++ [blk]) = insert_at b p ops X ++ [blk].
Proof. apply insert_at_app_l. Qed.

Lemma insert_at_snoc_eq b p ops X blk :
  b = length X -> insert_at b p ops (X ++ [blk]) = X ++ [splice p ops blk].
Proof.
  intros ->. rewrite <- (Nat.add_0_r (length X)). now rewrite insert_at_app_r.
Qed.

Lemma append_at_snoc_lt b ops X blk :
  b < length X -> append_at b ops (X ++ [blk]) = append_at b ops X ++ [blk].
Proof. intros. now apply alter_app_l. Qed.

Lemma append_at_snoc_eq b ops X blk :
  b = length X -> append_at b ops (X ++ [blk]) = X ++ [append_ops ops blk].
Proof.
  intros ->. unfold append_at.
  rewrite <- (Nat.add_0_r (length X)). now rewrite alter_app_r.
Qed.

Lemma splice_merge p1 p2 a c blk :
  p2 = p1 + length a -> splice p2 c (splice p1 a blk) = splice p1 (a ++ c) blk.
Proof. intros ->. apply splice_splice. Qed.

Lemma splice_start ops args init :
  splice 0 ops (mkBlock args init) = mkBlock args (ops ++ init).
Proof. reflexivity. Qed.

Lemma append_ops_block ops args init :
  append_ops ops (mkBlock args init) = mkBlock args (init ++ ops).
Proof. reflexivity. Qed.

Lemma splice_end p ops args init :
  p = length init ->
  splice p ops (mkBlock args init) = mkBlock args (init ++ ops).
Proof.
  intros ->. unfold splice. cbn [b_args b_ops].
  now rewrite take_ge, drop_ge, app_nil_r by lia.
Qed.

Lemma splice_before_last p ops args init last :
  p = length init ->
  splice p ops (mkBlock args (init ++ [last]))
  = mkBlock args (init ++ ops ++ [last]).
Proof.
  intros ->. unfold splice. cbn [b_args b_ops].
  now rewrite take_app_length, drop_app_length.
Qed.

Lemma app_two_snoc {A} (X : list A) a b T :
  X ++ a :: b :: T = (X ++ [a]) ++ b :: T.
Proof. now rewrite <- app_assoc. Qed.

(** Every insertion is pushed down to the block it modifies. *)
Lemma append_ops_merge a c blk :
  append_ops c (append_ops a blk) = append_ops (a ++ c) blk.
Proof. unfold append_ops. cbn. now rewrite <- app_assoc. Qed.

Ltac norm_blocks :=
  repeat first
    [ rewrite insert_at_merge by solve_len
    | rewrite splice_merge by solve_len
    | rewrite append_ops_merge
    | rewrite insert_at_snoc_eq by solve_len
    | rewrite insert_at_snoc_lt by solve_len
    | rewrite append_at_snoc_eq by solve_len
    | rewrite append_at_snoc_lt by solve_len ];
  rewrite ?splice_start, ?append_ops_block.

Lemma check_attributes_run op s :
  check_attributes op s = Ok tt (emit_diags (attribute_diagnostics op) s).
Proof.
  Transparent emit_diags.
  unfold check_attributes, attribute_diagnostics, bind, emit, ret, emit_diags.
  destruct (hasValue (rw_window_strides op)), (hasValue (rw_padding op)),
    (hasValue (rw_base_dilations op) || hasValue (rw_window_dilations op));
    cbn [negb next_value blocks ip_block ip_pos diags replaced app];
    rewrite <- ?app_assoc, ?app_nil_r; cbn [app]; try reflexivity;
    now destruct s.
  Opaque emit_diags.
Qed.

Lemma create_IfOp_run result_ty cond s :
  let results := [mkValue (next_value s) result_ty] in
  let then_block := length (blocks s) in
  let else_block := length (blocks s) + 1 in
  create_IfOp result_ty cond s
  = Ok (mkIf then_block else_block results)
       (emit_ops 1 [IfOp results cond then_block else_block]
          (add_block (mkBlock [] []) (add_block (mkBlock [] []) s))).
Proof.
  Transparent emit_ops add_block.
  unfold create_IfOp, bind, fresh_values, new_block, insert_op, ret,
    emit_ops, add_block, values_from.
  cbn [next_value blocks ip_block ip_pos diags replaced length imap].
  rewrite length_app. cbn [length]. rewrite Nat.add_0_r. reflexivity.
  Opaque emit_ops add_block.
Qed.

Lemma fresh_run ty s :
  fresh ty s = Ok (mkValue (next_value s) ty) (emit_ops 1 [] s).
Proof.
  Transparent emit_ops.
  unfold fresh, emit_ops. rewrite insert_at_nil. cbn [length].
  now rewrite Nat.add_0_r.
  Opaque emit_ops.
Qed.

Lemma append_op_run b op s : append_op b op s = Ok tt (append_to b [op] s).
Proof. reflexivity. Qed.

(** ** The windowed converter: the two loops *)

Lemma CreateParallelLoopsToTraverseOutputAndWindow_run op s
    out_shape out_ety init_ety :
  v_ty (rw_out op) = MemRefTy out_shape out_ety ->
  getElementType (v_ty (rw_init_value op)) = Some init_ety ->
  ip_block s < length (blocks s) ->
  let n := next_value s in
  let nb := length (blocks s) in
  let orank := length out_shape in
  let wdims := rw_window_dimensions op in
  let wrank := length wdims in
  let init_value := mkValue n init_ety in
  let zero := mkValue (n + 1) IndexTy in
  let one := mkValue (n + 2) IndexTy in
  let output_ivs := index_values (n + 3 + orank) orank in
  let window_ivs := index_values (n + 3 + 2 * orank + wrank) wrank in
  let result := mkValue (n + 3 + 2 * orank + 2 * wrank) init_ety in
  let output_loop :=
    mkParallel nb output_ivs (map (fun _ => one) out_shape) [] [] in
  let window_loop :=
    mkParallel (nb + 1) window_ivs (map (fun _ => one) wdims)
      [init_value] [result] in
  CreateParallelLoopsToTraverseOutputAndWindow op s
  = Ok (output_loop, window_loop)
       (mkState (n + 3 + 2 * orank + 2 * wrank + 1)
          (insert_at (ip_block s) (ip_pos s)
             ([LoadOp init_value (rw_init_value op) [];
               ConstantIndexOp zero 0; ConstantIndexOp one 1]
              ++ output_bound_ops (rw_out op) (n + 3) 0 out_shape
              ++ [ParallelOp [] (map (fun _ => zero) out_shape)
                    (index_values (n + 3) orank)
                    (map (fun _ => one) out_shape) [] nb])
             (blocks s)
           ++ [mkBlock output_ivs
                 (window_bound_ops (n + 3 + 2 * orank) wdims
                  ++ [ParallelOp [result] (map (fun _ => zero) wdims)
                        (index_values (n + 3 + 2 * orank) wrank)
                        (map (fun _ => one) wdims) [init_value] (nb + 1);
                      StoreOp result (rw_out op) output_ivs;
                      YieldOp []]);
               mkBlock window_ivs [YieldOp []]])
          nb (wrank + 2) (diags s) (replaced s)).
Proof.
  intros Hout Hinit Hip n nb orank wdims wrank init_value zero one output_ivs
    window_ivs result output_loop window_loop.
  unfold CreateParallelLoopsToTraverseOutputAndWindow.
  step_with create_LoadOp_run.
  step_with create_ConstantIndexOp_run.
  step_with create_ConstantIndexOp_run.
  step_deref by (rewrite Hout).
  rewrite !emit_ops_emit_ops. cbn [app Nat.add].
  erewrite bind_Ok
    by (apply output_bounds_from; autorewrite with rewriter_state;
        reflexivity).
  cbv beta. rewrite emit_ops_emit_ops. rewrite app_bounds_nil_l.
  cbn [lower upper step].
  step_with create_ParallelOp_run.
  step_with setInsertionPointToStart_run.
  erewrite bind_Ok
    by (apply window_bounds_from; autorewrite with rewriter_state;
        reflexivity).
  cbv beta. rewrite app_bounds_nil_l. cbn [lower upper step].
  step_with create_ParallelOp_run.
  cbn [par_results head par_ivs par_body].
  step_deref.
  step_with create_StoreOp_run. unfold ret.
  rewrite !values_from_index.
  unfold values_from. cbn [map imap v_ty].
  autorewrite with block_len. cbn [length].
  f_equal.
  - subst output_loop window_loop output_ivs window_ivs result init_value
      one zero orank wrank wdims n nb.
    cbn [length]. norm_nat. struct_eq.
  - apply state_eq; autorewrite with rewriter_state block_len;
      cbn [length]; try reflexivity; try (subst n orank wrank wdims; lia).
    norm_blocks.
    rewrite <- !app_assoc. cbn [app].
    subst output_loop window_loop output_ivs window_ivs result init_value
      one zero orank wrank wdims n nb.
    norm_nat. struct_eq.
Qed.

(** ** The windowed converter: the reduction input *)

Lemma ReduceWindow_CreateReduceOp_run op output_loop window_loop s
    strides padding shape ety init more_inits :
  rw_window_strides op = Some strides ->
  rw_padding op = Some padding ->
  v_ty (rw_operand op) = MemRefTy shape ety ->
  par_inits window_loop = init :: more_inits ->
  let rank := getNumLoops output_loop in
  rank <= length strides ->
  rank <= length padding ->
  rank <= length (par_ivs output_loop) ->
  rank <= length (par_ivs window_loop) ->
  rank <= length shape ->
  let b := next_value s in
  let in_bounds0 := mkValue b I1Ty in
  let in_bounds := final_in_bounds (b + 1) rank in_bounds0 in
  let indices := map (operand_index (par_ivs output_loop) (b + 1) 0)
                     (seq 0 rank) in
  let m := b + 1 + 8 * rank in
  let if_result := mkValue m ety in
  let elem := mkValue (m + 1) ety in
  let tb := length (blocks s) in
  let args := values_from (m + 2) [ety; ety] in
  let s1 := emit_diags (attribute_diagnostics op)
              (at_start (par_body window_loop) s) in
  let s2 := emit_ops (1 + 8 * rank)
              (ConstantOp in_bounds0 1
               :: index_ops (rw_operand op) shape (par_ivs output_loop)
                    (par_ivs window_loop) strides padding (b + 1) 0 rank
                    in_bounds0) s1 in
  let s3 := emit_ops 1 [IfOp [if_result] in_bounds tb (tb + 1)]
              (add_block (mkBlock [] []) (add_block (mkBlock [] []) s2)) in
  let s4 := append_to tb [LoadOp elem (rw_operand op) indices]
              (emit_ops 1 [] s3) in
  let s5 := append_to (tb + 1) [YieldOp [init]]
              (append_to tb [YieldOp [elem]] s4) in
  ReduceWindow_CreateReduceOpInNestedParallelLoops op output_loop window_loop s
  = Ok (mkReduceHandle (tb + 2) args)
       (emit_ops 2 [ReduceOp if_result (tb + 2)]
          (add_block (mkBlock args []) s5)).
Proof.
  intros Hs Hp Hty Hinit rank Hls Hlp Hlo Hlw Hlsh b in_bounds0 in_bounds
    indices m if_result elem tb args s1 s2 s3 s4 s5.
  unfold ReduceWindow_CreateReduceOpInNestedParallelLoops,
    select_element_or_init. cbv zeta.
  step_with setInsertionPointToStart_run.
  step_with check_attributes_run.
  step_deref by (rewrite Hty).
  step_deref. step_deref. step_deref.
  step_with create_ConstantOp_run.
  erewrite bind_Ok
    by (apply operand_index_loop_run; autorewrite with rewriter_state;
        try reflexivity; cbn [Nat.add]; assumption).
  cbv beta iota. rewrite emit_ops_emit_ops. cbn [app].
  step_deref.
  step_with create_IfOp_run.
  step_deref by (rewrite Hty).
  step_with fresh_run.
  cbn [if_then if_else if_results head].
  step_with append_op_run.
  step_with append_op_run.
  step_deref by (rewrite Hinit).
  step_with append_op_run.
  step_deref.
  rewrite create_ReduceOp_run. cbv zeta.
  autorewrite with rewriter_state block_len. cbn [length v_ty].
  subst s5 s4 s3 s2 s1.
  subst b in_bounds0 in_bounds indices m if_result elem tb args rank.
  norm_nat. struct_eq.
Qed.

(** ** The loop nest of a windowed reduction *)

Ltac unfold_window :=
  unfold w_state, w_new_blocks, w_root_ops, w_output_body, w_window_body,
    w_then_block, w_else_block, w_reduce_block, w_reduce_op, w_window_loop,
    w_output_loop, w_reduce_args, w_indices, w_in_bounds, w_in_bounds0,
    w_if_result, w_elem, w_base, w_result, w_init_value, w_zero, w_one,
    w_output_ivs, w_window_ivs, w_wrank, w_wdims, w_orank in *;
  cbn [wc_op wc_n wc_nb wc_shape wc_ety wc_out_shape wc_init_ety wc_strides
       wc_padding] in *.

Lemma window_nest_run op s shape ety out_shape out_ety init_ety strides padding :
  v_ty (rw_operand op) = MemRefTy shape ety ->
  v_ty (rw_out op) = MemRefTy out_shape out_ety ->
  getElementType (v_ty (rw_init_value op)) = Some init_ety ->
  rw_window_strides op = Some strides ->
  rw_padding op = Some padding ->
  length out_shape <= length strides ->
  length out_shape <= length padding ->
  length out_shape <= length (rw_window_dimensions op) ->
  length out_shape <= length shape ->
  ip_block s < length (blocks s) ->
  let c := mkWindowCtx op (next_value s) (length (blocks s)) shape ety
             out_shape init_ety strides padding in
  exists s0,
    CreateParallelLoopsToTraverseOutputAndWindow op s
    = Ok (w_output_loop c, w_window_loop c) s0
    /\ ReduceWindow_CreateReduceOpInNestedParallelLoops op (w_output_loop c)
         (w_window_loop c) s0
       = Ok (w_reduce_op c) (w_state c s).
Proof.
  intros Hty Hout Hinit Hs Hp Hls Hlp Hlw Hlsh Hip c.
  eexists. split.
  { apply (CreateParallelLoopsToTraverseOutputAndWindow_run op s out_shape
             out_ety init_ety Hout Hinit Hip). }
  erewrite (ReduceWindow_CreateReduceOp_run op (w_output_loop c)
              (w_window_loop c) _ strides padding shape ety
              (w_init_value c) [] Hs Hp Hty);
    try reflexivity;
    try (subst c; unfold getNumLoops; unfold_window;
         cbn [par_step par_ivs]; autorewrite with block_len; lia).
  cbn [next_value blocks].
  f_equal.
  - subst c. unfold getNumLoops. unfold_window. cbn [par_step].
    autorewrite with block_len. cbn [length]. struct_eq.
  - subst c. unfold getNumLoops. unfold_window.
    apply state_eq; autorewrite with rewriter_state block_len;
      cbn [next_value blocks ip_block ip_pos diags replaced length
           par_step par_body par_ivs];
      autorewrite with block_len;
      try reflexivity; try lia.
    rewrite !app_two_snoc.
    norm_blocks.
    rewrite <- !app_assoc. cbn [app].
    norm_nat. struct_eq.
Qed.

(** ** Index arithmetic *)

Lemma pow2_pos bits : (0 < bits)%Z -> (0 < 2 ^ bits)%Z.
Proof. intros H. apply Z.pow_pos_nonneg; lia. Qed.

Lemma pow2_half bits :
  (0 < bits)%Z -> (2 ^ bits = 2 * 2 ^ (bits - 1))%Z /\ (0 < 2 ^ (bits - 1))%Z.
Proof.
  intros H. split.
  - rewrite <- Z.pow_succ_r by lia. f_equal. lia.
  - apply Z.pow_pos_nonneg; lia.
Qed.

Lemma wrap_range bits z : (0 < bits)%Z -> (0 <= wrap bits z < 2 ^ bits)%Z.
Proof. intros H. unfold wrap. apply Z.mod_pos_bound. now apply pow2_pos. Qed.

Lemma wrap_small bits z : (0 <= z < 2 ^ bits)%Z -> wrap bits z = z.
Proof. intros H. unfold wrap. now apply Z.mod_small. Qed.

Lemma wrap_index_arith bits o s w p :
  (0 < bits)%Z ->
  wrap bits (wrap bits (wrap bits o * wrap bits s)
             + wrap bits (wrap bits w - wrap bits p))
  = wrap bits (o * s + w - p)%Z.
Proof.
  intros Hbits. unfold wrap.
  assert (Hn : (2 ^ bits)%Z <> 0%Z) by (pose proof (pow2_pos bits Hbits); lia).
  rewrite <- Z.mul_mod by assumption.
  rewrite <- Zminus_mod.
  rewrite <- Z.add_mod by assumption.
  f_equal. lia.
Qed.

(** The unsigned comparison is the two-sided signed check. *)
Lemma ult_signed bits x e :
  (0 < bits)%Z ->
  (0 <= x < 2 ^ bits)%Z ->
  (0 <= e < 2 ^ (bits - 1))%Z ->
  cmpi bits ult x e = ((0 <=? signed bits x) && (signed bits x <? e))%Z.
Proof.
  intros Hbits. unfold cmpi, signed.
  destruct (pow2_half bits Hbits) as [Hfull Hhalf].
  generalize dependent (2 ^ bits)%Z. intros full Hfull.
  generalize dependent (2 ^ (bits - 1))%Z. intros half Hfull Hhalf.
  intros Hx He.
  destruct (Z.ltb_spec x half);
    destruct (Z.ltb_spec x e);
    destruct (Z.leb_spec 0 x);
    destruct (Z.leb_spec 0 (x - full));
    destruct (Z.ltb_spec (x - full) e);
    cbn; try reflexivity; lia.
Qed.

(** Without overflow the signed index is the integer
    [o * stride + i - pad_low]. *)
Lemma signed_wrap_small bits z :
  (0 < bits)%Z ->
  (- 2 ^ (bits - 1) <= z < 2 ^ (bits - 1))%Z ->
  signed bits (wrap bits z) = z.
Proof.
  intros Hbits. unfold signed, wrap.
  destruct (pow2_half bits Hbits) as [Hfull Hhalf].
  generalize dependent (2 ^ bits)%Z. intros full Hfull.
  generalize dependent (2 ^ (bits - 1))%Z. intros half Hfull Hhalf.
  intros Hz.
  destruct (Z.le_gt_cases 0 z) as [Hpos | Hneg].
  - rewrite Z.mod_small by lia.
    destruct (Z.ltb_spec z half); lia.
  - replace (z mod full)%Z with (z + full)%Z.
    + destruct (Z.ltb_spec (z + full) half); lia.
    + apply Z.mod_unique with (q := (-1)%Z); lia.
Qed.

(** ** Running straight-line code *)

Lemma exec_all_app rt a b st :
  exec_all rt (a ++ b) st = exec_all rt a st ≫= exec_all rt b.
Proof.
  revert st. induction a as [ | op a IH ]; intros st; [ reflexivity | ].
  cbn. destruct (exec_op rt op st); cbn; [ apply IH | reflexivity ].
Qed.

Lemma run_with_straight R blks rt ops rest st :
  forallb straight ops = true ->
  run_with R blks rt (ops ++ rest) st
  = exec_all rt ops st ≫= run_with R blks rt rest.
Proof.
  revert st. induction ops as [ | op ops IH ]; intros st Hs; [ reflexivity | ].
  cbn [forallb] in Hs. apply andb_true_iff in Hs as [Hop Hops].
  destruct op; try discriminate Hop;
    cbn [app run_with exec_all];
    (destruct (exec_op rt _ st) as [ st1 | ]; cbn; [ now apply IH | reflexivity ]).
Qed.

Lemma mapM_map_Some {A B C} (f : B -> option C) (g : A -> B) (h : A -> C)
    (l : list A) :
  (forall x, In x l -> f (g x) = Some (h x)) ->
  mapM f (map g l) = Some (map h l).
Proof.
  induction l as [ | x l IH ]; intros H; [ reflexivity | ].
  cbn. rewrite (H x) by now left. cbn.
  rewrite IH by (intros y Hy; apply H; now right). reflexivity.
Qed.

Lemma straight_index_ops operand shape oivs wivs strides padding :
  forall n b i in_bounds,
  forallb straight
    (index_ops operand shape oivs wivs strides padding b i n in_bounds) = true.
Proof.
  induction n as [ | n IH ]; intros b i in_bounds; [ reflexivity | ].
  cbn [index_ops]. rewrite forallb_app, IH, andb_true_r.
  unfold index_axis_ops, bound_op. cbn.
  now destruct (_ =? kDynamicSize)%Z.
Qed.

Lemma exec_bound_op rt res operand shape i st :
  exec_op rt (bound_op res operand i (nth i shape 0%Z)) st
  = Some (define res
            (IndexVal (wrap (rt_index_bits rt)
                         (operand_extent rt operand shape i))) st).
Proof.
  unfold bound_op, operand_extent.
  now destruct (nth i shape 0 =? kDynamicSize)%Z.
Qed.

Lemma exec_all_cons rt op rest st :
  exec_all rt (op :: rest) st = exec_op rt op st ≫= exec_all rt rest.
Proof. reflexivity. Qed.

Ltac env_lookup :=
  repeat first [ rewrite lookup_insert_eq
               | rewrite lookup_insert_ne by lia ].

(** ** The index loop, executed *)

Lemma exec_index_ops rt operand shape oivs wivs strides padding o w :
  (0 < rt_index_bits rt)%Z ->
  let bits := rt_index_bits rt in
  forall n i b in_bounds st acc,
  (forall j, i <= j < i + n ->
     v_id (nth j oivs no_value) < b
     /\ env st !! v_id (nth j oivs no_value)
        = Some (IndexVal (wrap bits (nth j o 0%Z)))) ->
  (forall j, i <= j < i + n ->
     v_id (nth j wivs no_value) < b
     /\ env st !! v_id (nth j wivs no_value)
        = Some (IndexVal (wrap bits (nth j w 0%Z)))) ->
  v_id in_bounds < b ->
  env st !! v_id in_bounds = Some (BoolVal acc) ->
  exists st',
    exec_all rt
      (index_ops operand shape oivs wivs strides padding b i n in_bounds) st
    = Some st'
    /\ env st' !! v_id (final_in_bounds b n in_bounds)
       = Some (BoolVal
                 (acc && window_in_bounds_ult rt operand shape strides padding
                           o w i n))
    /\ (forall j, i <= j < i + n ->
          env st' !! v_id (operand_index oivs b i j)
          = Some (IndexVal (window_index bits strides padding o w j)))
    /\ (forall k, k < b -> env st' !! k = env st !! k)
    /\ loads st' = loads st /\ fed st' = fed st.
Proof.
  intros Hbits bits.
  induction n as [ | n IH ]; intros i b in_bounds st acc Ho Hw Hlt Hacc.
  - exists st. cbn. rewrite andb_true_r. repeat split; try assumption.
    intros j Hj. lia.
  - cbn [index_ops]. rewrite exec_all_app.
    destruct (Ho i) as [Hoi_lt Hoi]; [ lia | ].
    destruct (Hw i) as [Hwi_lt Hwi]; [ lia | ].
    set (ov := nth i oivs no_value) in *.
    set (wv := nth i wivs no_value) in *.
    set (idx := window_index bits strides padding o w i).
    set (ext := wrap bits (operand_extent rt operand shape i)).
    set (st1 :=
      mkExec
        (<[b + 7 := BoolVal (acc && cmpi bits ult idx ext)]>
           (<[b + 6 := BoolVal (cmpi bits ult idx ext)]>
              (<[b + 5 := IndexVal ext]>
                 (<[b + 4 := IndexVal idx]>
                    (<[b + 3 := IndexVal
                         (wrap bits
                            (wrap bits (nth i w 0%Z)
                             - wrap bits (fst (nth i padding (0%Z, 0%Z)))))]>
                       (<[b + 2 := IndexVal
                            (wrap bits (wrap bits (nth i o 0%Z)
                                        * wrap bits (nth i strides 0%Z)))]>
                          (<[b + 1 := IndexVal
                               (wrap bits (fst (nth i padding (0%Z, 0%Z))))]>
                             (<[b := IndexVal
                                  (wrap bits (nth i strides 0%Z))]>
                                (env st)))))))))
        (loads st) (fed st)).
    assert (Hexec :
      exec_all rt
        (index_axis_ops operand ov wv in_bounds b i (nth i strides 0%Z)
           (fst (nth i padding (0%Z, 0%Z))) (nth i shape 0%Z)) st
      = Some st1).
    { unfold index_axis_ops. cbv zeta.
      repeat (rewrite exec_all_cons;
              first [ rewrite exec_bound_op | cbn [exec_op] ];
              unfold binary_index, eval_index, eval_bool, eval, define;
              cbn [env loads fed v_id]; env_lookup;
              rewrite ?Hoi, ?Hwi, ?Hacc; cbn [mbind option_bind];
              env_lookup; cbn [mbind option_bind]).
      cbn [exec_all].
      subst st1 idx ext. unfold window_index.
      rewrite wrap_index_arith by assumption. reflexivity. }
    rewrite Hexec. cbn [mbind option_bind].
    assert (Hframe1 : forall k, k < b -> env st1 !! k = env st !! k).
    { intros k Hk. subst st1. cbn [env]. now env_lookup. }
    destruct (IH (S i) (b + 8) (mkValue (b + 7) (v_ty in_bounds)) st1
                (acc && cmpi bits ult idx ext)) as (st' & Hrun & Hfin & Hidx & Hfr & Hl & Hf).
    { intros j Hj. destruct (Ho j) as [Hlt' Hv]; [ lia | ].
      split; [ lia | ]. now rewrite Hframe1. }
    { intros j Hj. destruct (Hw j) as [Hlt' Hv]; [ lia | ].
      split; [ lia | ]. now rewrite Hframe1. }
    { cbn. lia. }
    { subst st1. cbn [env v_id]. now env_lookup. }
    exists st'. split; [ exact Hrun | ].
    split.
    { rewrite <- final_in_bounds_step. rewrite Hfin.
      unfold window_in_bounds_ult. cbn [seq forallb].
      fold idx. fold ext. now rewrite andb_assoc. }
    split.
    { intros j Hj. destruct (Nat.eq_dec j i) as [-> | Hne].
      - unfold operand_index. cbn [v_id]. rewrite Nat.sub_diag.
        rewrite Hfr by lia. subst st1. cbn [env].
        replace (b + 8 * 0 + 4) with (b + 4) by lia. now env_lookup.
      - specialize (Hidx j ltac:(lia)).
        unfold operand_index in *. cbn [v_id] in *.
        replace (b + 8 * (j - i) + 4) with (b + 8 + 8 * (j - S i) + 4) by lia.
        exact Hidx. }
    split.
    { intros k Hk. rewrite Hfr by lia. now apply Hframe1. }
    split; [ now rewrite Hl | now rewrite Hf ].
Qed.

(** ** One iteration of the window loop *)

Lemma forallb_ext_in {A} (f g : A -> bool) (l : list A) :
  (forall x, In x l -> f x = g x) -> forallb f l = forallb g l.
Proof.
  induction l as [ | x l IH ]; intros H; [ reflexivity | ].
  cbn. rewrite (H x) by now left.
  rewrite IH by (intros y Hy; apply H; now right). reflexivity.
Qed.

Lemma window_in_bounds_ult_signed rt operand shape strides padding o w rank :
  (0 < rt_index_bits rt)%Z ->
  (forall j, j < rank ->
     (0 <= operand_extent rt operand shape j
      < 2 ^ (rt_index_bits rt - 1))%Z) ->
  window_in_bounds_ult rt operand shape strides padding o w 0 rank
  = window_in_bounds rt operand shape strides padding o w rank.
Proof.
  intros Hbits Hext. unfold window_in_bounds_ult, window_in_bounds.
  cbv zeta. apply forallb_ext_in. intros j Hj. apply in_seq in Hj.
  specialize (Hext j ltac:(lia)).
  unfold signed_window_index.
  rewrite wrap_small.
  - apply ult_signed; [ assumption | now apply wrap_range | assumption ].
  - destruct (pow2_half _ Hbits) as [Hfull Hhalf]. lia.
Qed.

Lemma bind_values_index_lookup k : forall m xs e j,
  j < k -> j < length xs ->
  bind_values (index_values m k) xs e !! (m + j) = xs !! j.
Proof.
  induction k as [ | k IH ]; intros m xs e j Hj Hlen; [ lia | ].
  destruct xs as [ | x xs ]; [ cbn in Hlen; lia | ].
  unfold index_values. cbn [seq map bind_values v_id].
  fold (index_values (S m) k).
  destruct j as [ | j ].
  - rewrite Nat.add_0_r. now rewrite lookup_insert_eq.
  - rewrite lookup_insert_ne by lia.
    replace (m + S j) with (S m + j) by lia.
    cbn in Hlen. rewrite (IH (S m) xs e j) by lia. reflexivity.
Qed.

Lemma bind_values_index_other k : forall m xs e id,
  id < m \/ m + k <= id ->
  bind_values (index_values m k) xs e !! id = e !! id.
Proof.
  induction k as [ | k IH ]; intros m xs e id Hid; [ reflexivity | ].
  destruct xs as [ | x xs ]; [ reflexivity | ].
  unfold index_values. cbn [seq map bind_values v_id].
  fold (index_values (S m) k).
  rewrite lookup_insert_ne by lia. apply IH. lia.
Qed.

Lemma coordinates_lookup bits zs j :
  j < length zs ->
  coordinates bits zs !! j = Some (IndexVal (wrap bits (nth j zs 0%Z))).
Proof.
  intros Hj. unfold coordinates. rewrite list_lookup_fmap.
  destruct (lookup_lt_is_Some_2 zs j Hj) as [z Hz].
  rewrite Hz. cbn. now rewrite (nth_lookup_Some _ _ _ _ Hz).
Qed.

Lemma length_coordinates bits zs :
  length (coordinates bits zs) = length zs.
Proof. apply length_map. Qed.

Lemma run_window_body (c : WindowCtx) blks rt o w neutral st0 depth :
  (0 < rt_index_bits rt)%Z ->
  let bits := rt_index_bits rt in
  blks !! (wc_nb c + 2) = Some (w_then_block c) ->
  blks !! (wc_nb c + 3) = Some (w_else_block c) ->
  length (wc_strides c) = w_orank c ->
  w_wrank c = w_orank c ->
  (forall j, j < w_orank c ->
     env st0 !! (wc_n c + 3 + w_orank c + j)
     = Some (IndexVal (wrap bits (nth j o 0%Z)))) ->
  (forall j, j < w_orank c ->
     env st0 !! (wc_n c + 3 + 2 * w_orank c + w_wrank c + j)
     = Some (IndexVal (wrap bits (nth j w 0%Z)))) ->
  env st0 !! wc_n c = Some (ElemVal neutral) ->
  let operand := rw_operand (wc_op c) in
  let in_bounds :=
    window_in_bounds_ult rt operand (wc_shape c) (wc_strides c) (wc_padding c)
      o w 0 (w_orank c) in
  let indices :=
    map (window_index bits (wc_strides c) (wc_padding c) o w)
        (seq 0 (w_orank c)) in
  exists st,
    run_ops (S depth) blks rt (b_ops (w_window_body c)) st0 = Some (st, [])
    /\ fed st
       = fed st0
         ++ [ElemVal (if in_bounds then rt_load rt operand indices
                      else neutral)]
    /\ loads st
       = loads st0 ++ (if in_bounds then [(operand, indices)] else []).
Proof.
  intros Hbits bits Hthen Helse Hls Hwr Ho Hw Hinit operand in_bounds indices.
  assert (Hinner : exists R, run_ops depth blks rt = run_with R blks rt)
    by (destruct depth; eexists; reflexivity).
  destruct Hinner as [R HR].
  unfold w_window_body. cbn [b_ops].
  change (ConstantOp (w_in_bounds0 c) 1 :: ?l ++ ?r)
    with ((ConstantOp (w_in_bounds0 c) 1 :: l) ++ r).
  cbn [run_ops].
  rewrite run_with_straight
    by (cbn [forallb straight]; apply straight_index_ops).
  rewrite exec_all_cons.
  cbn [exec_op w_in_bounds0 v_ty I1Ty mbind option_bind].
  set (st1 := define (w_in_bounds0 c) (BoolVal (Z.odd 1)) st0).
  assert (Hbase : wc_n c + 3 + 2 * w_orank c + 2 * w_wrank c + 1 = w_base c)
    by reflexivity.
  assert (Hframe1 : forall k, k < w_base c -> env st1 !! k = env st0 !! k).
  { intros k Hk. subst st1. unfold define, w_in_bounds0. cbn [env v_id].
    now rewrite lookup_insert_ne by lia. }
  destruct (exec_index_ops rt operand (wc_shape c) (w_output_ivs c)
              (w_window_ivs c) (wc_strides c) (wc_padding c) o w Hbits
              (w_orank c) 0 (w_base c + 1) (w_in_bounds0 c) st1 true)
    as (st2 & Hrun & Hfin & Hidx & Hfr & Hl & Hf).
  { intros j Hj. unfold w_output_ivs.
    rewrite nth_index_values by lia. cbn [v_id].
    split; [ lia | ]. rewrite Hframe1 by lia. apply Ho. lia. }
  { intros j Hj. unfold w_window_ivs.
    rewrite nth_index_values by lia. cbn [v_id].
    split; [ lia | ]. rewrite Hframe1 by lia. apply Hw. lia. }
  { cbn. lia. }
  { subst st1. unfold define, w_in_bounds0. cbn [env v_id].
    now rewrite lookup_insert_eq. }
  subst operand. rewrite Hrun. cbn [mbind option_bind].
  cbn [run_with].
  unfold eval_bool at 1. unfold eval.
  unfold w_in_bounds at 1.
  rewrite Hfin. cbn [andb mbind option_bind].
  fold in_bounds.
  assert (Hloads1 : loads st1 = loads st0) by reflexivity.
  assert (Hfed1 : fed st1 = fed st0) by reflexivity.
  destruct in_bounds eqn:Hin.
  - rewrite Hthen. rewrite HR.
    cbn [mbind option_bind w_then_block b_ops run_with].
    cbn [exec_op].
    assert (Hidxs : mapM (eval_index st2) (w_indices c) = Some indices).
    { unfold w_indices. apply mapM_map_Some. intros j Hj.
      apply in_seq in Hj. unfold eval_index, eval.
      rewrite (Hidx j) by lia. reflexivity. }
    rewrite Hidxs.
    repeat (progress
              (unfold eval, define;
               cbn [env loads fed v_id w_elem w_if_result w_init_value mbind
                    option_bind mret option_ret define_all fst snd mapM
                    exec_op];
               try rewrite lookup_insert_eq)).
    eexists. split; [ reflexivity | ].
    cbn [fed loads]. rewrite Hl, Hf, Hloads1, Hfed1. split; reflexivity.
  - rewrite Helse. rewrite HR.
    cbn [mbind option_bind w_else_block b_ops run_with].
    unfold eval at 1. cbn [mapM w_init_value v_id mbind option_bind].
    rewrite Hfr by (rewrite <- Hbase; lia).
    rewrite Hframe1 by (rewrite <- Hbase; lia).
    rewrite Hinit.
    repeat (progress
              (unfold eval, define;
               cbn [env loads fed v_id w_elem w_if_result w_init_value mbind
                    option_bind mret option_ret define_all fst snd mapM
                    exec_op];
               try rewrite lookup_insert_eq)).
    eexists. split; [ reflexivity | ].
    cbn [fed loads]. rewrite Hl, Hf, Hloads1, Hfed1.
    split; [ reflexivity | now rewrite app_nil_r ].
Qed.

Lemma w_state_lookup (c : WindowCtx) s k blk :
  wc_nb c = length (blocks s) ->
  w_new_blocks c !! k = Some blk ->
  blocks (w_state c s) !! (wc_nb c + k) = Some blk.
Proof.
  intros Hnb Hk. unfold w_state. cbn [blocks].
  rewrite lookup_app_r by (rewrite length_insert_at; lia).
  rewrite length_insert_at.
  replace (wc_nb c + k - length (blocks s)) with k by lia.
  exact Hk.
Qed.

(** C1.  For a windowed reduction with strides and padding, whatever the
    width of the index type (extents below half its range), the output
    coordinate [o] and the window element [w], one iteration of the
    emitted window loop computes per axis the operand index
    [o_j * stride_j + w_j - pad_low_j], takes the conjunction over the axes
    of the unsigned comparisons [index_j < operand_extent_j] -- which is
    [AND_j (0 <= index_j < operand_extent_j)] for the index read as a signed
    integer --, and hands to [loop.reduce] the operand element at that index
    when the conjunction holds and the initial value otherwise, in which
    case the run performs no load at all. *)
Theorem window_in_bounds_feeds_neutral
    op s shape ety out_shape out_ety init_ety strides padding :
  v_ty (rw_operand op) = MemRefTy shape ety ->
  v_ty (rw_out op) = MemRefTy out_shape out_ety ->
  getElementType (v_ty (rw_init_value op)) = Some init_ety ->
  rw_window_strides op = Some strides ->
  rw_padding op = Some padding ->
  length strides = length out_shape ->
  length padding = length out_shape ->
  length (rw_window_dimensions op) = length out_shape ->
  length shape = length out_shape ->
  ip_block s < length (blocks s) ->
  exists output_loop window_loop reduce_op s0 s1 body init,
    CreateParallelLoopsToTraverseOutputAndWindow op s
    = Ok (output_loop, window_loop) s0
    /\ ReduceWindow_CreateReduceOpInNestedParallelLoops op output_loop
         window_loop s0
       = Ok reduce_op s1
    /\ blocks s1 !! par_body window_loop = Some body
    /\ b_args body = par_ivs window_loop
    /\ par_inits window_loop = [init]
    /\ forall rt o w neutral depth,
         (0 < rt_index_bits rt)%Z ->
         length o = length out_shape ->
         length w = length out_shape ->
         (forall j, j < length out_shape ->
            (0 <= operand_extent rt (rw_operand op) shape j
             < 2 ^ (rt_index_bits rt - 1))%Z) ->
         let bits := rt_index_bits rt in
         let rank := length out_shape in
         let env0 :=
           bind_values (par_ivs output_loop) (coordinates bits o)
             (bind_values (par_ivs window_loop) (coordinates bits w)
                {[ v_id init := ElemVal neutral ]}) in
         let indices :=
           map (window_index bits strides padding o w) (seq 0 rank) in
         let in_bounds :=
           window_in_bounds rt (rw_operand op) shape strides padding o w rank in
         in_bounds
         = window_in_bounds_ult rt (rw_operand op) shape strides padding o w
             0 rank
         /\ exists st,
              run_ops (S depth) (blocks s1) rt (b_ops body)
                (mkExec env0 [] [])
              = Some (st, [])
              /\ fed st
                 = [ElemVal (if in_bounds
                             then rt_load rt (rw_operand op) indices
                             else neutral)]
              /\ loads st
                 = (if in_bounds then [(rw_operand op, indices)] else []).
Proof.
  intros Hty Hout Hinit Hs Hp Hls Hlp Hlw Hlsh Hip.
  set (c := mkWindowCtx op (next_value s) (length (blocks s)) shape ety
              out_shape init_ety strides padding).
  destruct (window_nest_run op s shape ety out_shape out_ety init_ety strides
              padding Hty Hout Hinit Hs Hp) as (s0 & HD & HE);
    try assumption; try lia.
  fold c in HD, HE.
  exists (w_output_loop c), (w_window_loop c), (w_reduce_op c), s0,
    (w_state c s), (w_window_body c), (w_init_value c).
  split; [ exact HD | ]. split; [ exact HE | ].
  split; [ apply (w_state_lookup c s 1); reflexivity | ].
  split; [ reflexivity | ]. split; [ reflexivity | ].
  intros rt o w neutral depth Hbits Hlo Hlw' Hext bits rank env0 indices
    in_bounds.
  split.
  { subst in_bounds. symmetry. now apply window_in_bounds_ult_signed. }
  assert (Hor : w_orank c = length out_shape) by reflexivity.
  assert (Hwr : w_wrank c = length out_shape) by (unfold w_wrank; exact Hlw).
  destruct (run_window_body c (blocks (w_state c s)) rt o w neutral
              (mkExec env0 [] []) depth Hbits)
    as (st & Hrun & Hfed & Hloads).
  - apply (w_state_lookup c s 2); reflexivity.
  - apply (w_state_lookup c s 3); reflexivity.
  - exact Hls.
  - now rewrite Hwr.
  - intros j Hj. cbn [env]. subst env0.
    unfold w_output_loop, w_window_loop. cbn [par_ivs]. unfold w_output_ivs.
    rewrite bind_values_index_lookup
      by (rewrite ?length_coordinates; lia).
    apply coordinates_lookup. lia.
  - intros j Hj. cbn [env]. subst env0.
    unfold w_output_loop, w_window_loop. cbn [par_ivs].
    unfold w_output_ivs, w_window_ivs.
    rewrite bind_values_index_other by lia.
    rewrite bind_values_index_lookup
      by (rewrite ?length_coordinates; lia).
    apply coordinates_lookup. lia.
  - cbn [env]. subst env0.
    unfold w_output_loop, w_window_loop. cbn [par_ivs].
    unfold w_output_ivs, w_window_ivs.
    rewrite bind_values_index_other by (cbn [wc_n c]; lia).
    rewrite bind_values_index_other by (cbn [wc_n c]; lia).
    unfold w_init_value. cbn [v_id]. now rewrite lookup_singleton_eq.
  - cbv zeta in Hrun, Hfed, Hloads. cbn [fed loads app] in Hfed, Hloads.
    assert (Heq : window_in_bounds_ult rt (rw_operand (wc_op c)) (wc_shape c)
                    (wc_strides c) (wc_padding c) o w 0 (w_orank c)
                  = in_bounds).
    { subst in_bounds. now apply window_in_bounds_ult_signed. }
    rewrite Heq in Hfed, Hloads.
    exists st. split; [ exact Hrun | ]. split; assumption.
Qed.

(** ** The loop nest of a plain reduction *)

Lemma reduced_axes_S rd i n :
  reduced_axes rd i (S n)
  = if count rd i then i :: reduced_axes rd (S i) n
    else reduced_axes rd (S i) n.
Proof. reflexivity. Qed.

Lemma kept_axes_S rd i n :
  kept_axes rd i (S n)
  = if count rd i then kept_axes rd (S i) n
    else i :: kept_axes rd (S i) n.
Proof. unfold kept_axes. cbn [seq List.filter]. now destruct (count rd i). Qed.

Lemma load_indices_from rd : forall n i outer_it inner,
  length inner = length (reduced_axes rd i n) ->
  match outer_it with
  | Some outer => length outer = length (kept_axes rd i n)
  | None => kept_axes rd i n = []
  end ->
  load_indices rd i n outer_it inner
  = Some (map (fun j =>
                 if count rd j
                 then nth (length (reduced_axes rd i (j - i))) inner no_value
                 else nth (length (kept_axes rd i (j - i)))
                        (default [] outer_it) no_value)
              (seq i n)).
Proof.
  induction n as [ | n IH ]; intros i outer_it inner Hin Hout;
    [ reflexivity | ].
  cbn [load_indices seq map].
  rewrite reduced_axes_S in Hin. rewrite kept_axes_S in Hout.
  rewrite Nat.sub_diag.
  destruct (count rd i) eqn:Hc.
  - destruct inner as [ | iv inner' ]; [ discriminate Hin | ].
    cbn [length] in Hin.
    rewrite (IH (S i) outer_it inner') by (assumption || lia).
    cbn [fmap option_fmap option_map]. f_equal. f_equal.
    apply map_ext_in. intros j Hj. apply in_seq in Hj.
    replace (j - i) with (S (j - S i)) by lia.
    rewrite reduced_axes_S, kept_axes_S, Hc. reflexivity.
  - destruct outer_it as [ outer | ]; [ | discriminate Hout ].
    destruct outer as [ | iv outer' ]; [ discriminate Hout | ].
    cbn [length] in Hout.
    rewrite (IH (S i) (Some outer') inner) by (assumption || lia).
    cbn [fmap option_fmap option_map default]. f_equal. f_equal.
    apply map_ext_in. intros j Hj. apply in_seq in Hj.
    replace (j - i) with (S (j - S i)) by lia.
    rewrite reduced_axes_S, kept_axes_S, Hc. reflexivity.
Qed.

Lemma load_indices_run rd rank outer_it inner :
  length inner = length (reduced_axes rd 0 rank) ->
  match outer_it with
  | Some outer => length outer = length (kept_axes rd 0 rank)
  | None => kept_axes rd 0 rank = []
  end ->
  load_indices rd 0 rank outer_it inner
  = Some (map (interleaved rd (default [] outer_it) inner) (seq 0 rank)).
Proof.
  intros Hin Hout. rewrite load_indices_from by assumption.
  f_equal. apply map_ext. intros j. unfold interleaved.
  now rewrite Nat.sub_0_r.
Qed.

Ltac unfold_reduce :=
  unfold p_state, p_new_blocks, p_root_ops, p_outer_body, p_inner_body,
    p_reduce_block, p_reduce_op, p_store, p_inner_loop, p_inner_body_id,
    p_outer_loop, p_indices, p_reduce_args, p_elem, p_out_indices, p_zero,
    p_result, p_inner_ivs, p_outer_ivs, p_init, p_base in *;
  cbn [pc_op pc_n pc_nb pc_operand pc_init_buf pc_out pc_shape pc_ety
       pc_init_ety v_id] in *.

Lemma values_from_one n (v : Value) :
  values_from n (map v_ty [v]) = [mkValue n (v_ty v)].
Proof. unfold values_from. cbn. now rewrite Nat.add_0_r. Qed.

Lemma length_axes (n : nat) (f : nat -> nat -> Value) (axes : list nat) :
  length (map (f n) axes) = length axes.
Proof. apply length_map. Qed.

Lemma CreateReduceOpInNestedParallelLoops_run op s operand more_operands
    out more_out init_buf more_init shape ety init_ety :
  r_operands op = operand :: more_operands ->
  r_out op = out :: more_out ->
  r_init_values op = init_buf :: more_init ->
  v_ty operand = MemRefTy shape ety ->
  getElementType (v_ty init_buf) = Some init_ety ->
  ip_block s < length (blocks s) ->
  let c := mkReduceCtx op (next_value s) (length (blocks s)) operand init_buf
             out shape ety init_ety in
  CreateReduceOpInNestedParallelLoops op s = Ok (p_reduce_op c) (p_state c s).
Proof.
  intros Hops Hout Hinit Hty Hity Hip c.
  assert (Hety : getElementType (v_ty operand) = Some ety)
    by (rewrite Hty; reflexivity).
  unfold CreateReduceOpInNestedParallelLoops. cbv zeta.
  step_deref by (rewrite Hops).
  step_deref by (rewrite Hout).
  step_deref by (rewrite Hty).
  erewrite bind_Ok by apply partition_dims_run.
  cbv beta iota zeta.
  step_deref by (rewrite Hinit).
  step_with create_LoadOp_run.
  rewrite emit_ops_emit_ops.
  assert (Hkept : kept_axes (reducing_dims_of (r_dimensions op)) 0
                    (length shape) = p_kept c) by reflexivity.
  assert (Hred : reduced_axes (reducing_dims_of (r_dimensions op)) 0
                   (length shape) = p_reduced c) by reflexivity.
  assert (Hdims : reducing_dims_of (r_dimensions op) = p_dims c)
    by reflexivity.
  rewrite Hkept, Hred, Hdims.
  assert (Hho : p_has_outer c = match p_kept c with [] => false | _ => true end)
    by reflexivity.
  destruct (p_kept c) as [ | a kept ] eqn:Hk.
  - (* every axis is reduced: no outer loop *)
    cbn [axes_bounds lower upper step map bool_decide decide_rel negb].
    rewrite bool_decide_eq_true_2 by reflexivity. cbn [negb].
    erewrite bind_Ok by reflexivity. cbv beta.
    step_with create_ParallelOp_run.
    cbn [par_results par_ivs par_body head].
    rewrite !values_from_index, values_from_one. cbn [head v_ty].
    step_deref.
    erewrite bind_Ok
      by (erewrite bind_Ok by apply create_ConstantIndexOp_run; reflexivity).
    cbv beta. autorewrite with rewriter_state.
    step_with create_StoreOp_run.
    autorewrite with block_len.
    cbn [fmap option_fmap option_map].
    rewrite (load_indices_run (p_dims c) (length shape) None)
      by (rewrite ?length_index_values; first [ reflexivity | exact Hk ]).
    step_deref.
    step_with setInsertionPointToStart_run.
    step_deref by (rewrite Hops).
    step_with create_LoadOp_run.
    rewrite create_ReduceOp_run. cbv zeta.
    autorewrite with rewriter_state block_len. cbn [length v_ty default].
    subst c. unfold_reduce. rewrite Hho, ?Hk.
    unfold p_rank. cbn [pc_shape length].
    f_equal.
    + norm_nat. struct_eq.
    + apply state_eq; autorewrite with rewriter_state block_len;
        cbn [length]; try reflexivity; try lia.
      norm_blocks.
      rewrite <- ?app_assoc. cbn [app].
      norm_nat. struct_eq.
  - (* some axis is kept: an outer loop *)
    rewrite bool_decide_eq_false_2
      by (unfold axes_bounds; cbn; discriminate).
    cbn [negb].
    erewrite bind_Ok
      by (erewrite bind_Ok by apply create_ParallelOp_run; cbv beta zeta;
          erewrite bind_Ok by apply setInsertionPointToStart_run;
          reflexivity).
    cbv beta. autorewrite with rewriter_state.
    step_with create_ParallelOp_run.
    cbn [par_results par_ivs par_body head].
    rewrite !values_from_index, values_from_one. cbn [head v_ty].
    step_deref.
    erewrite bind_Ok by reflexivity. cbv beta.
    step_with create_StoreOp_run.
    autorewrite with block_len.
    cbn [fmap option_fmap option_map].
    unfold axes_bounds. cbn [lower upper step]. rewrite !length_map.
    rewrite <- Hk.
    cbn [par_ivs].
    erewrite load_indices_run
      by (rewrite ?length_index_values; first [ reflexivity | exact Hk ]).
    step_deref.
    step_with setInsertionPointToStart_run.
    step_deref by (rewrite Hops).
    step_with create_LoadOp_run.
    rewrite create_ReduceOp_run. cbv zeta.
    autorewrite with rewriter_state block_len. cbn [length v_ty default].
    subst c. unfold_reduce. rewrite Hho, ?Hk.
    unfold axes_bounds. cbn [lower upper step].
    unfold p_rank. cbn [pc_shape length].
    f_equal.
    + norm_nat. struct_eq.
    + apply state_eq; autorewrite with rewriter_state block_len;
        cbn [length]; try reflexivity; try lia.
      norm_blocks.
      rewrite <- ?app_assoc. cbn [app].
      norm_nat. struct_eq.
Qed.

(** * Specification properties *)

(** C8.  The dimension partitioner visits the axes of the operand in
    increasing order; for axis [a] it emits the bound resolver's operation
    for the upper bound, a constant 0 for the lower bound and a constant 1
    for the step ([axis_ops]); the three values go to the reduced bound
    lists when [a] is in the reduced set and to the kept bound lists
    otherwise, so that each pair of lists enumerates its axes in their
    original order ([reduced_axes], [kept_axes]). *)
Theorem partition_dims_partitions operand dimensions shape s :
  let reducing_dims := reducing_dims_of dimensions in
  let n := next_value s in
  let rank := length shape in
  partition_dims operand reducing_dims 0 shape no_bounds no_bounds s
  = Ok (axes_bounds n (List.filter (fun a => negb (count reducing_dims a))
                         (seq 0 rank)),
        axes_bounds n (List.filter (count reducing_dims) (seq 0 rank)))
       (emit_ops (3 * rank) (concat (imap (axis_ops operand n) shape)) s).
Proof. intros. apply partition_dims_run. Qed.

Lemma seq_split_at i rank :
  i < rank -> seq 0 rank = seq 0 i ++ i :: seq (S i) (rank - S i).
Proof.
  intros Hi. replace rank with (i + S (rank - S i)) at 1 by lia.
  rewrite seq_app. reflexivity.
Qed.

Lemma reduced_before_lt rd i rank :
  i < rank -> count rd i = true ->
  length (reduced_axes rd 0 i) < length (reduced_axes rd 0 rank).
Proof.
  intros Hi Hc. unfold reduced_axes.
  rewrite (seq_split_at i rank Hi), List.filter_app. cbn [List.filter].
  rewrite Hc, length_app. cbn [length]. lia.
Qed.

Lemma kept_before_lt rd i rank :
  i < rank -> count rd i = false ->
  length (kept_axes rd 0 i) < length (kept_axes rd 0 rank).
Proof.
  intros Hi Hc. unfold kept_axes.
  rewrite (seq_split_at i rank Hi), List.filter_app. cbn [List.filter].
  rewrite Hc, length_app. cbn [length negb]. lia.
Qed.

Lemma nth_lookup_lt {A} (l : list A) i d :
  i < length l -> l !! i = Some (nth i l d).
Proof.
  intros Hi. destruct (lookup_lt_is_Some_2 l i Hi) as [x Hx].
  rewrite Hx. now rewrite (nth_lookup_Some _ _ _ _ Hx).
Qed.

Lemma p_state_lookup (c : ReduceCtx) s k blk :
  pc_nb c = length (blocks s) ->
  p_new_blocks c !! k = Some blk ->
  blocks (p_state c s) !! (pc_nb c + k) = Some blk.
Proof.
  intros Hnb Hk. unfold p_state. cbn [blocks].
  rewrite lookup_app_r by (rewrite length_insert_at; lia).
  rewrite length_insert_at.
  replace (pc_nb c + k - length (blocks s)) with k by lia.
  exact Hk.
Qed.

(** C3.  The element of a plain reduction is loaded, first thing in the
    body of the inner loop, at a coordinate tuple with one entry per axis of
    the operand: entry [i] is the inner loop's induction variable numbered
    by how many reduced axes come before [i] when [i] is in the reduced set,
    and the outer loop's induction variable numbered by how many kept axes
    come before [i] otherwise.  The induction variables are the arguments of
    the loop bodies; there is no outer loop, and no outer induction
    variable, when no axis is kept. *)
Theorem operand_coordinates_interleave op s operand more_operands
    out more_out init_buf more_init shape ety init_ety :
  r_operands op = operand :: more_operands ->
  r_out op = out :: more_out ->
  r_init_values op = init_buf :: more_init ->
  v_ty operand = MemRefTy shape ety ->
  getElementType (v_ty init_buf) = Some init_ety ->
  ip_block s < length (blocks s) ->
  let reducing_dims := reducing_dims_of (r_dimensions op) in
  let rank := length shape in
  exists reduce_op s' inner_body outer_ivs inner_ivs elem indices rest,
    CreateReduceOpInNestedParallelLoops op s = Ok reduce_op s'
    /\ blocks s' !! inner_body
       = Some (mkBlock inner_ivs (LoadOp elem operand indices :: rest))
    /\ (match kept_axes reducing_dims 0 rank with
        | [] => outer_ivs = []
        | _ => exists outer_ops,
                 blocks s' !! length (blocks s)
                 = Some (mkBlock outer_ivs outer_ops)
                 /\ inner_body = length (blocks s) + 1
        end)
    /\ length indices = rank
    /\ forall i, i < rank ->
         is_Some (indices !! i)
         /\ indices !! i
            = if count reducing_dims i
              then inner_ivs !! length (reduced_axes reducing_dims 0 i)
              else outer_ivs !! length (kept_axes reducing_dims 0 i).
Proof.
  intros Hops Hout Hinit Hty Hity Hip reducing_dims rank.
  set (c := mkReduceCtx op (next_value s) (length (blocks s)) operand init_buf
              out shape ety init_ety).
  pose proof (CreateReduceOpInNestedParallelLoops_run op s operand
                more_operands out more_out init_buf more_init shape ety
                init_ety Hops Hout Hinit Hty Hity Hip) as Hrun.
  cbv zeta in Hrun. fold c in Hrun.
  exists (p_reduce_op c), (p_state c s), (p_inner_body_id c), (p_outer_ivs c),
    (p_inner_ivs c), (p_elem c), (p_indices c),
    [ReduceOp (p_elem c) (p_inner_body_id c + 1); YieldOp []].
  split; [ exact Hrun | ].
  assert (Hkept : kept_axes reducing_dims 0 rank = p_kept c) by reflexivity.
  assert (Hho : p_has_outer c = match p_kept c with [] => false | _ => true end)
    by reflexivity.
  split.
  { unfold p_inner_body_id.
    destruct (p_has_outer c) eqn:Hb.
    - apply (p_state_lookup c s 1); [ reflexivity | ].
      unfold p_new_blocks, p_inner_body, p_inner_body_id. now rewrite Hb.
    - apply (p_state_lookup c s 0); [ reflexivity | ].
      unfold p_new_blocks, p_inner_body, p_inner_body_id. now rewrite Hb. }
  split.
  { rewrite Hkept. destruct (p_kept c) as [ | a kept ] eqn:Hk.
    - unfold p_outer_ivs. now rewrite Hk.
    - exists [p_inner_loop c; p_store c; YieldOp []]. split.
      + rewrite <- (Nat.add_0_r (length (blocks s))).
        apply (p_state_lookup c s 0); [ reflexivity | ].
        unfold p_new_blocks. now rewrite Hho.
      + unfold p_inner_body_id. now rewrite Hho. }
  split.
  { unfold p_indices. now rewrite length_map, length_seq. }
  intros i Hi.
  assert (Hidx : p_indices c !! i
                 = Some (interleaved (p_dims c) (p_outer_ivs c)
                           (p_inner_ivs c) i)).
  { unfold p_indices. rewrite list_lookup_fmap, lookup_seq_lt by exact Hi.
    reflexivity. }
  split; [ rewrite Hidx; eauto | ].
  rewrite Hidx. unfold interleaved.
  change (p_dims c) with reducing_dims.
  destruct (count reducing_dims i) eqn:Hc.
  - symmetry. apply nth_lookup_lt.
    unfold p_inner_ivs. rewrite length_index_values.
    now apply reduced_before_lt.
  - symmetry. apply nth_lookup_lt.
    unfold p_outer_ivs. rewrite length_index_values.
    now apply kept_before_lt.
Qed.

Lemma filter_partition_ops (f : Op -> bool) operand n shape :
  (forall res memref a, f (DimOp res memref a) = false) ->
  (forall res z, f (ConstantIndexOp res z) = false) ->
  List.filter f (partition_ops operand n shape) = [].
Proof.
  intros Hdim Hconst. unfold partition_ops.
  remember (axis_ops operand n) as g eqn:Hg.
  assert (Hax : forall a dim, List.filter f (g a dim) = []).
  { intros a dim. rewrite Hg. unfold axis_ops, bound_op. cbn.
    destruct (dim =? kDynamicSize)%Z; now rewrite ?Hdim, ?Hconst. }
  clear Hg. revert g Hax.
  induction shape as [ | dim rest IH ]; intros g Hax; [ reflexivity | ].
  rewrite imap_cons. cbn [concat]. rewrite List.filter_app, Hax.
  apply IH. intros a d. apply Hax.
Qed.

(** C4.  When no axis of the operand is kept, the synthesizer produces no
    outer loop.  At the insertion point it leaves the operations of the
    partitioner, which hold no loop and no store, the load of the initial
    value, one parallel loop -- the inner one, over the reduced bounds,
    carrying the initial value as its accumulator --, a constant 0 and the
    store of that loop's result into the output at the single index
    defined by this constant.  The store stands after the loop, in no loop
    body: the body of the loop holds the load of the element, the
    [loop.reduce] and the [loop.yield], and the reduction block is empty.
    The output is thus written exactly once. *)
Theorem reduce_over_all_dimensions op s operand more_operands
    out more_out init_buf more_init shape ety init_ety :
  r_operands op = operand :: more_operands ->
  r_out op = out :: more_out ->
  r_init_values op = init_buf :: more_init ->
  v_ty operand = MemRefTy shape ety ->
  getElementType (v_ty init_buf) = Some init_ety ->
  ip_block s < length (blocks s) ->
  kept_axes (reducing_dims_of (r_dimensions op)) 0 (length shape) = [] ->
  exists reduce_op s' setup root_ops inner_body reduce_block
         result zero lower upper step init elem indices,
    CreateReduceOpInNestedParallelLoops op s = Ok reduce_op s'
    /\ partition_dims operand (reducing_dims_of (r_dimensions op)) 0 shape
         no_bounds no_bounds s
       = Ok (no_bounds, mkBounds lower upper step)
            (emit_ops (3 * length shape) setup s)
    /\ List.filter is_parallel setup = []
    /\ List.filter is_store setup = []
    /\ root_ops
       = setup
         ++ [LoadOp init init_buf [];
             ParallelOp [result] lower upper step [init] (length (blocks s));
             ConstantIndexOp zero 0;
             StoreOp result out [zero]]
    /\ b_ops inner_body
       = [LoadOp elem operand indices;
          ReduceOp elem (length (blocks s) + 1);
          YieldOp []]
    /\ b_ops reduce_block = []
    /\ red_body reduce_op = length (blocks s) + 1
    /\ blocks s'
       = insert_at (ip_block s) (ip_pos s) root_ops (blocks s)
         ++ [inner_body; reduce_block]
    /\ (let emitted := root_ops ++ b_ops inner_body ++ b_ops reduce_block in
        List.filter is_parallel emitted
        = [ParallelOp [result] lower upper step [init] (length (blocks s))]
        /\ List.filter is_store emitted = [StoreOp result out [zero]]
        /\ In (ConstantIndexOp zero 0) root_ops).
Proof.
  intros Hops Hout Hinit Hty Hity Hip Hkept.
  set (c := mkReduceCtx op (next_value s) (length (blocks s)) operand init_buf
              out shape ety init_ety).
  pose proof (CreateReduceOpInNestedParallelLoops_run op s operand
                more_operands out more_out init_buf more_init shape ety
                init_ety Hops Hout Hinit Hty Hity Hip) as Hrun.
  cbv zeta in Hrun. fold c in Hrun.
  assert (Hk : p_kept c = []) by exact Hkept.
  assert (Hho : p_has_outer c = false) by (unfold p_has_outer; now rewrite Hk).
  exists (p_reduce_op c), (p_state c s),
    (partition_ops operand (next_value s) shape), (p_root_ops c),
    (p_inner_body c), (p_reduce_block c), (p_result c), (p_zero c),
    (lower (axes_bounds (pc_n c) (p_reduced c))),
    (upper (axes_bounds (pc_n c) (p_reduced c))),
    (step (axes_bounds (pc_n c) (p_reduced c))), (p_init c), (p_elem c),
    (p_indices c).
  split; [ exact Hrun | ].
  split.
  { rewrite partition_dims_run. cbv zeta. rewrite Hkept. reflexivity. }
  split; [ now apply filter_partition_ops | ].
  split; [ now apply filter_partition_ops | ].
  assert (Hroot :
    p_root_ops c
    = partition_ops operand (next_value s) shape
      ++ [LoadOp (p_init c) init_buf [];
          ParallelOp [p_result c]
            (lower (axes_bounds (pc_n c) (p_reduced c)))
            (upper (axes_bounds (pc_n c) (p_reduced c)))
            (step (axes_bounds (pc_n c) (p_reduced c))) [p_init c]
            (length (blocks s));
          ConstantIndexOp (p_zero c) 0;
          StoreOp (p_result c) out [p_zero c]]).
  { unfold p_root_ops. rewrite Hho.
    unfold p_inner_loop, p_store, p_out_indices, p_inner_body_id.
    rewrite Hho. cbn [pc_operand pc_init_buf pc_out pc_nb pc_shape pc_n c app].
    now rewrite Nat.add_0_r. }
  assert (Hinner :
    b_ops (p_inner_body c)
    = [LoadOp (p_elem c) operand (p_indices c);
       ReduceOp (p_elem c) (length (blocks s) + 1); YieldOp []]).
  { unfold p_inner_body, p_inner_body_id. rewrite Hho.
    cbn [b_ops pc_operand pc_nb c]. now rewrite Nat.add_0_r. }
  split; [ exact Hroot | ].
  split; [ exact Hinner | ].
  split; [ reflexivity | ].
  split.
  { unfold p_reduce_op, p_inner_body_id. rewrite Hho.
    cbn [red_body pc_nb c]. now rewrite Nat.add_0_r. }
  split.
  { unfold p_state, p_new_blocks. cbn [blocks]. now rewrite Hho. }
  cbv zeta. rewrite Hroot, Hinner.
  rewrite !List.filter_app.
  rewrite !filter_partition_ops by reflexivity.
  cbn [p_reduce_block b_ops List.filter is_parallel is_store app].
  split; [ reflexivity | ]. split; [ reflexivity | ].
  apply in_or_app. right. cbn. tauto.
Qed.

(** C5.  A plain reduction whose number of outputs is not one is declined:
    [matchAndRewrite] returns [failure()] in the state it was called in, so
    that no operation has been created, nothing has been scheduled for
    replacement and no diagnostic has been emitted. *)
Theorem variadic_reduce_declined op s :
  length (r_out op) <> 1 ->
  ReduceOpConverter_matchAndRewrite op s = Ok failure s.
Proof.
  intros Hn. unfold ReduceOpConverter_matchAndRewrite.
  destruct (Nat.eqb_spec (length (r_out op)) 1) as [Heq | Hne].
  - contradiction.
  - reflexivity.
Qed.

(** C2.  The transplanter allocates two cells, the first fresh values of
    the run, stores the reduction block's two arguments into them, clones
    the operations of the source body but its terminator, in order, under
    the mapping that sends the body's element parameter to the first cell
    and both its accumulator and its result parameter to the second, then
    loads the second cell and returns the loaded value from the reduction
    block. *)
Theorem transplant_reduction_body reduce_op lhlo_block s
    elem acc e_arg a_in r_out shape_e ety_e shape_a ety_a :
  red_args reduce_op = [elem; acc] ->
  lb_args lhlo_block = [e_arg; a_in; r_out] ->
  v_ty e_arg = MemRefTy shape_e ety_e ->
  v_ty a_in = MemRefTy shape_a ety_a ->
  NoDup [v_id e_arg; v_id a_in; v_id r_out] ->
  let n := next_value s in
  let elem_buf := mkValue n (v_ty e_arg) in
  let acc_buf := mkValue (n + 1) (v_ty a_in) in
  let mapping := map_values ∅ [e_arg; a_in; r_out] [elem_buf; acc_buf; acc_buf] in
  let body := without_terminator (lb_ops lhlo_block) in
  let cloned := cloned_ops (n + 2) mapping body in
  let acc_result := mkValue (n + 2 + results_count body) ety_a in
  exists s',
    ConvertToReductionOperator reduce_op lhlo_block s = Ok tt s'
    /\ blocks s'
       = insert_at (red_body reduce_op) 0
           ([AllocOp elem_buf; StoreOp elem elem_buf [];
             AllocOp acc_buf; StoreOp acc acc_buf []]
            ++ cloned
            ++ [LoadOp acc_result acc_buf []; ReduceReturnOp acc_result])
           (blocks s)
    /\ length cloned = length (lb_ops lhlo_block) - 1
    /\ lookupOrDefault mapping e_arg = elem_buf
    /\ lookupOrDefault mapping a_in = acc_buf
    /\ lookupOrDefault mapping r_out = acc_buf.
Proof.
  intros Hargs Hlb He Ha Hnd n elem_buf acc_buf mapping body cloned acc_result.
  eexists. split.
  { eapply (ConvertToReductionOperator_run reduce_op lhlo_block s elem acc
              e_arg a_in [r_out] ety_a Hargs Hlb).
    - now rewrite He.
    - now rewrite Ha.
    - now rewrite Ha. }
  autorewrite with rewriter_state. rewrite Hlb.
  split; [ reflexivity | ].
  split.
  { subst cloned body. rewrite length_cloned_ops. unfold without_terminator.
    destruct (lb_ops lhlo_block) as [ | x l ] using rev_ind; [ reflexivity | ].
    rewrite removelast_last, length_app. cbn. lia. }
  apply body_mapping_lookup. exact Hnd.
Qed.

Lemma values_from_two n ty1 ty2 :
  values_from n [ty1; ty2] = [mkValue (n + 0) ty1; mkValue (n + 1) ty2].
Proof. reflexivity. Qed.

(** ** Diagnostics do not steer the lowering *)

Lemma dp_ret {A} (a : A) : diag_parametric (ret a).
Proof. intros s ds. reflexivity. Qed.

Lemma dp_deref {A} (o : option A) : diag_parametric (deref o).
Proof. intros s ds. now destruct o. Qed.

Lemma dp_bind {A B} (m : M A) (k : A -> M B) :
  diag_parametric m -> (forall a, diag_parametric (k a)) ->
  diag_parametric (bind m k).
Proof.
  intros Hm Hk s ds. unfold bind. rewrite Hm.
  destruct (m s) as [ a s' | s' ]; [ apply Hk | reflexivity ].
Qed.

Lemma dp_insert_op op : diag_parametric (insert_op op).
Proof. intros s ds. reflexivity. Qed.
Lemma dp_fresh ty : diag_parametric (fresh ty).
Proof. intros s ds. reflexivity. Qed.
Lemma dp_fresh_values tys : diag_parametric (fresh_values tys).
Proof. intros s ds. reflexivity. Qed.
Lemma dp_new_block args ops : diag_parametric (new_block args ops).
Proof. intros s ds. reflexivity. Qed.
Lemma dp_setInsertionPointToStart b :
  diag_parametric (setInsertionPointToStart b).
Proof. intros s ds. reflexivity. Qed.
Lemma dp_append_op b op : diag_parametric (append_op b op).
Proof. intros s ds. reflexivity. Qed.
Lemma dp_replaceOp op : diag_parametric (replaceOp op).
Proof. intros s ds. reflexivity. Qed.

Create HintDb dp discriminated.
#[local] Hint Resolve dp_ret dp_deref dp_insert_op dp_fresh dp_fresh_values
  dp_new_block dp_setInsertionPointToStart dp_append_op dp_replaceOp : dp.

(** Straight-line code built from the primitives. *)
Ltac dp_steps :=
  repeat first
    [ solve [ auto with dp ]
    | apply dp_bind; [ | intros ? ]
    | match goal with
      | |- diag_parametric (match ?x with _ => _ end) => destruct x
      end ].

Lemma dp_create_ConstantIndexOp c : diag_parametric (create_ConstantIndexOp c).
Proof. unfold create_ConstantIndexOp. dp_steps. Qed.
Lemma dp_create_ConstantOp ty c : diag_parametric (create_ConstantOp ty c).
Proof. unfold create_ConstantOp. dp_steps. Qed.
Lemma dp_create_DimOp m i : diag_parametric (create_DimOp m i).
Proof. unfold create_DimOp. dp_steps. Qed.
Lemma dp_create_AllocOp ty : diag_parametric (create_AllocOp ty).
Proof. unfold create_AllocOp. dp_steps. Qed.
Lemma dp_create_LoadOp m idx : diag_parametric (create_LoadOp m idx).
Proof. unfold create_LoadOp. dp_steps. Qed.
Lemma dp_create_StoreOp v m idx : diag_parametric (create_StoreOp v m idx).
Proof. unfold create_StoreOp. dp_steps. Qed.
Lemma dp_create_MulIOp a b : diag_parametric (create_MulIOp a b).
Proof. unfold create_MulIOp. dp_steps. Qed.
Lemma dp_create_SubIOp a b : diag_parametric (create_SubIOp a b).
Proof. unfold create_SubIOp. dp_steps. Qed.
Lemma dp_create_AddIOp a b : diag_parametric (create_AddIOp a b).
Proof. unfold create_AddIOp. dp_steps. Qed.
Lemma dp_create_CmpIOp p a b : diag_parametric (create_CmpIOp p a b).
Proof. unfold create_CmpIOp. dp_steps. Qed.
Lemma dp_create_AndOp a b : diag_parametric (create_AndOp a b).
Proof. unfold create_AndOp. dp_steps. Qed.
Lemma dp_create_ParallelOp lo up st inits :
  diag_parametric (create_ParallelOp lo up st inits).
Proof. unfold create_ParallelOp. dp_steps. Qed.
Lemma dp_create_ReduceOp v : diag_parametric (create_ReduceOp v).
Proof. unfold create_ReduceOp. dp_steps. Qed.
Lemma dp_create_ReduceReturnOp v : diag_parametric (create_ReduceReturnOp v).
Proof. unfold create_ReduceReturnOp. dp_steps. Qed.
Lemma dp_create_IfOp ty c : diag_parametric (create_IfOp ty c).
Proof. unfold create_IfOp. dp_steps. Qed.
Lemma dp_GetStaticOrDynamicDim v i dim :
  diag_parametric (GetStaticOrDynamicDim v i dim).
Proof.
  unfold GetStaticOrDynamicDim.
  destruct (dim =? kDynamicSize)%Z;
    [ apply dp_create_DimOp | apply dp_create_ConstantIndexOp ].
Qed.
Lemma dp_clone nested m : diag_parametric (clone nested m).
Proof. unfold clone. dp_steps. Qed.

#[local] Hint Resolve dp_create_ConstantIndexOp dp_create_ConstantOp
  dp_create_DimOp dp_create_AllocOp dp_create_LoadOp dp_create_StoreOp
  dp_create_MulIOp dp_create_SubIOp dp_create_AddIOp dp_create_CmpIOp
  dp_create_AndOp dp_create_ParallelOp dp_create_ReduceOp
  dp_create_ReduceReturnOp dp_create_IfOp dp_GetStaticOrDynamicDim
  dp_clone : dp.

Lemma dp_clone_body ops : forall m, diag_parametric (clone_body ops m).
Proof.
  induction ops as [ | nested rest IH ]; intros m; cbn [clone_body].
  - apply dp_ret.
  - apply dp_bind; [ apply dp_clone | intros [results m1]; apply IH ].
Qed.

Lemma dp_operand_index_loop operand shape oivs wivs strides padding :
  forall n i acc in_bounds,
  diag_parametric
    (operand_index_loop operand shape oivs wivs strides padding i n acc
       in_bounds).
Proof.
  induction n as [ | n IH ]; intros i acc in_bounds;
    cbn [operand_index_loop].
  - apply dp_ret.
  - repeat (apply dp_bind; [ solve [ auto with dp ] | intros ? ]).
    apply IH.
Qed.

Lemma dp_output_bounds out zero one shape : forall a parallel,
  diag_parametric (output_bounds out zero one a shape parallel).
Proof.
  induction shape as [ | dim rest IH ]; intros a parallel;
    cbn [output_bounds].
  - apply dp_ret.
  - apply dp_bind; [ auto with dp | intros ?; apply IH ].
Qed.

Lemma dp_window_bounds zero one wdims : forall window,
  diag_parametric (window_bounds zero one wdims window).
Proof.
  induction wdims as [ | dim rest IH ]; intros window; cbn [window_bounds].
  - apply dp_ret.
  - apply dp_bind; [ auto with dp | intros ?; apply IH ].
Qed.

#[local] Hint Resolve dp_clone_body dp_operand_index_loop dp_output_bounds
  dp_window_bounds : dp.

Lemma dp_ConvertToReductionOperator reduce_op lhlo_block :
  diag_parametric (ConvertToReductionOperator reduce_op lhlo_block).
Proof. unfold ConvertToReductionOperator. dp_steps. Qed.

Lemma dp_select_element_or_init op output_loop window_loop :
  diag_parametric (select_element_or_init op output_loop window_loop).
Proof. unfold select_element_or_init. cbv zeta. dp_steps. Qed.

Lemma dp_CreateParallelLoopsToTraverseOutputAndWindow op :
  diag_parametric (CreateParallelLoopsToTraverseOutputAndWindow op).
Proof.
  unfold CreateParallelLoopsToTraverseOutputAndWindow. cbv zeta. dp_steps.
Qed.

(** The rest of [matchAndRewrite] once the attributes have been checked. *)
Lemma dp_after_checks op output_loop window_loop :
  diag_parametric
    (bind (select_element_or_init op output_loop window_loop)
       (fun reduce_op =>
          bind (ConvertToReductionOperator reduce_op (rw_body op))
            (fun _ => bind (replaceOp (rw_id op)) (fun _ => ret success)))).
Proof.
  apply dp_bind; [ apply dp_select_element_or_init | intros r ].
  apply dp_bind; [ apply dp_ConvertToReductionOperator | intros _ ].
  apply dp_bind; [ apply dp_replaceOp | intros _; apply dp_ret ].
Qed.

Lemma set_diags_id s : set_diags (diags s) s = s.
Proof. now destruct s. Qed.

Lemma dp_final_diags {A} (m : M A) s :
  diag_parametric m -> diags (final_state (m s)) = diags s.
Proof.
  intros Hm. pose proof (Hm s (diags s)) as H. rewrite set_diags_id in H.
  destruct (m s) as [ a s' | s' ]; cbn [final_state];
    injection H as H; rewrite H at 1; reflexivity.
Qed.

Lemma dp_forget {A} (m : M A) s ds :
  diag_parametric m ->
  forget_diags (m (set_diags ds s)) = forget_diags (m s).
Proof.
  intros Hm. rewrite Hm. unfold forget_diags, outcome_map.
  now destruct (m s).
Qed.

Lemma matchAndRewrite_window_unfold op s :
  ReduceWindowOpConverter_matchAndRewrite op s
  = match CreateParallelLoopsToTraverseOutputAndWindow op s with
    | Ok (output_loop, window_loop) s0 =>
        bind (select_element_or_init op output_loop window_loop)
          (fun reduce_op =>
             bind (ConvertToReductionOperator reduce_op (rw_body op))
               (fun _ => bind (replaceOp (rw_id op)) (fun _ => ret success)))
          (emit_diags (attribute_diagnostics op)
             (at_start (par_body window_loop) s0))
    | Undefined s0 => Undefined s0
    end.
Proof.
  unfold ReduceWindowOpConverter_matchAndRewrite,
    ReduceWindow_CreateReduceOpInNestedParallelLoops.
  unfold bind at 1.
  destruct (CreateParallelLoopsToTraverseOutputAndWindow op s)
    as [ [output_loop window_loop] s0 | s0 ]; [ | reflexivity ].
  unfold bind at 1 2 3.
  rewrite setInsertionPointToStart_run, check_attributes_run.
  reflexivity.
Qed.

Lemma emit_diags_set_diags ds s :
  emit_diags ds s = set_diags (diags s ++ ds) s.
Proof. reflexivity. Qed.

Lemma attribute_diagnostics_dilated op :
  hasValue (rw_base_dilations op) || hasValue (rw_window_dilations op) = true ->
  attribute_diagnostics op
  = attribute_diagnostics (without_dilations op)
    ++ [Remark (rw_id op) dilation_msg].
Proof.
  intros H. unfold attribute_diagnostics, without_dilations.
  cbn [rw_window_strides rw_padding rw_base_dilations rw_window_dilations
       rw_id hasValue orb].
  rewrite H. now rewrite app_nil_r, <- app_assoc.
Qed.

(** C9.  Dilation attributes are reported by one remark and are otherwise
    without effect: the result of [matchAndRewrite] and the whole rewriter
    state but the diagnostics are those of the same operation without its
    dilation attributes, and the diagnostics are those of that operation
    followed by the remark. *)
Theorem dilations_ignored op s out_shape out_ety init_ety :
  v_ty (rw_out op) = MemRefTy out_shape out_ety ->
  getElementType (v_ty (rw_init_value op)) = Some init_ety ->
  ip_block s < length (blocks s) ->
  hasValue (rw_base_dilations op) || hasValue (rw_window_dilations op) = true ->
  forget_diags (ReduceWindowOpConverter_matchAndRewrite op s)
  = forget_diags
      (ReduceWindowOpConverter_matchAndRewrite (without_dilations op) s)
  /\ diags (final_state (ReduceWindowOpConverter_matchAndRewrite op s))
     = diags (final_state
                (ReduceWindowOpConverter_matchAndRewrite
                   (without_dilations op) s))
       ++ [Remark (rw_id op) dilation_msg].
Proof.
  intros Hout Hinit Hip Hdil.
  rewrite !matchAndRewrite_window_unfold.
  change (CreateParallelLoopsToTraverseOutputAndWindow (without_dilations op) s)
    with (CreateParallelLoopsToTraverseOutputAndWindow op s).
  rewrite (CreateParallelLoopsToTraverseOutputAndWindow_run op s out_shape
             out_ety init_ety Hout Hinit Hip).
  cbv zeta. cbn [par_body].
  match goal with
  | |- context [at_start _ ?st] => set (s0 := st)
  end.
  match goal with
  | |- context [bind (select_element_or_init op ?ol ?wl) ?k] =>
      set (T := bind (select_element_or_init op ol wl) k);
      assert (HT : diag_parametric T) by apply dp_after_checks
  end.
  change (bind (select_element_or_init (without_dilations op) _ _) _) with T.
  rewrite !emit_diags_set_diags.
  split.
  - now rewrite !dp_forget by exact HT.
  - rewrite !dp_final_diags by exact HT.
    cbn [diags set_diags]. rewrite (attribute_diagnostics_dilated op Hdil).
    now rewrite app_assoc.
Qed.

Lemma select_missing_attribute op output_loop window_loop s :
  rw_window_strides op = None \/ rw_padding op = None ->
  select_element_or_init op output_loop window_loop s = Undefined s.
Proof.
  intros Hmissing. unfold select_element_or_init. cbv zeta.
  unfold bind, deref.
  destruct (cast_MemRefType (v_ty (rw_operand op))) as [ ty | ];
    [ | reflexivity ].
  destruct (getShape ty) as [ shape | ]; [ | reflexivity ].
  destruct (rw_window_strides op) as [ strides | ]; [ | reflexivity ].
  destruct (rw_padding op) as [ padding | ]; [ | reflexivity ].
  destruct Hmissing; discriminate.
Qed.

(** C7.  When the window strides or the padding are missing, the converter
    emits the operation error and goes on: the remaining checks still run,
    so that the diagnostics of the run are exactly those of the three
    checks, and the run does not return [failure()] but reaches the reads
    of the attributes, where it leaves defined behaviour. *)
Theorem missing_attributes_reported op s out_shape out_ety init_ety :
  v_ty (rw_out op) = MemRefTy out_shape out_ety ->
  getElementType (v_ty (rw_init_value op)) = Some init_ety ->
  ip_block s < length (blocks s) ->
  rw_window_strides op = None \/ rw_padding op = None ->
  (exists msg, In (OpError (rw_id op) msg) (attribute_diagnostics op))
  /\ diags (final_state (ReduceWindowOpConverter_matchAndRewrite op s))
     = diags s ++ attribute_diagnostics op
  /\ declined (ReduceWindowOpConverter_matchAndRewrite op s) = false
  /\ is_undefined (ReduceWindowOpConverter_matchAndRewrite op s) = true.
Proof.
  intros Hout Hinit Hip Hmissing.
  split.
  { unfold attribute_diagnostics.
    destruct Hmissing as [H | H]; rewrite H; cbn [hasValue].
    - exists no_strides_msg. now left.
    - exists no_padding_msg. apply in_or_app. right. now left. }
  rewrite matchAndRewrite_window_unfold.
  rewrite (CreateParallelLoopsToTraverseOutputAndWindow_run op s out_shape
             out_ety init_ety Hout Hinit Hip).
  cbv zeta. cbn [par_body].
  erewrite bind_Undefined by (apply select_missing_attribute; exact Hmissing).
  cbn [final_state declined is_undefined].
  autorewrite with rewriter_state. cbn [diags].
  repeat split; reflexivity.
Qed.

(** C6.  The windowed converter has no declining path: [matchAndRewrite]
    never returns [failure()].  On the windowed reduction of the source's
    example stripped of its [window_strides] attribute it emits the
    operation error and then reads the absent attribute. *)
Theorem windowed_converter_never_declines :
  (forall op s,
     declined (ReduceWindowOpConverter_matchAndRewrite op s) = false)
  /\ ReduceWindowOpConverter_matchAndRewrite example_reduce_window_no_strides
       example_state
     = Undefined
         (final_state
            (ReduceWindowOpConverter_matchAndRewrite
               example_reduce_window_no_strides example_state))
  /\ diags (final_state
              (ReduceWindowOpConverter_matchAndRewrite
                 example_reduce_window_no_strides example_state))
     = [OpError 7 no_strides_msg].
Proof.
  split.
  { intros op s. rewrite matchAndRewrite_window_unfold.
    destruct (CreateParallelLoopsToTraverseOutputAndWindow op s)
      as [ [output_loop window_loop] s0 | s0 ]; [ | reflexivity ].
    unfold bind, replaceOp, ret.
    destruct (select_element_or_init _ _ _ _) as [ r s1 | s1 ];
      [ | reflexivity ].
    destruct (ConvertToReductionOperator _ _ _) as [ [] s2 | s2 ];
      reflexivity. }
  split; vm_compute; reflexivity.
Qed.

(** * The properties at the examples of the source *)

(** C1 at the windowed reduction of lines 240-254: the last window element
    of the last output coordinate has index 112 on both axes, which is in
    the padding, and the initial value is fed without any load. *)
Lemma window_in_bounds_feeds_neutral_witness :
  exists output_loop window_loop reduce_op s0 s1 body init st,
    CreateParallelLoopsToTraverseOutputAndWindow example_reduce_window
      example_state
    = Ok (output_loop, window_loop) s0
    /\ ReduceWindow_CreateReduceOpInNestedParallelLoops example_reduce_window
         output_loop window_loop s0
       = Ok reduce_op s1
    /\ blocks s1 !! par_body window_loop = Some body
    /\ run_ops 1 (blocks s1) static_runtime (b_ops body)
         (mkExec
            (bind_values (par_ivs output_loop) (coordinates 64 [55; 55]%Z)
               (bind_values (par_ivs window_loop) (coordinates 64 [2; 2]%Z)
                  {[ v_id init := ElemVal 7 ]})) [] [])
       = Some (st, [])
    /\ fed st = [ElemVal 7]
    /\ loads st = [].
Proof.
  destruct (window_in_bounds_feeds_neutral example_reduce_window example_state
              [112; 112]%Z f32 [56; 56]%Z f32 f32 [2; 2]%Z
              [(0, 1); (0, 1)]%Z)
    as (output_loop & window_loop & reduce_op & s0 & s1 & body & init
        & HD & HE & Hbody & _ & _ & Hsem);
    try reflexivity; [ cbn; lia | ].
  destruct (Hsem static_runtime [55; 55]%Z [2; 2]%Z 7%Z 0)
    as (_ & st & Hrun & Hfed & Hloads); try reflexivity.
  { intros j Hj.
    destruct j as [ | [ | j ] ];
      [ vm_compute; split; [ discriminate | reflexivity ]
      | vm_compute; split; [ discriminate | reflexivity ]
      | exfalso; cbn in Hj; lia ]. }
  exists output_loop, window_loop, reduce_op, s0, s1, body, init, st.
  repeat split; assumption.
Defined.

(** C2 at the maximum body. *)
Lemma transplant_reduction_body_witness :
  exists s',
    ConvertToReductionOperator
      (mkReduceHandle 0 [mkValue 20 f32; mkValue 21 f32]) maximum_body
      example_state
    = Ok tt s'
    /\ blocks s'
       = [mkBlock []
            [AllocOp (scalar_buf 10);
             StoreOp (mkValue 20 f32) (scalar_buf 10) [];
             AllocOp (scalar_buf 11);
             StoreOp (mkValue 21 f32) (scalar_buf 11) [];
             LhloOp "xla_lhlo.maximum"
               [scalar_buf 10; scalar_buf 11; scalar_buf 11] [];
             LoadOp (mkValue 12 f32) (scalar_buf 11) [];
             ReduceReturnOp (mkValue 12 f32);
             YieldOp []]].
Proof.
  destruct (transplant_reduction_body
              (mkReduceHandle 0 [mkValue 20 f32; mkValue 21 f32]) maximum_body
              example_state (mkValue 20 f32) (mkValue 21 f32)
              (scalar_buf 3) (scalar_buf 4) (scalar_buf 5) [] f32 [] f32)
    as (s' & Hrun & Hblocks & _); try reflexivity.
  { apply (bool_decide_unpack _). vm_compute. exact I. }
  exists s'. split; [ exact Hrun | ].
  rewrite Hblocks. vm_compute. reflexivity.
Defined.

(** C3 at the reduction of lines 83-87: the element is loaded at
    [%i, %j, %k]. *)
Lemma operand_coordinates_interleave_witness :
  exists reduce_op s' rest,
    CreateReduceOpInNestedParallelLoops example_reduce example_state
    = Ok reduce_op s'
    /\ blocks s' !! 2
       = Some (mkBlock [mkValue 22 IndexTy]
                 (LoadOp (mkValue 24 f32) example_operand
                    [mkValue 20 IndexTy; mkValue 22 IndexTy;
                     mkValue 21 IndexTy]
                  :: rest)).
Proof.
  destruct (operand_coordinates_interleave example_reduce example_state
              example_operand [] example_out [] (scalar_buf 1) []
              [100; 10; 5]%Z f32 f32)
    as (reduce_op & s' & inner_body & outer_ivs & inner_ivs & elem & indices
        & rest & Hrun & _);
    try reflexivity; [ cbn; lia | ].
  exists reduce_op, s'.
  revert Hrun. vm_compute. intros Hrun. injection Hrun as <- <-.
  eexists. split; reflexivity.
Defined.

(** C4 at a reduction of a one-dimensional buffer along its dimension. *)
Lemma reduce_over_all_dimensions_witness :
  exists reduce_op s' inner_body reduce_block,
    CreateReduceOpInNestedParallelLoops example_reduce_all example_state
    = Ok reduce_op s'
    /\ blocks s'
       = [mkBlock []
            [ConstantIndexOp (mkValue 10 IndexTy) 10;
             ConstantIndexOp (mkValue 11 IndexTy) 0;
             ConstantIndexOp (mkValue 12 IndexTy) 1;
             LoadOp (mkValue 13 f32) (scalar_buf 1) [];
             ParallelOp [mkValue 15 f32] [mkValue 11 IndexTy]
               [mkValue 10 IndexTy] [mkValue 12 IndexTy] [mkValue 13 f32] 1;
             ConstantIndexOp (mkValue 16 IndexTy) 0;
             StoreOp (mkValue 15 f32) (mkValue 2 (MemRefTy [1]%Z f32))
               [mkValue 16 IndexTy];
             YieldOp []];
          inner_body; reduce_block].
Proof.
  destruct (reduce_over_all_dimensions example_reduce_all example_state
              (mkValue 0 (MemRefTy [10]%Z f32)) []
              (mkValue 2 (MemRefTy [1]%Z f32)) [] (scalar_buf 1) []
              [10]%Z f32 f32)
    as (reduce_op & s' & setup & root_ops & inner_body & reduce_block
        & result & zero & lower & upper & step & init & elem & indices
        & Hrun & _);
    try reflexivity; [ cbn; lia | ].
  exists reduce_op, s'.
  revert Hrun. vm_compute. intros Hrun. injection Hrun as <- <-.
  do 2 eexists. split; reflexivity.
Defined.

(** C5 at the reduction with two outputs. *)
Lemma variadic_reduce_declined_witness :
  length (r_out example_reduce_variadic) <> 1
  /\ ReduceOpConverter_matchAndRewrite example_reduce_variadic example_state
     = Ok failure example_state.
Proof.
  split; [ discriminate | apply variadic_reduce_declined; discriminate ].
Defined.

(** C7 at the windowed reduction without strides. *)
Lemma missing_attributes_reported_witness :
  rw_window_strides example_reduce_window_no_strides = None
  /\ diags (final_state
              (ReduceWindowOpConverter_matchAndRewrite
                 example_reduce_window_no_strides example_state))
     = [OpError 7 no_strides_msg]
  /\ declined
       (ReduceWindowOpConverter_matchAndRewrite
          example_reduce_window_no_strides example_state)
     = false.
Proof.
  destruct (missing_attributes_reported example_reduce_window_no_strides
              example_state [56; 56]%Z f32 f32)
    as (_ & Hdiags & Hdecl & _);
    try reflexivity; [ cbn; lia | now left | ].
  split; [ reflexivity | ]. split; [ exact Hdiags | exact Hdecl ].
Defined.

(** C9 at the windowed reduction with a window dilation. *)
Lemma dilations_ignored_witness :
  forget_diags
    (ReduceWindowOpConverter_matchAndRewrite example_reduce_window_dilated
       example_state)
  = forget_diags
      (ReduceWindowOpConverter_matchAndRewrite example_reduce_window
         example_state)
  /\ diags (final_state
              (ReduceWindowOpConverter_matchAndRewrite
                 example_reduce_window_dilated example_state))
     = [Remark 7 dilation_msg].
Proof.
  destruct (dilations_ignored example_reduce_window_dilated example_state
              [56; 56]%Z f32 f32)
    as (Hir & Hdiags); try reflexivity; [ cbn; lia | ].
  split; [ exact Hir | ].
  rewrite Hdiags. vm_compute. reflexivity.
Defined.

(** * What the converters take for granted *)

(** ** Reading a run backwards *)

Lemma bind_Ok_inv {A B} (m : M A) (k : A -> M B) s b s' :
  bind m k s = Ok b s' -> exists a s1, m s = Ok a s1 /\ k a s1 = Ok b s'.
Proof.
  unfold bind. destruct (m s) as [ a s1 | s1 ]; [ eauto | discriminate ].
Qed.

Lemma deref_Ok_inv {A} (o : option A) s a s' :
  deref o s = Ok a s' -> o = Some a /\ s' = s.
Proof.
  unfold deref. destruct o; intros H; [ | discriminate ].
  injection H as -> ->. auto.
Qed.

Lemma defined_iff {A} (o : Outcome A) :
  is_undefined o = false <-> exists a s, o = Ok a s.
Proof.
  destruct o as [ a s | s ]; cbn; split; eauto.
  - intros H. discriminate.
  - intros (a & s' & H). discriminate.
Qed.

(** The head of a run that returned did return. *)
Ltac invert_bind H a s1 Hm :=
  apply bind_Ok_inv in H as (a & s1 & Hm & H).
Ltac invert_deref H a Hm :=
  let s1 := fresh "s" in
  let Hs := fresh "Hs" in
  apply bind_Ok_inv in H as (a & s1 & Hm & H);
  apply deref_Ok_inv in Hm as [Hm Hs]; subst s1.
Ltac skip_bind H :=
  let a := fresh "r" in
  let s1 := fresh "s" in
  let Hm := fresh "Hm" in
  apply bind_Ok_inv in H as (a & s1 & Hm & H); clear Hm.

Lemma is_memref_cast t : is_memref t = true <-> cast_MemRefType t = Some t.
Proof. destruct t; cbn; split; congruence. Qed.

Lemma cast_is_memref t t' : cast_MemRefType t = Some t' -> is_memref t = true.
Proof. destruct t; cbn; congruence. Qed.

Lemma is_memref_inv t :
  is_memref t = true -> exists shape ety, t = MemRefTy shape ety.
Proof. destruct t; cbn; try discriminate. eauto. Qed.

Lemma getElementType_is_memref t ety :
  getElementType t = Some ety -> is_memref t = true.
Proof. destruct t; cbn; congruence. Qed.

Lemma getShape_inv t shape :
  getShape t = Some shape -> exists ety, t = MemRefTy shape ety.
Proof. destruct t; cbn; try discriminate. intros [= ->]. eauto. Qed.

(** ** The transplanter *)

Lemma ConvertToReductionOperator_Ok_inv reduce_op lhlo_block s u s' :
  ConvertToReductionOperator reduce_op lhlo_block s = Ok u s' ->
  body_well_formed lhlo_block = true.
Proof.
  unfold ConvertToReductionOperator. intros H.
  skip_bind H.
  invert_deref H elem_arg He.
  invert_deref H elem_ty Hety.
  skip_bind H. skip_bind H. skip_bind H.
  invert_deref H acc_arg Ha.
  invert_deref H acc_ty Haty.
  clear H. unfold body_well_formed.
  destruct (lb_args lhlo_block) as [ | e_arg [ | a_arg more ] ]; try discriminate.
  cbn in He, Ha. injection He as ->. injection Ha as ->.
  now rewrite (cast_is_memref _ _ Hety), (cast_is_memref _ _ Haty).
Qed.

Lemma cloned_ops_no_terminator ops : forall n m,
  forallb (fun nested => negb (is_lhlo_terminator nested)) ops = true ->
  forallb (fun op => negb (is_terminator op)) (cloned_ops n m ops) = true.
Proof.
  induction ops as [ | nested ops IH ]; intros n m H; [ reflexivity | ].
  cbn [forallb] in H. apply andb_true_iff in H as [Hn Hops].
  cbn [cloned_ops forallb is_terminator]. rewrite IH by exact Hops.
  unfold is_lhlo_terminator in Hn. now rewrite Hn.
Qed.

Lemma filter_lhlo_cloned_ops ops : forall n m,
  List.filter is_lhlo (cloned_ops n m ops) = cloned_ops n m ops.
Proof.
  induction ops as [ | nested ops IH ]; intros n m; [ reflexivity | ].
  cbn [cloned_ops List.filter is_lhlo]. now rewrite IH.
Qed.

(** What a transplant that goes through leaves in the reduction block. *)
Lemma ConvertToReductionOperator_defined reduce_op lhlo_block s elem acc :
  red_args reduce_op = [elem; acc] ->
  body_well_formed lhlo_block = true ->
  exists body_ops res s',
    ConvertToReductionOperator reduce_op lhlo_block s = Ok tt s'
    /\ blocks s'
       = insert_at (red_body reduce_op) 0 (body_ops ++ [ReduceReturnOp res])
           (blocks s)
    /\ (exists elem_buf acc_buf n m,
          body_ops
          = [AllocOp elem_buf; StoreOp elem elem_buf [];
             AllocOp acc_buf; StoreOp acc acc_buf []]
            ++ cloned_ops n m (without_terminator (lb_ops lhlo_block))
            ++ [LoadOp res acc_buf []])
    /\ diags s' = diags s /\ replaced s' = replaced s.
Proof.
  intros Hargs Hwf. unfold body_well_formed in Hwf.
  destruct (lb_args lhlo_block) as [ | e [ | a more ] ] eqn:Hlb;
    try discriminate.
  apply andb_true_iff in Hwf as [He Ha].
  destruct (is_memref_inv _ Ha) as (shape_a & ety_a & Hta).
  pose proof (ConvertToReductionOperator_run reduce_op lhlo_block s elem acc e
                a more ety_a Hargs Hlb) as Hrun.
  cbv zeta in Hrun.
  match type of Hrun with
  | _ -> _ -> _ -> _ = Ok tt (emit_ops _ (?pre ++ ?cl ++ [?ld; ?rr]) _) =>
      exists (pre ++ cl ++ [ld])
  end.
  eexists. eexists.
  split; [ | split; [ | split ] ].
  - rewrite Hrun.
    + reflexivity.
    + now apply is_memref_cast.
    + now apply is_memref_cast.
    + now rewrite Hta.
  - autorewrite with rewriter_state. rewrite <- !app_assoc. reflexivity.
  - do 4 eexists. reflexivity.
  - now autorewrite with rewriter_state.
Qed.

(** The operations of a transplanted body: among them the copies are the
    only operations of the LHLO dialect, there is one per operation of the
    body in front of its terminator, and none is a terminator when the
    body holds its terminator at its end only. *)
Lemma transplanted_body_ops lhlo_block elem acc res elem_buf acc_buf n m :
  let body_ops :=
    [AllocOp elem_buf; StoreOp elem elem_buf [];
     AllocOp acc_buf; StoreOp acc acc_buf []]
    ++ cloned_ops n m (without_terminator (lb_ops lhlo_block))
    ++ [LoadOp res acc_buf []] in
  length (List.filter is_lhlo body_ops) = length (lb_ops lhlo_block) - 1
  /\ (body_terminated lhlo_block = true ->
      forallb (fun op => negb (is_terminator op)) body_ops = true).
Proof.
  cbv zeta. split.
  - rewrite !List.filter_app, filter_lhlo_cloned_ops.
    cbn [List.filter is_lhlo app]. rewrite app_nil_r, length_cloned_ops.
    unfold without_terminator.
    destruct (lb_ops lhlo_block) as [ | x l ] using rev_ind; [ reflexivity | ].
    rewrite removelast_last, length_app. cbn. lia.
  - intros Hterm. unfold body_terminated in Hterm.
    apply andb_true_iff in Hterm as [_ Hbody].
    rewrite !forallb_app, cloned_ops_no_terminator by exact Hbody.
    reflexivity.
Qed.

(** X1.  Given the two arguments of the [loop.reduce] block, the
    transplanter stays within defined behaviour exactly when the body block
    has at least two arguments and the first two are buffers: it reads
    [getArgument(0)] and [getArgument(1)] and casts their types without a
    check, and nothing else can go wrong. *)
Theorem transplanter_defined_iff reduce_op lhlo_block s elem acc :
  red_args reduce_op = [elem; acc] ->
  is_undefined (ConvertToReductionOperator reduce_op lhlo_block s) = false
  <-> body_well_formed lhlo_block = true.
Proof.
  intros Hargs. rewrite defined_iff. split.
  - intros (u & s' & H). now apply ConvertToReductionOperator_Ok_inv in H.
  - intros Hwf.
    destruct (ConvertToReductionOperator_defined reduce_op lhlo_block s elem
                acc Hargs Hwf) as (body_ops & res & s' & H & _).
    eauto.
Qed.

(** ** The plain converter *)

Lemma create_LoadOp_Ok_inv memref indices s res s' :
  create_LoadOp memref indices s = Ok res s' ->
  exists ety, getElementType (v_ty memref) = Some ety.
Proof.
  unfold create_LoadOp. intros H. invert_deref H ety Hety. eauto.
Qed.

Lemma CreateReduceOp_Ok_inv op s r s' :
  CreateReduceOpInNestedParallelLoops op s = Ok r s' ->
  exists operand more_operands out more_out init_buf more_init shape ety
         init_ety,
    r_operands op = operand :: more_operands
    /\ r_out op = out :: more_out
    /\ r_init_values op = init_buf :: more_init
    /\ v_ty operand = MemRefTy shape ety
    /\ getElementType (v_ty init_buf) = Some init_ety.
Proof.
  unfold CreateReduceOpInNestedParallelLoops. cbv zeta. intros H.
  invert_deref H operand Hop.
  invert_deref H out Hout.
  invert_deref H shape Hshape.
  invert_bind H bounds s1 Hpart. destruct bounds as [parallel reduce].
  invert_deref H init_buf Hinit.
  invert_bind H init s2 Hload.
  apply create_LoadOp_Ok_inv in Hload as [init_ety Hity].
  apply getShape_inv in Hshape as [ety Hty].
  destruct (r_operands op) as [ | operand' more_operands ];
    [ discriminate | injection Hop as -> ].
  destruct (r_out op) as [ | out' more_out ];
    [ discriminate | injection Hout as -> ].
  destruct (r_init_values op) as [ | init_buf' more_init ];
    [ discriminate | injection Hinit as -> ].
  exists operand, more_operands, out, more_out, init_buf, more_init, shape,
    ety, init_ety.
  repeat split; assumption.
Qed.

(** The whole of a plain conversion that goes through. *)
Lemma ReduceOpConverter_run op s operand more_operands out init_buf more_init
    shape ety init_ety :
  r_operands op = operand :: more_operands ->
  r_out op = [out] ->
  r_init_values op = init_buf :: more_init ->
  v_ty operand = MemRefTy shape ety ->
  getElementType (v_ty init_buf) = Some init_ety ->
  body_well_formed (r_body op) = true ->
  ip_block s < length (blocks s) ->
  let c := mkReduceCtx op (next_value s) (length (blocks s)) operand init_buf
             out shape ety init_ety in
  exists body_ops res s',
    ReduceOpConverter_matchAndRewrite op s = Ok success s'
    /\ blocks s'
       = insert_at (p_inner_body_id c + 1) 0
           (body_ops ++ [ReduceReturnOp res]) (blocks (p_state c s))
    /\ (exists elem buf_elem acc acc_buf n m,
          body_ops
          = [AllocOp buf_elem; StoreOp elem buf_elem [];
             AllocOp acc_buf; StoreOp acc acc_buf []]
            ++ cloned_ops n m (without_terminator (lb_ops (r_body op)))
            ++ [LoadOp res acc_buf []])
    /\ diags s' = diags s
    /\ replaced s' = replaced s ++ [r_id op].
Proof.
  intros Hops Hout Hinit Hty Hity Hbody Hip c.
  destruct (ConvertToReductionOperator_defined (p_reduce_op c) (r_body op)
              (p_state c s) (mkValue (v_id (p_elem c) + 1 + 0) ety)
              (mkValue (v_id (p_elem c) + 1 + 1) ety))
    as (body_ops & res & s1 & Hconv & Hblocks & Hnt & Hd & Hr);
    [ | exact Hbody | ].
  { unfold p_reduce_op, p_reduce_args. cbn [red_args].
    apply values_from_two. }
  exists body_ops, res. eexists.
  split; [ | split; [ | split; [ | split ] ] ].
  - unfold ReduceOpConverter_matchAndRewrite. rewrite Hout.
    cbn [length Nat.eqb negb].
    erewrite bind_Ok
      by (eapply (CreateReduceOpInNestedParallelLoops_run op s operand
                    more_operands out [] init_buf more_init shape ety
                    init_ety);
          eassumption).
    cbv beta. fold c.
    erewrite bind_Ok by exact Hconv.
    reflexivity.
  - cbn [blocks]. exact Hblocks.
  - destruct Hnt as (elem_buf & acc_buf & n & m & Hnt).
    do 6 eexists. exact Hnt.
  - cbn [diags]. exact Hd.
  - cbn [replaced]. now rewrite Hr.
Qed.

(** X2.  With the rewriter positioned in a block, and for [dimensions]
    that hold neither of the two values of [int] that [DenseSet<int>]
    reserves and cannot hold, the plain converter stays within defined
    behaviour exactly when the reduction has more or fewer than one output
    (it then declines) or has a first operand and a first initial value
    that are buffers and a body block whose first two arguments are
    buffers.  The type and rank of the output are never checked, nor is
    any other value of [dimensions]. *)
Theorem reduce_conversion_defined_iff op s :
  ip_block s < length (blocks s) ->
  no_reserved_key (r_dimensions op) = true ->
  is_undefined (ReduceOpConverter_matchAndRewrite op s) = false
  <-> length (r_out op) <> 1 \/ reduce_well_formed op = true.
Proof.
  intros Hip _. rewrite defined_iff.
  destruct (Nat.eqb_spec (length (r_out op)) 1) as [Hone | Hne].
  - split.
    + intros (res & s' & H). right.
      unfold ReduceOpConverter_matchAndRewrite in H.
      rewrite Hone in H. cbn [Nat.eqb negb] in H.
      invert_bind H r s1 Hcreate.
      invert_bind H u s2 Hconv.
      apply ConvertToReductionOperator_Ok_inv in Hconv.
      apply CreateReduceOp_Ok_inv in Hcreate
        as (operand & more_operands & out & more_out & init_buf & more_init
            & shape & ety & init_ety & Hops & Hout & Hinit & Hty & Hity).
      unfold reduce_well_formed. rewrite Hops, Hinit, Hty, Hconv.
      now rewrite (getElementType_is_memref _ _ Hity).
    + intros [Hne | Hwf]; [ contradiction | ].
      unfold reduce_well_formed in Hwf.
      destruct (r_operands op) as [ | operand more_operands ] eqn:Hops;
        [ discriminate | ].
      destruct (r_init_values op) as [ | init_buf more_init ] eqn:Hinit;
        [ discriminate | ].
      apply andb_true_iff in Hwf as [Hwf Hbody].
      apply andb_true_iff in Hwf as [Hop Hib].
      destruct (is_memref_inv _ Hop) as (shape & ety & Hty).
      destruct (is_memref_inv _ Hib) as (init_shape & init_ety & Hity).
      destruct (r_out op) as [ | out [ | out2 more_out ] ] eqn:Hout;
        try discriminate Hone.
      destruct (ReduceOpConverter_run op s operand more_operands out init_buf
                  more_init shape ety init_ety Hops Hout Hinit Hty)
        as (body_ops & res & s' & Hrun & _);
        [ now rewrite Hity | exact Hbody | exact Hip | ].
      eauto.
  - split.
    + intros _. now left.
    + intros _. unfold ReduceOpConverter_matchAndRewrite.
      destruct (Nat.eqb_spec (length (r_out op)) 1); [ contradiction | ].
      cbn [negb]. unfold ret. eauto.
Qed.

(** ** The windowed converter *)

Lemma operand_index_loop_Ok_inv xla_operand shape output_ivs window_ivs
    window_strides padding :
  forall n i operand_indices in_bounds s r s',
  operand_index_loop xla_operand shape output_ivs window_ivs window_strides
    padding i n operand_indices in_bounds s = Ok r s' ->
  forall j, i <= j < i + n ->
    j < length window_strides /\ j < length padding
    /\ j < length output_ivs /\ j < length window_ivs /\ j < length shape.
Proof.
  induction n as [ | n IH ]; intros i operand_indices in_bounds s r s' H j Hj;
    [ lia | ].
  cbn [operand_index_loop] in H.
  invert_deref H stride Hstride.
  invert_deref H pad Hpad.
  skip_bind H. skip_bind H.
  invert_deref H output_iv Hoiv.
  skip_bind H.
  invert_deref H window_iv Hwiv.
  skip_bind H. skip_bind H.
  invert_deref H dim Hdim.
  skip_bind H. skip_bind H. skip_bind H.
  destruct (Nat.eq_dec j i) as [-> | Hne].
  - repeat split; eapply lookup_lt_Some; eassumption.
  - eapply IH; [ exact H | lia ].
Qed.

Lemma CreateParallelLoops_Ok_inv op s r s' :
  CreateParallelLoopsToTraverseOutputAndWindow op s = Ok r s' ->
  exists out_shape out_ety init_ety,
    v_ty (rw_out op) = MemRefTy out_shape out_ety
    /\ getElementType (v_ty (rw_init_value op)) = Some init_ety.
Proof.
  unfold CreateParallelLoopsToTraverseOutputAndWindow. cbv zeta. intros H.
  invert_bind H init s1 Hload.
  apply create_LoadOp_Ok_inv in Hload as [init_ety Hity].
  skip_bind H. skip_bind H.
  invert_deref H out_shape Hshape.
  apply getShape_inv in Hshape as [out_ety Hout].
  eauto.
Qed.

Lemma select_element_or_init_Ok_inv op output_loop window_loop s r s' :
  select_element_or_init op output_loop window_loop s = Ok r s' ->
  exists shape ety strides padding,
    v_ty (rw_operand op) = MemRefTy shape ety
    /\ rw_window_strides op = Some strides
    /\ rw_padding op = Some padding
    /\ forall j, j < getNumLoops output_loop ->
         j < length strides /\ j < length padding
         /\ j < length (par_ivs output_loop)
         /\ j < length (par_ivs window_loop) /\ j < length shape.
Proof.
  unfold select_element_or_init. cbv zeta. intros H.
  invert_deref H operand_type Hcast.
  invert_deref H shape Hshape.
  invert_deref H strides Hstrides.
  invert_deref H padding Hpadding.
  skip_bind H.
  invert_bind H found s1 Hloop. clear H.
  destruct (v_ty (rw_operand op)) as [ | | | shape' ety ] eqn:Hty;
    try discriminate Hcast.
  injection Hcast as <-. cbn in Hshape. injection Hshape as ->.
  exists shape, ety, strides, padding.
  repeat split; try assumption;
    eapply (operand_index_loop_Ok_inv _ _ _ _ _ _ _ _ _ _ _ _ _ Hloop j);
    lia.
Qed.

Lemma at_least_of_below (rank len : nat) :
  (forall j, j < rank -> j < len) -> rank <= len.
Proof.
  intros H. destruct rank as [ | k ]; [ lia | ].
  specialize (H k ltac:(lia)). lia.
Qed.

(** The whole of a windowed conversion that goes through. *)
Lemma ReduceWindowOpConverter_run op s shape ety out_shape out_ety init_ety
    strides padding :
  v_ty (rw_operand op) = MemRefTy shape ety ->
  v_ty (rw_out op) = MemRefTy out_shape out_ety ->
  getElementType (v_ty (rw_init_value op)) = Some init_ety ->
  rw_window_strides op = Some strides ->
  rw_padding op = Some padding ->
  length out_shape <= length strides ->
  length out_shape <= length padding ->
  length out_shape <= length (rw_window_dimensions op) ->
  length out_shape <= length shape ->
  body_well_formed (rw_body op) = true ->
  ip_block s < length (blocks s) ->
  let c := mkWindowCtx op (next_value s) (length (blocks s)) shape ety
             out_shape init_ety strides padding in
  exists body_ops res s',
    ReduceWindowOpConverter_matchAndRewrite op s = Ok success s'
    /\ blocks s'
       = insert_at (wc_nb c + 4) 0 (body_ops ++ [ReduceReturnOp res])
           (blocks (w_state c s))
    /\ (exists elem buf_elem acc acc_buf n m,
          body_ops
          = [AllocOp buf_elem; StoreOp elem buf_elem [];
             AllocOp acc_buf; StoreOp acc acc_buf []]
            ++ cloned_ops n m (without_terminator (lb_ops (rw_body op)))
            ++ [LoadOp res acc_buf []])
    /\ diags s' = diags s ++ attribute_diagnostics op
    /\ replaced s' = replaced s ++ [rw_id op].
Proof.
  intros Hty Hout Hinit Hs Hp Hls Hlp Hlw Hlsh Hbody Hip c.
  destruct (window_nest_run op s shape ety out_shape out_ety init_ety strides
              padding Hty Hout Hinit Hs Hp Hls Hlp Hlw Hlsh Hip)
    as (s0 & HD & HE).
  fold c in HD, HE.
  destruct (ConvertToReductionOperator_defined (w_reduce_op c) (rw_body op)
              (w_state c s)
              (mkValue (w_base c + 1 + 8 * w_orank c + 2 + 0) ety)
              (mkValue (w_base c + 1 + 8 * w_orank c + 2 + 1) ety))
    as (body_ops & res & s1 & Hconv & Hblocks & Hnt & Hd & Hr);
    [ | exact Hbody | ].
  { unfold w_reduce_op, w_reduce_args. cbn [red_args].
    apply values_from_two. }
  exists body_ops, res. eexists.
  split; [ | split; [ | split; [ | split ] ] ].
  - unfold ReduceWindowOpConverter_matchAndRewrite.
    erewrite bind_Ok by exact HD. cbv beta iota.
    erewrite bind_Ok by exact HE. cbv beta.
    erewrite bind_Ok by exact Hconv.
    reflexivity.
  - cbn [blocks]. exact Hblocks.
  - destruct Hnt as (elem_buf & acc_buf & n & m & Hnt).
    do 6 eexists. exact Hnt.
  - cbn [diags]. exact Hd.
  - cbn [replaced]. now rewrite Hr.
Qed.

(** X3.  With the rewriter positioned in a block, the windowed converter
    stays within defined behaviour exactly when operand, initial value and
    output are buffers, [window_strides] and [padding] are present with an
    entry for every axis of the output, there are at least as many window
    dimensions and operand axes as output axes, and the first two arguments
    of the body block are buffers.  Each of these is read without a
    check. *)
Theorem windowed_conversion_defined_iff op s :
  ip_block s < length (blocks s) ->
  is_undefined (ReduceWindowOpConverter_matchAndRewrite op s) = false
  <-> reduce_window_well_formed op = true.
Proof.
  intros Hip. rewrite defined_iff. split.
  - intros (res & s' & H).
    unfold ReduceWindowOpConverter_matchAndRewrite in H.
    invert_bind H loops s0 Hloops. destruct loops as [output_loop window_loop].
    invert_bind H reduce_op s1 Hcreate.
    invert_bind H u s2 Hconv. clear H.
    apply ConvertToReductionOperator_Ok_inv in Hconv.
    destruct (CreateParallelLoops_Ok_inv _ _ _ _ Hloops)
      as (out_shape & out_ety & init_ety & Hout & Hinit).
    rewrite (CreateParallelLoopsToTraverseOutputAndWindow_run op s out_shape
               out_ety init_ety Hout Hinit Hip) in Hloops.
    cbv zeta in Hloops. injection Hloops as <- <- _.
    unfold ReduceWindow_CreateReduceOpInNestedParallelLoops in Hcreate.
    skip_bind Hcreate. skip_bind Hcreate.
    apply select_element_or_init_Ok_inv in Hcreate
      as (shape & ety & strides & padding & Hty & Hs & Hp & Hlen).
    unfold getNumLoops in Hlen. cbn [par_step par_ivs] in Hlen.
    rewrite length_map, !length_index_values in Hlen.
    unfold reduce_window_well_formed, rank_of, covers.
    rewrite Hout, Hty, Hs, Hp, Hconv.
    rewrite (getElementType_is_memref _ _ Hinit).
    cbn [is_memref andb].
    repeat (rewrite (proj2 (Nat.leb_le _ _));
            [ | apply at_least_of_below; intros j Hj;
                destruct (Hlen j Hj) as (? & ? & ? & ? & ?); assumption ]).
    reflexivity.
  - intros Hwf. unfold reduce_window_well_formed in Hwf. cbv zeta in Hwf.
    repeat (let H := fresh "Hw" in apply andb_true_iff in Hwf as [Hwf H]).
    destruct (is_memref_inv _ Hwf) as (init_shape & init_ety & Hinit).
    destruct (is_memref_inv _ Hw5) as (out_shape & out_ety & Hout).
    destruct (is_memref_inv _ Hw4) as (shape & ety & Hty).
    unfold rank_of in *. rewrite Hout, ?Hty in *.
    destruct (rw_window_strides op) as [ strides | ] eqn:Hs;
      [ | discriminate ].
    destruct (rw_padding op) as [ padding | ] eqn:Hp; [ | discriminate ].
    cbn [covers] in *.
    apply Nat.leb_le in Hw3, Hw2, Hw1, Hw0.
    destruct (ReduceWindowOpConverter_run op s shape ety out_shape out_ety
                init_ety strides padding Hty Hout)
      as (body_ops & res & s' & Hrun & _);
      try assumption; [ now rewrite Hinit | ].
    eauto.
Qed.

(** * How [dimensions] is read *)

Lemma bind_ext {A B} (m1 m2 : M A) (k1 k2 : A -> M B) s :
  m1 s = m2 s ->
  (forall a s1, m1 s = Ok a s1 -> k1 a s1 = k2 a s1) ->
  bind m1 k1 s = bind m2 k2 s.
Proof.
  intros Hm Hk. unfold bind. rewrite <- Hm.
  destruct (m1 s) as [ a s1 | s1 ]; [ now apply Hk | reflexivity ].
Qed.

Lemma elem_of_reducing_dims_from dimensions : forall (acc : gset Z) z,
  z ∈ foldl (fun acc rdim => {[ to_int rdim ]} ∪ acc) acc dimensions
  <-> z ∈ acc \/ In z (map to_int dimensions).
Proof.
  induction dimensions as [ | d dimensions IH ]; intros acc z; cbn.
  - tauto.
  - rewrite IH. rewrite elem_of_union, elem_of_singleton.
    split; intros H; intuition auto.
Qed.

Lemma elem_of_reducing_dims_of dimensions z :
  z ∈ reducing_dims_of dimensions <-> In z (map to_int dimensions).
Proof.
  unfold reducing_dims_of. rewrite elem_of_reducing_dims_from.
  split; [ intros [H | H]; [ | exact H ] | now right ].
  now apply not_elem_of_empty in H.
Qed.

Lemma to_int_small z : (- 2 ^ 31 <= z < 2 ^ 31)%Z -> to_int z = z.
Proof.
  intros H. unfold to_int.
  change (2 ^ 31)%Z with 2147483648%Z in *.
  change (2 ^ 32)%Z with 4294967296%Z.
  rewrite Z.mod_small by lia. lia.
Qed.

Lemma partition_dims_ext operand rd1 rd2 shape :
  forall index parallel reduce s,
  (forall i, index <= i < index + length shape -> count rd1 i = count rd2 i) ->
  partition_dims operand rd1 index shape parallel reduce s
  = partition_dims operand rd2 index shape parallel reduce s.
Proof.
  induction shape as [ | dim shape IH ]; intros index parallel reduce s H;
    [ reflexivity | ].
  cbn [partition_dims]. cbn [length] in H.
  apply bind_ext; [ reflexivity | intros ub s1 _ ].
  apply bind_ext; [ reflexivity | intros lb s2 _ ].
  apply bind_ext; [ reflexivity | intros st s3 _ ].
  rewrite (H index) by lia.
  destruct (count rd2 index); apply IH; intros i Hi; apply H; lia.
Qed.

Lemma load_indices_ext rd1 rd2 :
  forall n i outer_ivs_it inner_ivs_it,
  (forall j, i <= j < i + n -> count rd1 j = count rd2 j) ->
  load_indices rd1 i n outer_ivs_it inner_ivs_it
  = load_indices rd2 i n outer_ivs_it inner_ivs_it.
Proof.
  induction n as [ | n IH ]; intros i outer_ivs_it inner_ivs_it H;
    [ reflexivity | ].
  cbn [load_indices]. rewrite (H i) by lia.
  destruct (count rd2 i).
  - destruct inner_ivs_it as [ | iv inner' ]; [ reflexivity | ].
    rewrite (IH (S i)) by (intros j Hj; apply H; lia). reflexivity.
  - destruct outer_ivs_it as [ [ | iv outer' ] | ]; try reflexivity.
    rewrite (IH (S i)) by (intros j Hj; apply H; lia). reflexivity.
Qed.

(** The loop nest depends on [dimensions] only through which axes of the
    first operand it contains. *)
Lemma CreateReduceOp_count_ext op d1 d2 s :
  (forall i, i < reduce_rank op ->
     count (reducing_dims_of d1) i = count (reducing_dims_of d2) i) ->
  CreateReduceOpInNestedParallelLoops (with_dimensions op d1) s
  = CreateReduceOpInNestedParallelLoops (with_dimensions op d2) s.
Proof.
  intros H. unfold CreateReduceOpInNestedParallelLoops, with_dimensions.
  cbv zeta. cbn [r_operands r_out r_init_values r_dimensions].
  apply bind_ext; [ reflexivity | intros operand s1 Hop ].
  apply deref_Ok_inv in Hop as [Hop _].
  apply bind_ext; [ reflexivity | intros out s2 _ ].
  apply bind_ext; [ reflexivity | intros shape s3 Hshape ].
  apply deref_Ok_inv in Hshape as [Hshape _].
  assert (Hrank : reduce_rank op = length shape).
  { unfold reduce_rank, rank_of.
    destruct (r_operands op) as [ | operand' more ]; [ discriminate | ].
    injection Hop as ->.
    apply getShape_inv in Hshape as [ety ->]. reflexivity. }
  rewrite Hrank in H.
  apply bind_ext;
    [ apply partition_dims_ext; intros i Hi; apply H; lia | ].
  intros [parallel reduce] s4 _.
  apply bind_ext; [ reflexivity | intros init_buf s5 _ ].
  apply bind_ext; [ reflexivity | intros init s6 _ ].
  apply bind_ext; [ reflexivity | intros outer s7 _ ].
  apply bind_ext; [ reflexivity | intros inner s8 _ ].
  apply bind_ext; [ reflexivity | intros reduction_result s9 _ ].
  apply bind_ext; [ reflexivity | intros out_indices s10 _ ].
  apply bind_ext; [ reflexivity | intros u s11 _ ].
  apply bind_ext; [ | intros; reflexivity ].
  f_equal. apply load_indices_ext. intros j Hj. apply H. lia.
Qed.

Lemma matchAndRewrite_count_ext op d1 d2 s :
  (forall i, i < reduce_rank op ->
     count (reducing_dims_of d1) i = count (reducing_dims_of d2) i) ->
  ReduceOpConverter_matchAndRewrite (with_dimensions op d1) s
  = ReduceOpConverter_matchAndRewrite (with_dimensions op d2) s.
Proof.
  intros H. unfold ReduceOpConverter_matchAndRewrite.
  change (r_out (with_dimensions op d1)) with (r_out op).
  change (r_out (with_dimensions op d2)) with (r_out op).
  destruct (negb (length (r_out op) =? 1)); [ reflexivity | ].
  apply bind_ext; [ now apply CreateReduceOp_count_ext | ].
  intros; reflexivity.
Qed.

(** X4.  The plain converter reads [dimensions] as a set: two lists with
    the same entries, in whatever order and however often repeated, give
    the same conversion, result and rewriter state. *)
Theorem dimensions_read_as_set op d1 d2 s :
  (forall z, In z d1 <-> In z d2) ->
  ReduceOpConverter_matchAndRewrite (with_dimensions op d1) s
  = ReduceOpConverter_matchAndRewrite (with_dimensions op d2) s.
Proof.
  intros H. apply matchAndRewrite_count_ext. intros i _.
  unfold count. apply bool_decide_ext.
  rewrite !elem_of_reducing_dims_of, !in_map_iff.
  split; intros (d & Hd & Hin); exists d; (split; [ exact Hd | ]);
    now apply H.
Qed.

(** X5.  [dimensions] is not checked against the rank of the operand: an
    entry strictly between [INT_MIN] and [INT_MAX] (the two values that
    [DenseSet<int>] reserves and cannot hold) that is negative, or not
    below the rank, names no axis and is silently dropped, the conversion
    being that of the reduction without it. *)
Theorem out_of_range_dimension_ignored op d dimensions s :
  (Z.of_nat (reduce_rank op) < 2 ^ 31)%Z ->
  (INT_MIN < d < 0 \/ Z.of_nat (reduce_rank op) <= d < INT_MAX)%Z ->
  ReduceOpConverter_matchAndRewrite (with_dimensions op (d :: dimensions)) s
  = ReduceOpConverter_matchAndRewrite (with_dimensions op dimensions) s.
Proof.
  unfold INT_MAX, INT_MIN. intros Hrank Hd.
  apply matchAndRewrite_count_ext. intros i Hi.
  unfold count. apply bool_decide_ext.
  rewrite !elem_of_reducing_dims_of. cbn [map In].
  rewrite (to_int_small d) by lia.
  rewrite (to_int_small (Z.of_nat i)) by lia.
  split; [ intros [Heq | Hin]; [ lia | exact Hin ] | now right ].
Qed.

(** * What a conversion leaves in the IR *)

Lemma reduce_well_formed_inv op :
  reduce_well_formed op = true ->
  exists operand more_operands init_buf more_init shape ety init_shape
         init_ety,
    r_operands op = operand :: more_operands
    /\ r_init_values op = init_buf :: more_init
    /\ v_ty operand = MemRefTy shape ety
    /\ v_ty init_buf = MemRefTy init_shape init_ety
    /\ body_well_formed (r_body op) = true.
Proof.
  unfold reduce_well_formed. intros Hwf.
  destruct (r_operands op) as [ | operand more_operands ]; [ discriminate | ].
  destruct (r_init_values op) as [ | init_buf more_init ]; [ discriminate | ].
  apply andb_true_iff in Hwf as [Hwf Hbody].
  apply andb_true_iff in Hwf as [Hop Hib].
  destruct (is_memref_inv _ Hop) as (shape & ety & Hty).
  destruct (is_memref_inv _ Hib) as (init_shape & init_ety & Hity).
  exists operand, more_operands, init_buf, more_init, shape, ety, init_shape,
    init_ety.
  repeat split; assumption.
Qed.

Lemma reduce_window_well_formed_inv op :
  reduce_window_well_formed op = true ->
  exists shape ety out_shape out_ety init_shape init_ety strides padding,
    v_ty (rw_operand op) = MemRefTy shape ety
    /\ v_ty (rw_out op) = MemRefTy out_shape out_ety
    /\ v_ty (rw_init_value op) = MemRefTy init_shape init_ety
    /\ rw_window_strides op = Some strides
    /\ rw_padding op = Some padding
    /\ length out_shape <= length strides
    /\ length out_shape <= length padding
    /\ length out_shape <= length (rw_window_dimensions op)
    /\ length out_shape <= length shape
    /\ body_well_formed (rw_body op) = true.
Proof.
  unfold reduce_window_well_formed. cbv zeta. intros Hwf.
  repeat (let H := fresh "Hw" in apply andb_true_iff in Hwf as [Hwf H]).
  destruct (is_memref_inv _ Hwf) as (init_shape & init_ety & Hinit).
  destruct (is_memref_inv _ Hw5) as (out_shape & out_ety & Hout).
  destruct (is_memref_inv _ Hw4) as (shape & ety & Hty).
  unfold rank_of in *. rewrite Hout, ?Hty in *.
  destruct (rw_window_strides op) as [ strides | ]; [ | discriminate ].
  destruct (rw_padding op) as [ padding | ]; [ | discriminate ].
  cbn [covers] in *.
  apply Nat.leb_le in Hw3, Hw2, Hw1, Hw0.
  exists shape, ety, out_shape, out_ety, init_shape, init_ety, strides,
    padding.
  repeat split; assumption.
Qed.

Lemma lookup_insert_at_ne b b' p ops blks :
  b <> b' -> insert_at b p ops blks !! b' = blks !! b'.
Proof.
  intros H. unfold insert_at. rewrite list_lookup_alter_ne by exact H.
  reflexivity.
Qed.

Lemma lookup_insert_at_eq b p ops blks blk :
  blks !! b = Some blk ->
  insert_at b p ops blks !! b = Some (splice p ops blk).
Proof.
  intros H. unfold insert_at. rewrite list_lookup_alter, H.
  rewrite decide_True by reflexivity. reflexivity.
Qed.

(** Blocks that were there before a run that inserts [root] at the
    insertion point, appends [new] blocks and fills one of them. *)
Lemma lookup_old_block s rb X root new b blk :
  length (blocks s) <= rb ->
  blocks s !! b = Some blk ->
  insert_at rb 0 X
    (insert_at (ip_block s) (ip_pos s) root (blocks s) ++ new) !! b
  = Some (if Nat.eqb b (ip_block s) then splice (ip_pos s) root blk else blk).
Proof.
  intros Hrb Hb.
  assert (Hlt : b < length (blocks s)) by (eapply lookup_lt_Some; eassumption).
  rewrite lookup_insert_at_ne by lia.
  rewrite lookup_app_l by (rewrite length_insert_at; lia).
  destruct (Nat.eqb_spec b (ip_block s)) as [-> | Hne].
  - now apply lookup_insert_at_eq.
  - rewrite lookup_insert_at_ne by congruence. exact Hb.
Qed.

(** X6.  A plain conversion that goes through only adds to the IR: every
    block that existed keeps its arguments and operations, the block at
    the insertion point receiving the new operations between what stood
    before and what stood after the insertion point, so that the reduction
    itself is still there; it is recorded for replacement, and no
    diagnostic is emitted. *)
Theorem reduce_rewrite_only_inserts op s :
  length (r_out op) = 1 ->
  reduce_well_formed op = true ->
  ip_block s < length (blocks s) ->
  exists s' new_ops,
    ReduceOpConverter_matchAndRewrite op s = Ok success s'
    /\ (forall b blk,
          blocks s !! b = Some blk -> b <> ip_block s ->
          blocks s' !! b = Some blk)
    /\ (forall blk,
          blocks s !! ip_block s = Some blk ->
          blocks s' !! ip_block s
          = Some (mkBlock (b_args blk)
                    (take (ip_pos s) (b_ops blk) ++ new_ops
                     ++ drop (ip_pos s) (b_ops blk))))
    /\ diags s' = diags s
    /\ replaced s' = replaced s ++ [r_id op].
Proof.
  intros Hone Hwf Hip.
  destruct (reduce_well_formed_inv op Hwf)
    as (operand & more_operands & init_buf & more_init & shape & ety
        & init_shape & init_ety & Hops & Hinit & Hty & Hity & Hbody).
  destruct (r_out op) as [ | out [ | out2 more_out ] ] eqn:Hout;
    try discriminate Hone.
  destruct (ReduceOpConverter_run op s operand more_operands out init_buf
              more_init shape ety init_ety Hops Hout Hinit Hty)
    as (body_ops & res & s' & Hrun & Hblocks & _ & Hd & Hr);
    [ now rewrite Hity | exact Hbody | exact Hip | ].
  cbv zeta in Hblocks. unfold p_state in Hblocks. cbn [blocks] in Hblocks.
  exists s'. eexists.
  split; [ exact Hrun | ].
  split; [ | split; [ | split; assumption ] ].
  - intros b blk Hb Hne. rewrite Hblocks.
    rewrite (lookup_old_block s _ _ _ _ b blk)
      by (try exact Hb; unfold p_inner_body_id; cbn [pc_nb]; lia).
    destruct (Nat.eqb_spec b (ip_block s)); [ contradiction | reflexivity ].
  - intros blk Hb. rewrite Hblocks.
    rewrite (lookup_old_block s _ _ _ _ (ip_block s) blk)
      by (try exact Hb; unfold p_inner_body_id; cbn [pc_nb]; lia).
    rewrite Nat.eqb_refl. reflexivity.
Qed.

(** X7.  A windowed conversion that goes through only adds to the IR, in
    the same way; the reduction is recorded for replacement, and the only
    diagnostic it can emit is the remark on dilations. *)
Theorem windowed_rewrite_only_inserts op s :
  reduce_window_well_formed op = true ->
  ip_block s < length (blocks s) ->
  exists s' new_ops,
    ReduceWindowOpConverter_matchAndRewrite op s = Ok success s'
    /\ (forall b blk,
          blocks s !! b = Some blk -> b <> ip_block s ->
          blocks s' !! b = Some blk)
    /\ (forall blk,
          blocks s !! ip_block s = Some blk ->
          blocks s' !! ip_block s
          = Some (mkBlock (b_args blk)
                    (take (ip_pos s) (b_ops blk) ++ new_ops
                     ++ drop (ip_pos s) (b_ops blk))))
    /\ diags s'
       = diags s
         ++ (if hasValue (rw_base_dilations op)
                || hasValue (rw_window_dilations op)
             then [Remark (rw_id op) dilation_msg] else [])
    /\ replaced s' = replaced s ++ [rw_id op].
Proof.
  intros Hwf Hip.
  destruct (reduce_window_well_formed_inv op Hwf)
    as (shape & ety & out_shape & out_ety & init_shape & init_ety & strides
        & padding & Hty & Hout & Hinit & Hs & Hp & Hls & Hlp & Hlw & Hlsh
        & Hbody).
  destruct (ReduceWindowOpConverter_run op s shape ety out_shape out_ety
              init_ety strides padding Hty Hout)
    as (body_ops & res & s' & Hrun & Hblocks & _ & Hd & Hr);
    try assumption; [ now rewrite Hinit | ].
  cbv zeta in Hblocks. unfold w_state in Hblocks. cbn [blocks] in Hblocks.
  exists s'. eexists.
  split; [ exact Hrun | ].
  split; [ | split; [ | split; [ | exact Hr ] ] ].
  - intros b blk Hb Hne. rewrite Hblocks.
    rewrite (lookup_old_block s _ _ _ _ b blk)
      by (try exact Hb; cbn [wc_nb]; lia).
    destruct (Nat.eqb_spec b (ip_block s)); [ contradiction | reflexivity ].
  - intros blk Hb. rewrite Hblocks.
    rewrite (lookup_old_block s _ _ _ _ (ip_block s) blk)
      by (try exact Hb; cbn [wc_nb]; lia).
    rewrite Nat.eqb_refl. reflexivity.
  - rewrite Hd. unfold attribute_diagnostics. rewrite Hs, Hp.
    reflexivity.
Qed.

(** ** The new blocks and their terminators *)




(** The blocks appended by a run that inserts [root] at the insertion
    point, appends [new] blocks and fills the block [rb]. *)
Lemma lookup_new_block blks ib ip rb X root new k :
  insert_at rb 0 X (insert_at ib ip root blks ++ new) !! (length blks + k)
  = (if Nat.eqb (length blks + k) rb then splice 0 X <$> new !! k
     else new !! k).
Proof.
  destruct (Nat.eqb_spec (length blks + k) rb) as [<- | Hne].
  - unfold insert_at at 1. rewrite list_lookup_alter.
    rewrite decide_True by reflexivity.
    rewrite lookup_app_r by (rewrite length_insert_at; lia).
    rewrite length_insert_at.
    now replace (length blks + k - length blks) with k by lia.
  - rewrite lookup_insert_at_ne by congruence.
    rewrite lookup_app_r by (rewrite length_insert_at; lia).
    rewrite length_insert_at.
    now replace (length blks + k - length blks) with k by lia.
Qed.

Lemma closed_reduce_block args body_ops res :
  forallb (fun op => negb (is_terminator op)) body_ops = true ->
  closed_by (ReduceReturnOp res)
    (splice 0 (body_ops ++ [ReduceReturnOp res]) (mkBlock args [])).
Proof.
  intros Hnt. split; [ reflexivity | ]. exists body_ops.
  split; [ | exact Hnt ].
  unfold splice. cbn [b_ops take drop app]. now rewrite app_nil_r.
Qed.

Lemma filter_lhlo_reduce_block args body_ops res :
  List.filter is_lhlo
    (b_ops (splice 0 (body_ops ++ [ReduceReturnOp res]) (mkBlock args [])))
  = List.filter is_lhlo body_ops.
Proof.
  unfold splice. cbn [b_ops take drop app].
  rewrite app_nil_r, List.filter_app. cbn. now rewrite app_nil_r.
Qed.


Lemma reduce_rank_of_operand op operand more_operands shape ety :
  r_operands op = operand :: more_operands ->
  v_ty operand = MemRefTy shape ety ->
  reduce_rank op = length shape.
Proof.
  intros Hops Hty. unfold reduce_rank, rank_of. now rewrite Hops, Hty.
Qed.

(** X9.  A plain conversion that goes through, of a reduction whose body
    ends in its [xla_lhlo.terminator] and holds no other, appends three
    blocks when an axis of the operand is kept and two when none is.  The
    loop bodies end in a [loop.yield] without operands, their only
    terminator, and the last block, the reduction block, in a
    [loop.reduce.return], its only terminator: the terminator of the source
    body is not copied, the block holding one LHLO operation for each
    operation in front of it. *)
Theorem reduce_blocks_closed op s :
  length (r_out op) = 1 ->
  reduce_well_formed op = true ->
  body_terminated (r_body op) = true ->
  ip_block s < length (blocks s) ->
  let kept :=
    kept_axes (reducing_dims_of (r_dimensions op)) 0 (reduce_rank op) in
  exists s' res reduce_block,
    ReduceOpConverter_matchAndRewrite op s = Ok success s'
    /\ length (blocks s')
       = length (blocks s) + (match kept with [] => 2 | _ => 3 end)
    /\ (forall b, length (blocks s) <= b < length (blocks s') - 1 ->
          exists blk, blocks s' !! b = Some blk
                      /\ closed_by (YieldOp []) blk)
    /\ blocks s' !! (length (blocks s') - 1) = Some reduce_block
    /\ closed_by (ReduceReturnOp res) reduce_block
    /\ length (List.filter is_lhlo (b_ops reduce_block))
       = length (lb_ops (r_body op)) - 1.
Proof.
  intros Hone Hwf Hterm Hip kept.
  destruct (reduce_well_formed_inv op Hwf)
    as (operand & more_operands & init_buf & more_init & shape & ety
        & init_shape & init_ety & Hops & Hinit & Hty & Hity & Hbody).
  destruct (r_out op) as [ | out [ | out2 more_out ] ] eqn:Hout;
    try discriminate Hone.
  destruct (ReduceOpConverter_run op s operand more_operands out init_buf
              more_init shape ety init_ety Hops Hout Hinit Hty)
    as (body_ops & res & s' & Hrun & Hblocks & Hshape & _ & _);
    [ now rewrite Hity | exact Hbody | exact Hip | ].
  destruct Hshape as (e & buf_elem & a & acc_buf & n & m & ->).
  destruct (transplanted_body_ops (r_body op) e a res buf_elem acc_buf n m)
    as [Hcount Hnt].
  specialize (Hnt Hterm).
  set (body_ops := _ ++ _ ++ [LoadOp res acc_buf []]) in *.
  clearbody body_ops.
  cbv zeta in Hblocks. unfold p_state in Hblocks. cbn [blocks] in Hblocks.
  set (c := mkReduceCtx op (next_value s) (length (blocks s)) operand init_buf
              out shape ety init_ety) in *.
  assert (Hkept : kept = p_kept c).
  { subst kept. unfold p_kept, p_dims, p_rank. cbn [pc_op pc_shape c].
    now rewrite (reduce_rank_of_operand op operand more_operands shape ety). }
  assert (Hlen : length (blocks s')
                 = length (blocks s) + length (p_new_blocks c)).
  { rewrite Hblocks. unfold insert_at at 1.
    now rewrite length_alter, length_app, length_insert_at. }
  assert (Hinner : closed_by (YieldOp []) (p_inner_body c)).
  { split; [ reflexivity | ].
    now exists [LoadOp (p_elem c) (pc_operand c) (p_indices c);
                ReduceOp (p_elem c) (p_inner_body_id c + 1)]. }
  assert (Houter : closed_by (YieldOp []) (p_outer_body c)).
  { split; [ reflexivity | ]. now exists [p_inner_loop c; p_store c]. }
  exists s', res. eexists.
  split; [ exact Hrun | ].
  rewrite Hlen, Hkept. unfold p_new_blocks, p_inner_body_id, p_has_outer in *.
  cbn [pc_nb c] in *.
  destruct (p_kept c) as [ | axis axes ]; cbn [app length] in *.
  - split; [ reflexivity | ]. split.
    + intros b Hb. rewrite Hblocks.
      replace b with (length (blocks s) + (b - length (blocks s))) by lia.
      rewrite lookup_new_block.
      destruct (Nat.eqb_spec (length (blocks s) + (b - length (blocks s)))
                  (length (blocks s) + 0 + 1)); [ lia | ].
      destruct (b - length (blocks s)) as [ | k ] eqn:Hk; [ | lia ].
      eexists. split; [ reflexivity | assumption ].
    + replace (length (blocks s) + 2 - 1) with (length (blocks s) + 1) by lia.
      split.
      { rewrite Hblocks, lookup_new_block.
        destruct (Nat.eqb_spec (length (blocks s) + 1)
                    (length (blocks s) + 0 + 1)); [ | lia ].
        reflexivity. }
      split; [ now apply closed_reduce_block | ].
      exact (eq_trans
               (f_equal (@length Op) (filter_lhlo_reduce_block _ _ _))
               Hcount).
  - split; [ reflexivity | ]. split.
    + intros b Hb. rewrite Hblocks.
      replace b with (length (blocks s) + (b - length (blocks s))) by lia.
      rewrite lookup_new_block.
      destruct (Nat.eqb_spec (length (blocks s) + (b - length (blocks s)))
                  (length (blocks s) + 1 + 1)); [ lia | ].
      destruct (b - length (blocks s)) as [ | [ | k ] ] eqn:Hk; [ | | lia ];
        eexists; (split; [ reflexivity | assumption ]).
    + replace (length (blocks s) + 3 - 1) with (length (blocks s) + 2) by lia.
      split.
      { rewrite Hblocks, lookup_new_block.
        destruct (Nat.eqb_spec (length (blocks s) + 2)
                    (length (blocks s) + 1 + 1)); [ | lia ].
        reflexivity. }
      split; [ now apply closed_reduce_block | ].
      exact (eq_trans
               (f_equal (@length Op) (filter_lhlo_reduce_block _ _ _))
               Hcount).
Qed.

(** ** What a plain conversion reads *)

Lemma filter_load_cloned_ops ops : forall n m,
  List.filter is_load (cloned_ops n m ops) = [].
Proof.
  induction ops as [ | nested ops IH ]; intros n m; [ reflexivity | ].
  cbn [cloned_ops List.filter is_load]. apply IH.
Qed.

(** C10.  A plain reduction with one output and several operands or
    initial values is converted all the same, and the conversion is the one
    of the reduction stripped of every operand but the first and of every
    initial value but the first; no diagnostic is emitted and the
    reduction is recorded for replacement.  The loop nest it leaves is
    spelled out.  At the insertion point stand the operations of the
    partitioner, none of which is a load, the load of the first initial
    value, and either the inner loop followed by the constant 0 and the
    store (no axis kept) or the outer loop, whose body holds the inner
    loop, the store and the [loop.yield].  The inner loop starts from the
    loaded initial value, and its body loads one element of the first
    operand, at one index per axis, and hands it to the [loop.reduce].  The
    reduction block is the last block; its only load reads a buffer that
    the block allocates.  Every other block is as it was.  So the loads of
    the emitted code read the first operand, the first initial value and
    a scratch buffer, and nothing else. *)
Theorem extra_operands_ignored op s operand more_operands out
    init_buf more_init shape ety init_shape init_ety
    e_arg a_in more_args shape_e ety_e shape_a ety_a :
  r_operands op = operand :: more_operands ->
  r_init_values op = init_buf :: more_init ->
  r_out op = [out] ->
  v_ty operand = MemRefTy shape ety ->
  v_ty init_buf = MemRefTy init_shape init_ety ->
  lb_args (r_body op) = e_arg :: a_in :: more_args ->
  v_ty e_arg = MemRefTy shape_e ety_e ->
  v_ty a_in = MemRefTy shape_a ety_a ->
  ip_block s < length (blocks s) ->
  ReduceOpConverter_matchAndRewrite op s
  = ReduceOpConverter_matchAndRewrite (first_operand_only op operand init_buf) s
  /\ exists s',
       ReduceOpConverter_matchAndRewrite op s = Ok success s'
       /\ diags s' = diags s
       /\ replaced s' = replaced s ++ [r_id op]
       /\ exists setup loops init result lower upper step inner_body_id
                 inner_ivs elem indices reduce_args reduce_ops res acc_buf,
            (forall blk,
               blocks s !! ip_block s = Some blk ->
               blocks s' !! ip_block s
               = Some (splice (ip_pos s)
                         (setup ++ LoadOp init init_buf [] :: loops) blk))
            /\ (forall b blk,
                  blocks s !! b = Some blk -> b <> ip_block s ->
                  blocks s' !! b = Some blk)
            /\ List.filter is_load setup = []
            /\ match kept_axes (reducing_dims_of (r_dimensions op)) 0
                       (length shape) with
               | [] =>
                   inner_body_id = length (blocks s)
                   /\ exists zero,
                        loops
                        = [ParallelOp [result] lower upper step [init]
                             inner_body_id;
                           ConstantIndexOp zero 0;
                           StoreOp result out [zero]]
               | _ =>
                   inner_body_id = length (blocks s) + 1
                   /\ exists outer_lower outer_upper outer_step outer_ivs,
                        loops
                        = [ParallelOp [] outer_lower outer_upper outer_step []
                             (length (blocks s))]
                        /\ blocks s' !! length (blocks s)
                           = Some (mkBlock outer_ivs
                                     [ParallelOp [result] lower upper step
                                        [init] inner_body_id;
                                      StoreOp result out outer_ivs;
                                      YieldOp []])
               end
            /\ blocks s' !! inner_body_id
               = Some (mkBlock inner_ivs
                         [LoadOp elem operand indices;
                          ReduceOp elem (inner_body_id + 1);
                          YieldOp []])
            /\ length indices = length shape
            /\ blocks s' !! (inner_body_id + 1)
               = Some (mkBlock reduce_args reduce_ops)
            /\ length (blocks s') = inner_body_id + 2
            /\ List.filter is_load reduce_ops = [LoadOp res acc_buf []]
            /\ In (AllocOp acc_buf) reduce_ops.
Proof.
  intros Hops Hinit Hout Hty Hity Hlb He Ha Hip.
  split.
  { unfold ReduceOpConverter_matchAndRewrite,
      CreateReduceOpInNestedParallelLoops, first_operand_only.
    cbn [r_operands r_init_values r_out r_dimensions r_body r_id].
    rewrite Hops, Hinit. reflexivity. }
  destruct (ReduceOpConverter_run op s operand more_operands out init_buf
              more_init shape ety init_ety Hops Hout Hinit Hty)
    as (body_ops & res & s' & Hrun & Hblocks & Hshape & Hd & Hr);
    [ now rewrite Hity
    | unfold body_well_formed; now rewrite Hlb, He, Ha
    | exact Hip | ].
  destruct Hshape as (e & buf_elem & a & acc_buf & n & m & Hbody).
  cbv zeta in Hblocks. unfold p_state in Hblocks. cbn [blocks] in Hblocks.
  set (c := mkReduceCtx op (next_value s) (length (blocks s)) operand init_buf
              out shape ety init_ety) in *.
  exists s'. do 3 (split; [ assumption | ]).
  exists (partition_ops operand (next_value s) shape),
    (if p_has_outer c then [p_outer_loop c]
     else [p_inner_loop c; ConstantIndexOp (p_zero c) 0; p_store c]),
    (p_init c), (p_result c),
    (lower (axes_bounds (pc_n c) (p_reduced c))),
    (upper (axes_bounds (pc_n c) (p_reduced c))),
    (step (axes_bounds (pc_n c) (p_reduced c))),
    (p_inner_body_id c), (p_inner_ivs c), (p_elem c), (p_indices c),
    (p_reduce_args c), (body_ops ++ [ReduceReturnOp res]), res, acc_buf.
  assert (Hge : length (blocks s) <= p_inner_body_id c + 1)
    by (unfold p_inner_body_id; cbn [pc_nb c]; lia).
  split.
  { intros blk Hblk. rewrite Hblocks.
    rewrite (lookup_old_block s _ _ _ _ _ blk Hge Hblk).
    now rewrite Nat.eqb_refl. }
  split.
  { intros b blk Hblk Hne. rewrite Hblocks.
    rewrite (lookup_old_block s _ _ _ _ _ blk Hge Hblk).
    destruct (Nat.eqb_spec b (ip_block s)); [ contradiction | reflexivity ]. }
  split; [ now apply filter_partition_ops | ].
  assert (Hlen : length (blocks s')
                 = length (blocks s) + length (p_new_blocks c)).
  { rewrite Hblocks. unfold insert_at at 1.
    now rewrite length_alter, length_app, length_insert_at. }
  assert (Hloads :
    List.filter is_load (body_ops ++ [ReduceReturnOp res])
    = [LoadOp res acc_buf []]).
  { rewrite Hbody, !List.filter_app, filter_load_cloned_ops. reflexivity. }
  assert (Halloc : In (AllocOp acc_buf) (body_ops ++ [ReduceReturnOp res])).
  { rewrite Hbody. cbn. tauto. }
  assert (Hidx : length (p_indices c) = length shape).
  { unfold p_indices, p_rank. now rewrite length_map, length_seq. }
  rewrite Hlen.
  unfold p_inner_loop, p_store, p_out_indices, p_outer_loop, p_new_blocks.
  change (kept_axes (reducing_dims_of (r_dimensions op)) 0 (length shape))
    with (p_kept c).
  assert (Hib : p_inner_body_id c
                = length (blocks s) + (if p_has_outer c then 1 else 0))
    by reflexivity.
  assert (Hinner : p_inner_body c
                   = mkBlock (p_inner_ivs c)
                       [LoadOp (p_elem c) operand (p_indices c);
                        ReduceOp (p_elem c) (p_inner_body_id c + 1);
                        YieldOp []]) by reflexivity.
  assert (Hob : p_outer_body c
                = mkBlock (p_outer_ivs c)
                    [ParallelOp [p_result c]
                       (lower (axes_bounds (pc_n c) (p_reduced c)))
                       (upper (axes_bounds (pc_n c) (p_reduced c)))
                       (step (axes_bounds (pc_n c) (p_reduced c)))
                       [p_init c] (p_inner_body_id c);
                     StoreOp (p_result c) out
                       (if p_has_outer c then p_outer_ivs c else [p_zero c]);
                     YieldOp []]) by reflexivity.
  cbn [pc_out pc_nb c].
  revert Hblocks Hib Hob Hinner. unfold p_new_blocks, p_has_outer.
  generalize (p_inner_body_id c) as ib.
  destruct (p_kept c) as [ | axis axes ]; intros ib Hblocks Hib Hob Hinner;
    rewrite Nat.add_0_r in Hib || idtac; subst ib; cbn [app length] in *.
  - split; [ split; [ reflexivity | now eexists ] | ].
    split.
    { rewrite Hblocks.
      rewrite <- (Nat.add_0_r (length (blocks s))) at 1.
      rewrite lookup_new_block.
      destruct (Nat.eqb_spec (length (blocks s) + 0) (length (blocks s) + 1));
        [ lia | ].
      exact (f_equal Some Hinner). }
    split; [ exact Hidx | ].
    split.
    { rewrite Hblocks, lookup_new_block. rewrite Nat.eqb_refl.
      change ([p_inner_body c; p_reduce_block c] !! 1)
        with (Some (p_reduce_block c)).
      unfold splice, p_reduce_block.
      cbn [fmap option_fmap option_map b_args b_ops take drop].
      now rewrite app_nil_r. }
    split; [ lia | ]. split; assumption.
  - split.
    { split; [ reflexivity | ].
      exists (lower (axes_bounds (next_value s) (axis :: axes))),
        (upper (axes_bounds (next_value s) (axis :: axes))),
        (step (axes_bounds (next_value s) (axis :: axes))), (p_outer_ivs c).
      split; [ reflexivity | ].
      rewrite Hblocks.
      rewrite <- (Nat.add_0_r (length (blocks s))) at 1.
      rewrite lookup_new_block.
      destruct (Nat.eqb_spec (length (blocks s) + 0)
                  (length (blocks s) + 1 + 1)); [ lia | ].
      exact (f_equal Some Hob). }
    split.
    { rewrite Hblocks, lookup_new_block.
      destruct (Nat.eqb_spec (length (blocks s) + 1)
                  (length (blocks s) + 1 + 1)); [ lia | ].
      exact (f_equal Some Hinner). }
    split; [ exact Hidx | ].
    split.
    { replace (length (blocks s) + 1 + 1) with (length (blocks s) + 2) by lia.
      rewrite Hblocks, lookup_new_block.
      replace (length (blocks s) + 1 + 1) with (length (blocks s) + 2) by lia.
      rewrite Nat.eqb_refl.
      change ([p_outer_body c; p_inner_body c; p_reduce_block c] !! 2)
        with (Some (p_reduce_block c)).
      unfold splice, p_reduce_block.
      cbn [fmap option_fmap option_map b_args b_ops take drop].
      now rewrite app_nil_r. }
    split; [ lia | ]. split; assumption.
Qed.

(** * The bounds of the loops, executed *)

Lemma wrap_0 bits : (0 < bits)%Z -> wrap bits 0 = 0%Z.
Proof.
  intros H. apply wrap_small. pose proof (pow2_pos bits H). lia.
Qed.

Lemma wrap_1 bits : (0 < bits)%Z -> wrap bits 1 = 1%Z.
Proof.
  intros H. apply wrap_small.
  destruct (pow2_half bits H) as [Hfull Hhalf]. lia.
Qed.

(** X10.  The bound resolver emits exactly one operation at the insertion
    point and returns its index-typed result; when the static extent it is
    given is the dynamic marker or the extent the buffer has at run time,
    that result is the run-time extent of the dimension. *)
Theorem GetStaticOrDynamicDim_reads_extent shaped_value dim_index dim s rt st :
  dim = kDynamicSize \/ dim = rt_dim rt shaped_value dim_index ->
  exists res op,
    GetStaticOrDynamicDim shaped_value dim_index dim s
    = Ok res (emit_ops 1 [op] s)
    /\ v_ty res = IndexTy
    /\ exec_op rt op st
       = Some (define res
                 (IndexVal (wrap (rt_index_bits rt)
                              (rt_dim rt shaped_value dim_index))) st).
Proof.
  intros Hdim. eexists. eexists.
  split; [ apply GetStaticOrDynamicDim_run | ].
  split; [ reflexivity | ].
  destruct (Z.eqb_spec dim kDynamicSize) as [Hdyn | Hstatic].
  - reflexivity.
  - destruct Hdim as [Hdim | Hdim]; [ contradiction | ].
    cbn [exec_op]. now rewrite Hdim.
Qed.

Lemma exec_axis_ops rt operand n shape a st :
  (0 < rt_index_bits rt)%Z ->
  exec_all rt (axis_ops operand n a (nth a shape 0%Z)) st
  = Some (define (axis_step n a) (IndexVal 1)
            (define (axis_lb n a) (IndexVal 0)
               (define (axis_ub n a)
                  (IndexVal (wrap (rt_index_bits rt)
                               (operand_extent rt operand shape a)))
                  st))).
Proof.
  intros Hbits. unfold axis_ops.
  rewrite exec_all_cons, exec_bound_op. cbn [mbind option_bind].
  rewrite exec_all_cons. cbn [mbind option_bind exec_op].
  rewrite exec_all_cons. cbn [mbind option_bind exec_op exec_all].
  rewrite wrap_0, wrap_1 by assumption. reflexivity.
Qed.

Lemma exec_partition_ops rt operand n shape :
  (0 < rt_index_bits rt)%Z ->
  forall rest a st,
  (forall j, j < length rest -> nth j rest 0%Z = nth (a + j) shape 0%Z) ->
  exists st',
    exec_all rt (concat (imap (fun j => axis_ops operand n (a + j)) rest)) st
    = Some st'
    /\ loads st' = loads st /\ fed st' = fed st
    /\ (forall k, k < n + 3 * a -> env st' !! k = env st !! k)
    /\ forall j, j < length rest ->
         env st' !! (n + 3 * (a + j))
         = Some (IndexVal (wrap (rt_index_bits rt)
                             (operand_extent rt operand shape (a + j))))
         /\ env st' !! (n + 3 * (a + j) + 1) = Some (IndexVal 0)
         /\ env st' !! (n + 3 * (a + j) + 2) = Some (IndexVal 1).
Proof.
  intros Hbits.
  induction rest as [ | dim rest IH ]; intros a st Hshape.
  - exists st. cbn. do 4 (split; [ reflexivity | ]). intros j Hj. lia.
  - rewrite imap_cons. cbn [concat]. rewrite exec_all_app.
    assert (Hdim : dim = nth a shape 0%Z).
    { specialize (Hshape 0 ltac:(cbn; lia)). cbn in Hshape.
      now rewrite Nat.add_0_r in Hshape. }
    rewrite Nat.add_0_r. subst dim.
    rewrite exec_axis_ops by assumption. cbn [mbind option_bind].
    set (st1 := define (axis_step n a) (IndexVal 1)
                  (define (axis_lb n a) (IndexVal 0)
                     (define (axis_ub n a)
                        (IndexVal (wrap (rt_index_bits rt)
                                     (operand_extent rt operand shape a)))
                        st))).
    rewrite (imap_ext _ (fun j => axis_ops operand n (S a + j)))
      by (intros j x _; cbn; do 2 f_equal; lia).
    destruct (IH (S a) st1) as (st' & Hrun & Hl & Hf & Hfr & Hvals).
    { intros j Hj. specialize (Hshape (S j) ltac:(cbn; lia)).
      cbn in Hshape. rewrite Hshape. f_equal. lia. }
    exists st'. split; [ exact Hrun | ].
    split; [ now rewrite Hl | ]. split; [ now rewrite Hf | ].
    split.
    + intros k Hk. rewrite Hfr by lia.
      subst st1. unfold define, axis_step, axis_lb, axis_ub. cbn [env v_id].
      now env_lookup.
    + intros j Hj. destruct j as [ | j ].
      * rewrite Nat.add_0_r. rewrite !Hfr by lia.
        subst st1. unfold define, axis_step, axis_lb, axis_ub.
        cbn [env v_id]. repeat split; now env_lookup.
      * replace (a + S j) with (S a + j) by lia.
        apply Hvals. cbn in Hj. lia.
Qed.

Lemma in_kept_axes rd rank a : In a (kept_axes rd 0 rank) -> a < rank.
Proof.
  unfold kept_axes. intros H. apply filter_In in H as [H _].
  apply in_seq in H. lia.
Qed.

Lemma in_reduced_axes rd rank a : In a (reduced_axes rd 0 rank) -> a < rank.
Proof.
  unfold reduced_axes. intros H. apply filter_In in H as [H _].
  apply in_seq in H. lia.
Qed.

(** X11.  Executed, the operations of the dimension partitioner give every
    loop bound its value without touching memory: the upper bounds of the
    outer loop are the extents of the kept axes and those of the inner loop
    the extents of the reduced axes, each in increasing order of the axes,
    every lower bound is 0 and every step is 1. *)
Theorem reduce_loops_span_axes operand dimensions shape s rt st :
  (0 < rt_index_bits rt)%Z ->
  let reducing_dims := reducing_dims_of dimensions in
  let rank := length shape in
  let extents :=
    map (fun a => IndexVal (wrap (rt_index_bits rt)
                              (operand_extent rt operand shape a))) in
  exists parallel reduce ops st',
    partition_dims operand reducing_dims 0 shape no_bounds no_bounds s
    = Ok (parallel, reduce) (emit_ops (3 * rank) ops s)
    /\ exec_all rt ops st = Some st'
    /\ loads st' = loads st
    /\ mapM (eval st') (upper parallel)
       = Some (extents (kept_axes reducing_dims 0 rank))
    /\ mapM (eval st') (upper reduce)
       = Some (extents (reduced_axes reducing_dims 0 rank))
    /\ Forall (fun v => eval st' v = Some (IndexVal 0))
         (lower parallel ++ lower reduce)
    /\ Forall (fun v => eval st' v = Some (IndexVal 1))
         (step parallel ++ step reduce).
Proof.
  intros Hbits reducing_dims rank extents.
  destruct (exec_partition_ops rt operand (next_value s) shape Hbits shape 0 st)
    as (st' & Hrun & Hl & _ & _ & Hvals); [ reflexivity | ].
  exists (axes_bounds (next_value s) (kept_axes reducing_dims 0 rank)),
    (axes_bounds (next_value s) (reduced_axes reducing_dims 0 rank)),
    (partition_ops operand (next_value s) shape), st'.
  split; [ apply partition_dims_run | ].
  split; [ exact Hrun | ]. split; [ exact Hl | ].
  assert (Hub : forall a, a < rank ->
            eval st' (axis_ub (next_value s) a)
            = Some (IndexVal (wrap (rt_index_bits rt)
                                (operand_extent rt operand shape a)))).
  { intros a Ha. destruct (Hvals a Ha) as (H & _ & _). exact H. }
  assert (Hlb : forall a, a < rank ->
            eval st' (axis_lb (next_value s) a) = Some (IndexVal 0)).
  { intros a Ha. destruct (Hvals a Ha) as (_ & H & _). exact H. }
  assert (Hst : forall a, a < rank ->
            eval st' (axis_step (next_value s) a) = Some (IndexVal 1)).
  { intros a Ha. destruct (Hvals a Ha) as (_ & _ & H). exact H. }
  cbn [axes_bounds upper lower step].
  split; [ | split; [ | split ] ].
  - apply mapM_map_Some. intros a Ha. apply Hub.
    now apply in_kept_axes in Ha.
  - apply mapM_map_Some. intros a Ha. apply Hub.
    now apply in_reduced_axes in Ha.
  - apply Forall_app. split; apply Forall_forall; intros v Hv;
      apply list_elem_of_fmap in Hv as (a & -> & Ha); apply Hlb;
      apply list_elem_of_In in Ha;
      [ now apply in_kept_axes in Ha | now apply in_reduced_axes in Ha ].
  - apply Forall_app. split; apply Forall_forall; intros v Hv;
      apply list_elem_of_fmap in Hv as (a & -> & Ha); apply Hst;
      apply list_elem_of_In in Ha;
      [ now apply in_kept_axes in Ha | now apply in_reduced_axes in Ha ].
Qed.

Lemma exec_output_bound_ops rt xla_output shape :
  forall rest m a st,
  (forall j, j < length rest -> nth j rest 0%Z = nth (a + j) shape 0%Z) ->
  exists st',
    exec_all rt (output_bound_ops xla_output m a rest) st = Some st'
    /\ loads st' = loads st /\ fed st' = fed st
    /\ (forall k, k < m -> env st' !! k = env st !! k)
    /\ forall j, j < length rest ->
         env st' !! (m + j)
         = Some (IndexVal (wrap (rt_index_bits rt)
                             (operand_extent rt xla_output shape (a + j)))).
Proof.
  induction rest as [ | dim rest IH ]; intros m a st Hshape.
  - exists st. cbn. do 3 (split; [ reflexivity | ]).
    split; [ reflexivity | ]. intros j Hj. lia.
  - unfold output_bound_ops. rewrite imap_cons.
    rewrite !Nat.add_0_r.
    assert (Hdim : dim = nth a shape 0%Z).
    { specialize (Hshape 0 ltac:(cbn; lia)). cbn in Hshape.
      now rewrite Nat.add_0_r in Hshape. }
    subst dim.
    rewrite exec_all_cons, exec_bound_op. cbn [mbind option_bind].
    rewrite (imap_ext _ (fun j dim => bound_op (mkValue (S m + j) IndexTy)
                                        xla_output (S a + j) dim))
      by (intros j x _; cbn; do 2 f_equal; lia).
    fold (output_bound_ops xla_output (S m) (S a) rest).
    set (st1 := define (mkValue m IndexTy) _ st).
    destruct (IH (S m) (S a) st1) as (st' & Hrun & Hl & Hf & Hfr & Hvals).
    { intros j Hj. specialize (Hshape (S j) ltac:(cbn; lia)).
      cbn in Hshape. rewrite Hshape. f_equal. lia. }
    exists st'. split; [ exact Hrun | ].
    split; [ now rewrite Hl | ]. split; [ now rewrite Hf | ].
    split.
    + intros k Hk. rewrite Hfr by lia. subst st1. unfold define.
      cbn [env v_id]. now env_lookup.
    + intros j Hj. destruct j as [ | j ].
      * rewrite !Nat.add_0_r. rewrite Hfr by lia. subst st1. unfold define.
        cbn [env v_id]. now env_lookup.
      * replace (m + S j) with (S m + j) by lia.
        replace (a + S j) with (S a + j) by lia.
        apply Hvals. cbn in Hj. lia.
Qed.

Lemma exec_window_bound_ops rt :
  forall window_dimensions m st,
  exists st',
    exec_all rt (window_bound_ops m window_dimensions) st = Some st'
    /\ loads st' = loads st /\ fed st' = fed st
    /\ (forall k, k < m -> env st' !! k = env st !! k)
    /\ forall j, j < length window_dimensions ->
         env st' !! (m + j)
         = Some (IndexVal (wrap (rt_index_bits rt)
                             (nth j window_dimensions 0%Z))).
Proof.
  induction window_dimensions as [ | dim rest IH ]; intros m st.
  - exists st. cbn. do 3 (split; [ reflexivity | ]).
    split; [ reflexivity | ]. intros j Hj. lia.
  - unfold window_bound_ops. rewrite imap_cons.
    rewrite !Nat.add_0_r.
    rewrite exec_all_cons. cbn [mbind option_bind exec_op].
    rewrite (imap_ext _ (fun j window_dim =>
                           ConstantIndexOp (mkValue (S m + j) IndexTy)
                             window_dim))
      by (intros j x _; cbn; do 2 f_equal; lia).
    fold (window_bound_ops (S m) rest).
    set (st1 := define (mkValue m IndexTy) _ st).
    destruct (IH (S m) st1) as (st' & Hrun & Hl & Hf & Hfr & Hvals).
    exists st'. split; [ exact Hrun | ].
    split; [ now rewrite Hl | ]. split; [ now rewrite Hf | ].
    split.
    + intros k Hk. rewrite Hfr by lia. subst st1. unfold define.
      cbn [env v_id]. now env_lookup.
    + intros j Hj. destruct j as [ | j ].
      * rewrite !Nat.add_0_r. rewrite Hfr by lia. subst st1. unfold define.
        cbn [env v_id nth]. now env_lookup.
      * replace (m + S j) with (S m + j) by lia. cbn [nth].
        apply Hvals. cbn in Hj. lia.
Qed.

Lemma index_values_from_0 k : forall m,
  index_values m k = map (fun j => mkValue (m + j) IndexTy) (seq 0 k).
Proof.
  induction k as [ | k IH ]; intros m; [ reflexivity | ].
  unfold index_values. cbn [seq map]. fold (index_values (S m) k).
  rewrite Nat.add_0_r. f_equal.
  rewrite IH, <- seq_shift, map_map.
  apply map_ext. intros j. f_equal. lia.
Qed.

Lemma mapM_eval_index_values st m k (x : nat -> RtVal) :
  (forall j, j < k -> env st !! (m + j) = Some (x j)) ->
  mapM (eval st) (index_values m k) = Some (map x (seq 0 k)).
Proof.
  intros H. rewrite index_values_from_0.
  apply mapM_map_Some. intros j Hj. apply in_seq in Hj.
  unfold eval. cbn [v_id]. apply H. lia.
Qed.

Lemma mapM_eval_const {A} st (v : Value) (x : RtVal) (l : list A) :
  eval st v = Some x ->
  mapM (eval st) (map (fun _ => v) l) = Some (map (fun _ => x) l).
Proof. intros H. apply mapM_map_Some. intros _ _. exact H. Qed.

(** X12.  The windowed converter loads the initial value once, first thing
    at the insertion point, in front of the loops.  Its output loop runs
    over the output buffer: executed, the operations in front of it give
    its lower bounds the value 0, its steps the value 1 and its upper
    bounds the extents of the output, static or read at run time.  The body
    of the output loop holds the bounds of the window loop -- 0, the window
    dimensions, 1 --, the window loop, whose only initial value is the
    loaded one, and the store of the window loop's result to the output at
    the induction variables of the output loop. *)
Theorem window_loops_span_output_and_window
    op s out_shape out_ety init_ety blk rt st :
  v_ty (rw_out op) = MemRefTy out_shape out_ety ->
  getElementType (v_ty (rw_init_value op)) = Some init_ety ->
  blocks s !! ip_block s = Some blk ->
  (0 < rt_index_bits rt)%Z ->
  let bits := rt_index_bits rt in
  let window_dimensions := rw_window_dimensions op in
  exists output_loop window_loop s' init setup lo up stp wsetup wlo wup wstp
         st1 st2,
    CreateParallelLoopsToTraverseOutputAndWindow op s
    = Ok (output_loop, window_loop) s'
    /\ (exists bounds, setup = LoadOp init (rw_init_value op) [] :: bounds)
    /\ Forall (fun op => is_load op = false) (tl setup ++ wsetup)
    /\ par_inits window_loop = [init]
    /\ v_ty init = init_ety
    /\ blocks s' !! ip_block s
       = Some (splice (ip_pos s)
                 (setup ++ [ParallelOp [] lo up stp [] (par_body output_loop)])
                 blk)
    /\ blocks s' !! par_body output_loop
       = Some (mkBlock (par_ivs output_loop)
                 (wsetup
                  ++ [ParallelOp (par_results window_loop) wlo wup wstp
                        (par_inits window_loop) (par_body window_loop);
                      StoreOp (nth 0 (par_results window_loop) no_value)
                        (rw_out op) (par_ivs output_loop);
                      YieldOp []]))
    /\ length (par_results window_loop) = 1
    /\ exec_all rt setup st = Some st1
    /\ loads st1 = loads st ++ [(rw_init_value op, [])]
    /\ mapM (eval st1) lo = Some (map (fun _ => IndexVal 0) out_shape)
    /\ mapM (eval st1) up
       = Some (map (fun j =>
                      IndexVal (wrap bits
                                  (operand_extent rt (rw_out op) out_shape j)))
                 (seq 0 (length out_shape)))
    /\ mapM (eval st1) stp = Some (map (fun _ => IndexVal 1) out_shape)
    /\ exec_all rt wsetup st1 = Some st2
    /\ loads st2 = loads st1
    /\ mapM (eval st2) wlo = Some (map (fun _ => IndexVal 0) window_dimensions)
    /\ mapM (eval st2) wup
       = Some (map (fun dim => IndexVal (wrap bits dim)) window_dimensions)
    /\ mapM (eval st2) wstp
       = Some (map (fun _ => IndexVal 1) window_dimensions).
Proof.
  intros Hout Hinit Hblk Hbits bits window_dimensions.
  assert (Hip : ip_block s < length (blocks s))
    by (eapply lookup_lt_Some; eassumption).
  pose proof (CreateParallelLoopsToTraverseOutputAndWindow_run op s out_shape
                out_ety init_ety Hout Hinit Hip) as Hrun.
  cbv zeta in Hrun.
  set (n := next_value s) in *.
  set (orank := length out_shape) in *.
  set (wrank := length (rw_window_dimensions op)) in *.
  set (st0 := define (mkValue (n + 2) IndexTy) (IndexVal 1)
                (define (mkValue (n + 1) IndexTy) (IndexVal 0)
                   (mkExec
                      (<[n := ElemVal (rt_load rt (rw_init_value op) [])]>
                         (env st))
                      (loads st ++ [(rw_init_value op, [])]) (fed st)))).
  destruct (exec_output_bound_ops rt (rw_out op) out_shape out_shape (n + 3) 0
              st0) as (st1 & Hrun1 & Hl1 & _ & Hfr1 & Hvals1);
    [ reflexivity | ].
  destruct (exec_window_bound_ops rt (rw_window_dimensions op)
              (n + 3 + 2 * orank) st1)
    as (st2 & Hrun2 & Hl2 & _ & Hfr2 & Hvals2).
  assert (Hzero1 : eval st1 (mkValue (n + 1) IndexTy) = Some (IndexVal 0)).
  { unfold eval. cbn [v_id]. rewrite Hfr1 by lia. subst st0. unfold define.
    cbn [env v_id]. now env_lookup. }
  assert (Hone1 : eval st1 (mkValue (n + 2) IndexTy) = Some (IndexVal 1)).
  { unfold eval. cbn [v_id]. rewrite Hfr1 by lia. subst st0. unfold define.
    cbn [env v_id]. now env_lookup. }
  eexists. eexists. eexists. exists (mkValue n init_ety).
  exists ([LoadOp (mkValue n init_ety) (rw_init_value op) [];
           ConstantIndexOp (mkValue (n + 1) IndexTy) 0;
           ConstantIndexOp (mkValue (n + 2) IndexTy) 1]
          ++ output_bound_ops (rw_out op) (n + 3) 0 out_shape).
  eexists. eexists. eexists.
  exists (window_bound_ops (n + 3 + 2 * orank) (rw_window_dimensions op)).
  eexists. eexists. eexists.
  exists st1, st2.
  split; [ exact Hrun | ].
  split; [ eexists; reflexivity | ].
  split.
  { cbn [app tl].
    constructor; [ reflexivity | ].
    constructor; [ reflexivity | ].
    apply Forall_app. split.
    - apply Forall_forall. intros x Hx. unfold output_bound_ops in Hx.
      apply list_elem_of_lookup in Hx as [j Hx].
      rewrite list_lookup_imap in Hx.
      destruct (out_shape !! j) as [ dim | ]; [ | discriminate ].
      injection Hx as <-. unfold bound_op.
      now destruct (dim =? kDynamicSize)%Z.
    - apply Forall_forall. intros x Hx. unfold window_bound_ops in Hx.
      apply list_elem_of_lookup in Hx as [j Hx].
      rewrite list_lookup_imap in Hx.
      destruct (rw_window_dimensions op !! j) as [ dim | ]; [ | discriminate ].
      now injection Hx as <-. }
  split; [ reflexivity | ]. split; [ reflexivity | ].
  cbn [blocks par_body par_ivs par_results par_inits nth length].
  split.
  { rewrite lookup_app_l by (rewrite length_insert_at; lia).
    rewrite (lookup_insert_at_eq _ _ _ _ _ Hblk).
    rewrite <- !app_assoc. reflexivity. }
  split.
  { rewrite lookup_app_r by (rewrite length_insert_at; lia).
    rewrite length_insert_at, Nat.sub_diag. reflexivity. }
  split; [ reflexivity | ].
  split.
  { rewrite exec_all_app.
    rewrite exec_all_cons. cbn [exec_op mapM mbind option_bind mret option_ret].
    rewrite exec_all_cons. cbn [exec_op mbind option_bind].
    rewrite exec_all_cons. cbn [exec_op mbind option_bind exec_all].
    rewrite wrap_0, wrap_1 by assumption.
    exact Hrun1. }
  split; [ rewrite Hl1; reflexivity | ].
  split; [ now apply mapM_eval_const | ].
  split.
  { apply mapM_eval_index_values. intros j Hj. now apply Hvals1. }
  split; [ now apply mapM_eval_const | ].
  split; [ exact Hrun2 | ].
  split; [ exact Hl2 | ].
  assert (Hzero2 : eval st2 (mkValue (n + 1) IndexTy) = Some (IndexVal 0)).
  { unfold eval in *. cbn [v_id] in *. rewrite Hfr2 by lia. exact Hzero1. }
  assert (Hone2 : eval st2 (mkValue (n + 2) IndexTy) = Some (IndexVal 1)).
  { unfold eval in *. cbn [v_id] in *. rewrite Hfr2 by lia. exact Hone1. }
  split; [ now apply mapM_eval_const | ].
  split; [ | now apply mapM_eval_const ].
  rewrite (mapM_eval_index_values st2 _ _
             (fun j => IndexVal (wrap bits (nth j window_dimensions 0%Z)))).
  - f_equal. subst window_dimensions wrank.
    apply nth_ext with (d := IndexVal 0) (d' := IndexVal 0).
    + now rewrite !length_map, length_seq.
    + intros j Hj. rewrite length_map, length_seq in Hj.
      rewrite (nth_indep _ _ (IndexVal (wrap bits (nth (length
                 (rw_window_dimensions op)) (rw_window_dimensions op) 0%Z))))
        by (rewrite length_map, length_seq; exact Hj).
      rewrite (map_nth (fun j => IndexVal (wrap bits (nth j _ 0%Z)))).
      rewrite seq_nth by exact Hj. cbn [Nat.add].
      rewrite (nth_indep _ _ (IndexVal (wrap bits 0))) by (now rewrite length_map).
      now rewrite (map_nth (fun dim => IndexVal (wrap bits dim))).
  - intros j Hj. now apply Hvals2.
Qed.

(** * The loop nest of a plain reduction, read and executed *)

Lemma p_has_outer_true (c : ReduceCtx) :
  p_kept c <> [] -> p_has_outer c = true.
Proof. unfold p_has_outer. destruct (p_kept c); congruence. Qed.

(** X13.  When an axis is kept, the plain converter leaves at the
    insertion point the operations of the partitioner, one load of the
    initial value and the outer loop over the partitioner's kept bounds;
    the body of the outer loop holds the inner loop over the reduced
    bounds, started from the loaded initial value, and then the store of
    the inner loop's result to the output at the induction variables of the
    outer loop, of which there is one per kept axis. *)
Theorem reduction_result_stored_in_outer_loop op s operand more_operands
    out more_out init_buf more_init shape ety init_ety blk :
  r_operands op = operand :: more_operands ->
  r_out op = out :: more_out ->
  r_init_values op = init_buf :: more_init ->
  v_ty operand = MemRefTy shape ety ->
  getElementType (v_ty init_buf) = Some init_ety ->
  blocks s !! ip_block s = Some blk ->
  let reducing_dims := reducing_dims_of (r_dimensions op) in
  let rank := length shape in
  kept_axes reducing_dims 0 rank <> [] ->
  exists reduce_op s' parallel reduce setup init result outer_ivs inner_ivs
         inner_ops,
    CreateReduceOpInNestedParallelLoops op s = Ok reduce_op s'
    /\ partition_dims operand reducing_dims 0 shape no_bounds no_bounds s
       = Ok (parallel, reduce) (emit_ops (3 * rank) setup s)
    /\ blocks s' !! ip_block s
       = Some (splice (ip_pos s)
                 (setup
                  ++ [LoadOp init init_buf [];
                      ParallelOp [] (lower parallel) (upper parallel)
                        (step parallel) [] (length (blocks s))])
                 blk)
    /\ blocks s' !! length (blocks s)
       = Some (mkBlock outer_ivs
                 [ParallelOp [result] (lower reduce) (upper reduce)
                    (step reduce) [init] (length (blocks s) + 1);
                  StoreOp result out outer_ivs;
                  YieldOp []])
    /\ blocks s' !! (length (blocks s) + 1) = Some (mkBlock inner_ivs inner_ops)
    /\ length outer_ivs = length (kept_axes reducing_dims 0 rank)
    /\ length inner_ivs = length (reduced_axes reducing_dims 0 rank)
    /\ v_ty init = init_ety /\ v_ty result = init_ety.
Proof.
  intros Hops Hout Hinit Hty Hity Hblk reducing_dims rank Hkept.
  assert (Hip : ip_block s < length (blocks s))
    by (eapply lookup_lt_Some; eassumption).
  set (c := mkReduceCtx op (next_value s) (length (blocks s)) operand init_buf
              out shape ety init_ety).
  pose proof (CreateReduceOpInNestedParallelLoops_run op s operand
                more_operands out more_out init_buf more_init shape ety
                init_ety Hops Hout Hinit Hty Hity Hip) as Hrun.
  cbv zeta in Hrun. fold c in Hrun.
  assert (Hho : p_has_outer c = true) by now apply p_has_outer_true.
  exists (p_reduce_op c), (p_state c s),
    (axes_bounds (next_value s) (kept_axes reducing_dims 0 rank)),
    (axes_bounds (next_value s) (reduced_axes reducing_dims 0 rank)),
    (partition_ops operand (next_value s) shape),
    (p_init c), (p_result c), (p_outer_ivs c), (p_inner_ivs c),
    [LoadOp (p_elem c) (pc_operand c) (p_indices c);
     ReduceOp (p_elem c) (p_inner_body_id c + 1); YieldOp []].
  split; [ exact Hrun | ].
  split; [ apply partition_dims_run | ].
  split.
  { unfold p_state. cbn [blocks].
    rewrite lookup_app_l by (rewrite length_insert_at; lia).
    rewrite (lookup_insert_at_eq _ _ _ _ _ Hblk).
    unfold p_root_ops. rewrite Hho. reflexivity. }
  assert (H0 : blocks (p_state c s) !! (pc_nb c + 0) = Some (p_outer_body c)).
  { apply p_state_lookup; [ reflexivity | ].
    unfold p_new_blocks. now rewrite Hho. }
  assert (H1 : blocks (p_state c s) !! (pc_nb c + 1) = Some (p_inner_body c)).
  { apply p_state_lookup; [ reflexivity | ].
    unfold p_new_blocks. now rewrite Hho. }
  cbn [pc_nb c] in H0, H1. rewrite Nat.add_0_r in H0.
  split.
  { rewrite H0.
    unfold p_outer_body, p_inner_loop, p_store, p_out_indices,
      p_inner_body_id.
    rewrite Hho. reflexivity. }
  split; [ exact H1 | ].
  split; [ apply length_index_values | ].
  split; [ apply length_index_values | ].
  split; reflexivity.
Qed.

Lemma eval_interleaved rd rank (m : nat) (o r : list Z) bits i e :
  let kept := kept_axes rd 0 rank in
  let reduced := reduced_axes rd 0 rank in
  let outer_ivs := index_values m (length kept) in
  let inner_ivs := index_values (m + length kept) (length reduced) in
  length o = length kept ->
  length r = length reduced ->
  i < rank ->
  bind_values outer_ivs (coordinates bits o)
    (bind_values inner_ivs (coordinates bits r) e)
  !! v_id (interleaved rd outer_ivs inner_ivs i)
  = Some (IndexVal
            (wrap bits
               (if count rd i
                then nth (length (reduced_axes rd 0 i)) r 0%Z
                else nth (length (kept_axes rd 0 i)) o 0%Z))).
Proof.
  intros kept reduced outer_ivs inner_ivs Ho Hr Hi.
  subst outer_ivs inner_ivs kept reduced.
  unfold interleaved. destruct (count rd i) eqn:Hc.
  - pose proof (reduced_before_lt rd i rank Hi Hc) as Hlt.
    rewrite nth_index_values by exact Hlt. cbn [v_id].
    rewrite bind_values_index_other by lia.
    rewrite bind_values_index_lookup
      by (rewrite ?length_coordinates; lia).
    apply coordinates_lookup. lia.
  - pose proof (kept_before_lt rd i rank Hi Hc) as Hlt.
    rewrite nth_index_values by exact Hlt. cbn [v_id].
    rewrite bind_values_index_lookup
      by (rewrite ?length_coordinates; lia).
    apply coordinates_lookup. lia.
Qed.

(** X14.  One iteration of the inner loop of a plain reduction, at the
    coordinates [o] of the outer loop and [r] of the inner loop, performs
    exactly one load, of the operand at the coordinate that takes its
    kept axes from [o] and its reduced axes from [r], each in order, and
    hands the loaded element to [loop.reduce]. *)
Theorem reduce_body_loads_merged_coordinate op s operand more_operands
    out more_out init_buf more_init shape ety init_ety rt o r depth :
  r_operands op = operand :: more_operands ->
  r_out op = out :: more_out ->
  r_init_values op = init_buf :: more_init ->
  v_ty operand = MemRefTy shape ety ->
  getElementType (v_ty init_buf) = Some init_ety ->
  ip_block s < length (blocks s) ->
  let reducing_dims := reducing_dims_of (r_dimensions op) in
  let rank := length shape in
  let bits := rt_index_bits rt in
  length o = length (kept_axes reducing_dims 0 rank) ->
  length r = length (reduced_axes reducing_dims 0 rank) ->
  exists reduce_op s' inner_body_id inner_body outer_ivs,
    CreateReduceOpInNestedParallelLoops op s = Ok reduce_op s'
    /\ blocks s' !! inner_body_id = Some inner_body
    /\ (match kept_axes reducing_dims 0 rank with
        | [] => outer_ivs = [] /\ inner_body_id = length (blocks s)
        | _ => inner_body_id = length (blocks s) + 1
               /\ exists outer_ops,
                    blocks s' !! length (blocks s)
                    = Some (mkBlock outer_ivs outer_ops)
        end)
    /\ let env0 :=
         bind_values outer_ivs (coordinates bits o)
           (bind_values (b_args inner_body) (coordinates bits r) ∅) in
       let coordinate :=
         map (fun i =>
                wrap bits
                  (if count reducing_dims i
                   then nth (length (reduced_axes reducing_dims 0 i)) r 0%Z
                   else nth (length (kept_axes reducing_dims 0 i)) o 0%Z))
             (seq 0 rank) in
       exists st,
         run_ops (S depth) (blocks s') rt (b_ops inner_body)
           (mkExec env0 [] [])
         = Some (st, [])
         /\ loads st = [(operand, coordinate)]
         /\ fed st = [ElemVal (rt_load rt operand coordinate)].
Proof.
  intros Hops Hout Hinit Hty Hity Hip reducing_dims rank bits Ho Hr.
  set (c := mkReduceCtx op (next_value s) (length (blocks s)) operand init_buf
              out shape ety init_ety).
  pose proof (CreateReduceOpInNestedParallelLoops_run op s operand
                more_operands out more_out init_buf more_init shape ety
                init_ety Hops Hout Hinit Hty Hity Hip) as Hrun.
  cbv zeta in Hrun. fold c in Hrun.
  assert (Hkept : kept_axes reducing_dims 0 rank = p_kept c) by reflexivity.
  exists (p_reduce_op c), (p_state c s), (p_inner_body_id c),
    (p_inner_body c), (p_outer_ivs c).
  split; [ exact Hrun | ].
  split.
  { unfold p_inner_body_id. destruct (p_has_outer c) eqn:Hb.
    - apply (p_state_lookup c s 1); [ reflexivity | ].
      unfold p_new_blocks. now rewrite Hb.
    - apply (p_state_lookup c s 0); [ reflexivity | ].
      unfold p_new_blocks. now rewrite Hb. }
  split.
  { rewrite Hkept. unfold p_inner_body_id, p_has_outer, p_outer_ivs.
    destruct (p_kept c) as [ | a kept ] eqn:Hk.
    - split; [ reflexivity | cbn [pc_nb c]; lia ].
    - split; [ reflexivity | ].
      exists [p_inner_loop c; p_store c; YieldOp []].
      rewrite <- (Nat.add_0_r (length (blocks s))).
      apply (p_state_lookup c s 0); [ reflexivity | ].
      unfold p_new_blocks, p_has_outer. rewrite Hk.
      unfold p_outer_body, p_outer_ivs. now rewrite Hk. }
  cbv zeta. cbn [p_inner_body b_args b_ops run_ops run_with exec_op].
  assert (Hidx :
    mapM (eval_index
            (mkExec
               (bind_values (p_outer_ivs c) (coordinates bits o)
                  (bind_values (p_inner_ivs c) (coordinates bits r) ∅))
               [] []))
         (p_indices c)
    = Some (map (fun i =>
                   wrap bits
                     (if count reducing_dims i
                      then nth (length (reduced_axes reducing_dims 0 i)) r 0%Z
                      else nth (length (kept_axes reducing_dims 0 i)) o 0%Z))
              (seq 0 rank))).
  { unfold p_indices. apply mapM_map_Some. intros i Hi.
    apply in_seq in Hi. unfold eval_index, eval. cbn [env].
    pose proof (eval_interleaved reducing_dims rank (p_base c + 1) o r bits i
                  ∅ Ho Hr ltac:(lia)) as He.
    cbv zeta in He.
    match type of He with
    | ?lhs = _ =>
        match goal with
        | |- context [ ?l !! ?k ] => change (l !! k) with lhs
        end
    end.
    rewrite He. reflexivity. }
  rewrite Hidx. cbn [mbind option_bind].
  eexists. split.
  - unfold eval. cbn [env loads fed]. rewrite lookup_insert_eq.
    cbn [mbind option_bind mapM mret option_ret]. reflexivity.
  - split; reflexivity.
Qed.

(** * The window index without overflow *)

Lemma signed_window_index_exact bits strides padding o w j :
  (0 < bits)%Z ->
  (- 2 ^ (bits - 1)
   <= nth j o 0 * nth j strides 0 + nth j w 0 - fst (nth j padding (0, 0))
   < 2 ^ (bits - 1))%Z ->
  signed_window_index bits strides padding o w j
  = (nth j o 0 * nth j strides 0 + nth j w 0 - fst (nth j padding (0, 0)))%Z.
Proof.
  intros Hbits H. unfold signed_window_index, window_index.
  now apply signed_wrap_small.
Qed.

(** X15.  When [o_j * stride_j + w_j - pad_low_j] does not overflow the
    index type, and the extents are below half its range, one iteration of the emitted window loop does what the
    pseudocode of the source says, on the integers: it feeds
    [loop.reduce] the operand element at these indices when
    [0 <= index_j < extent_j] on every axis, and the initial value, without
    any load, otherwise. *)
Theorem window_element_or_neutral_exact
    op s shape ety out_shape out_ety init_ety strides padding :
  v_ty (rw_operand op) = MemRefTy shape ety ->
  v_ty (rw_out op) = MemRefTy out_shape out_ety ->
  getElementType (v_ty (rw_init_value op)) = Some init_ety ->
  rw_window_strides op = Some strides ->
  rw_padding op = Some padding ->
  length strides = length out_shape ->
  length padding = length out_shape ->
  length (rw_window_dimensions op) = length out_shape ->
  length shape = length out_shape ->
  ip_block s < length (blocks s) ->
  exists output_loop window_loop reduce_op s0 s1 body init,
    CreateParallelLoopsToTraverseOutputAndWindow op s
    = Ok (output_loop, window_loop) s0
    /\ ReduceWindow_CreateReduceOpInNestedParallelLoops op output_loop
         window_loop s0
       = Ok reduce_op s1
    /\ blocks s1 !! par_body window_loop = Some body
    /\ b_args body = par_ivs window_loop
    /\ par_inits window_loop = [init]
    /\ forall rt o w neutral depth,
         let bits := rt_index_bits rt in
         let rank := length out_shape in
         let extent := operand_extent rt (rw_operand op) shape in
         let index j :=
           (nth j o 0 * nth j strides 0 + nth j w 0
            - fst (nth j padding (0, 0)))%Z in
         (0 < bits)%Z ->
         length o = rank ->
         length w = rank ->
         (forall j, j < rank -> (0 <= extent j < 2 ^ (bits - 1))%Z) ->
         (forall j, j < rank ->
            (- 2 ^ (bits - 1) <= index j < 2 ^ (bits - 1))%Z) ->
         let env0 :=
           bind_values (par_ivs output_loop) (coordinates bits o)
             (bind_values (par_ivs window_loop) (coordinates bits w)
                {[ v_id init := ElemVal neutral ]}) in
         let indices := map index (seq 0 rank) in
         let in_bounds :=
           forallb (fun j => (0 <=? index j)%Z && (index j <? extent j)%Z)
                   (seq 0 rank) in
         exists st,
           run_ops (S depth) (blocks s1) rt (b_ops body) (mkExec env0 [] [])
           = Some (st, [])
           /\ fed st
              = [ElemVal (if in_bounds
                          then rt_load rt (rw_operand op) indices
                          else neutral)]
           /\ loads st
              = (if in_bounds then [(rw_operand op, indices)] else []).
Proof.
  intros Hty Hout Hinit Hs Hp Hls Hlp Hlw Hlsh Hip.
  set (c := mkWindowCtx op (next_value s) (length (blocks s)) shape ety
              out_shape init_ety strides padding).
  destruct (window_nest_run op s shape ety out_shape out_ety init_ety strides
              padding Hty Hout Hinit Hs Hp) as (s0 & HD & HE);
    try assumption; try lia.
  fold c in HD, HE.
  exists (w_output_loop c), (w_window_loop c), (w_reduce_op c), s0,
    (w_state c s), (w_window_body c), (w_init_value c).
  split; [ exact HD | ]. split; [ exact HE | ].
  split; [ apply (w_state_lookup c s 1); reflexivity | ].
  split; [ reflexivity | ]. split; [ reflexivity | ].
  intros rt o w neutral depth bits rank extent index Hbits Hlo Hlw' Hext Hidx
    env0 indices in_bounds.
  assert (Hor : w_orank c = length out_shape) by reflexivity.
  assert (Hwr : w_wrank c = length out_shape) by (unfold w_wrank; exact Hlw).
  destruct (run_window_body c (blocks (w_state c s)) rt o w neutral
              (mkExec env0 [] []) depth Hbits)
    as (st & Hrun & Hfed & Hloads).
  - apply (w_state_lookup c s 2); reflexivity.
  - apply (w_state_lookup c s 3); reflexivity.
  - exact Hls.
  - now rewrite Hwr.
  - intros j Hj. cbn [env]. subst env0.
    unfold w_output_loop, w_window_loop. cbn [par_ivs]. unfold w_output_ivs.
    rewrite bind_values_index_lookup
      by (rewrite ?length_coordinates; lia).
    apply coordinates_lookup. lia.
  - intros j Hj. cbn [env]. subst env0.
    unfold w_output_loop, w_window_loop. cbn [par_ivs].
    unfold w_output_ivs, w_window_ivs.
    rewrite bind_values_index_other by lia.
    rewrite bind_values_index_lookup
      by (rewrite ?length_coordinates; lia).
    apply coordinates_lookup. lia.
  - cbn [env]. subst env0.
    unfold w_output_loop, w_window_loop. cbn [par_ivs].
    unfold w_output_ivs, w_window_ivs.
    rewrite bind_values_index_other by (cbn [wc_n c]; lia).
    rewrite bind_values_index_other by (cbn [wc_n c]; lia).
    unfold w_init_value. cbn [v_id]. now rewrite lookup_singleton_eq.
  - cbv zeta in Hrun, Hfed, Hloads. cbn [fed loads app] in Hfed, Hloads.
    assert (Heq : window_in_bounds_ult rt (rw_operand (wc_op c)) (wc_shape c)
                    (wc_strides c) (wc_padding c) o w 0 (w_orank c)
                  = in_bounds).
    { rewrite window_in_bounds_ult_signed by assumption.
      unfold window_in_bounds. cbv zeta. subst in_bounds.
      apply forallb_ext_in. intros j Hj. apply in_seq in Hj.
      rewrite signed_window_index_exact
        by (try assumption; apply Hidx; cbn [w_orank wc_out_shape c] in Hj;
            lia).
      reflexivity. }
    assert (Hind : in_bounds = true ->
              map (window_index (rt_index_bits rt) (wc_strides c)
                     (wc_padding c) o w) (seq 0 (w_orank c))
              = indices).
    { intros Hin. subst indices. apply map_ext_in. intros j Hj.
      subst in_bounds. rewrite forallb_forall in Hin.
      specialize (Hin j Hj). apply in_seq in Hj.
      apply andb_true_iff in Hin as [Hlo' Hhi].
      apply Z.leb_le in Hlo'. apply Z.ltb_lt in Hhi.
      unfold window_index. apply wrap_small.
      specialize (Hext j ltac:(cbn [w_orank wc_out_shape c] in Hj; lia)).
      destruct (pow2_half _ Hbits) as [Hfull Hhalf].
      subst index extent bits. cbv beta in *. cbn [wc_strides wc_padding c].
      lia. }
    rewrite Heq in Hfed, Hloads.
    exists st. split; [ exact Hrun | ].
    destruct in_bounds eqn:Hin.
    + rewrite Hind in Hfed, Hloads by reflexivity. split; assumption.
    + split; assumption.
Qed.

Lemma nth_map_seq (f : nat -> Z) rank j :
  j < rank -> nth j (map f (seq 0 rank)) 0%Z = f j.
Proof.
  intros Hj.
  rewrite (nth_indep _ 0%Z (f 0)) by (now rewrite length_map, length_seq).
  rewrite (map_nth f). now rewrite seq_nth.
Qed.

(** X16.  Whatever the output coordinate and the window element, and even
    when the index computation wraps around, the one load that an iteration
    of the emitted window loop can perform reads the operand at indices
    that lie within its extents on every axis, the extents being values of
    the index type. *)
Theorem window_load_within_operand
    op s shape ety out_shape out_ety init_ety strides padding :
  v_ty (rw_operand op) = MemRefTy shape ety ->
  v_ty (rw_out op) = MemRefTy out_shape out_ety ->
  getElementType (v_ty (rw_init_value op)) = Some init_ety ->
  rw_window_strides op = Some strides ->
  rw_padding op = Some padding ->
  length strides = length out_shape ->
  length padding = length out_shape ->
  length (rw_window_dimensions op) = length out_shape ->
  length shape = length out_shape ->
  ip_block s < length (blocks s) ->
  exists output_loop window_loop reduce_op s0 s1 body init,
    CreateParallelLoopsToTraverseOutputAndWindow op s
    = Ok (output_loop, window_loop) s0
    /\ ReduceWindow_CreateReduceOpInNestedParallelLoops op output_loop
         window_loop s0
       = Ok reduce_op s1
    /\ blocks s1 !! par_body window_loop = Some body
    /\ par_inits window_loop = [init]
    /\ forall rt o w neutral depth,
         let bits := rt_index_bits rt in
         let rank := length out_shape in
         let extent := operand_extent rt (rw_operand op) shape in
         (0 < bits)%Z ->
         length o = rank ->
         length w = rank ->
         (forall j, j < rank -> (0 <= extent j < 2 ^ bits)%Z) ->
         let env0 :=
           bind_values (par_ivs output_loop) (coordinates bits o)
             (bind_values (par_ivs window_loop) (coordinates bits w)
                {[ v_id init := ElemVal neutral ]}) in
         exists st,
           run_ops (S depth) (blocks s1) rt (b_ops body) (mkExec env0 [] [])
           = Some (st, [])
           /\ length (loads st) <= 1
           /\ forall memref indices,
                In (memref, indices) (loads st) ->
                memref = rw_operand op
                /\ length indices = rank
                /\ forall j, j < rank ->
                     (0 <= nth j indices 0 < extent j)%Z.
Proof.
  intros Hty Hout Hinit Hs Hp Hls Hlp Hlw Hlsh Hip.
  set (c := mkWindowCtx op (next_value s) (length (blocks s)) shape ety
              out_shape init_ety strides padding).
  destruct (window_nest_run op s shape ety out_shape out_ety init_ety strides
              padding Hty Hout Hinit Hs Hp) as (s0 & HD & HE);
    try assumption; try lia.
  fold c in HD, HE.
  exists (w_output_loop c), (w_window_loop c), (w_reduce_op c), s0,
    (w_state c s), (w_window_body c), (w_init_value c).
  split; [ exact HD | ]. split; [ exact HE | ].
  split; [ apply (w_state_lookup c s 1); reflexivity | ].
  split; [ reflexivity | ].
  intros rt o w neutral depth bits rank extent Hbits Hlo Hlw' Hext env0.
  assert (Hor : w_orank c = length out_shape) by reflexivity.
  assert (Hwr : w_wrank c = length out_shape) by (unfold w_wrank; exact Hlw).
  destruct (run_window_body c (blocks (w_state c s)) rt o w neutral
              (mkExec env0 [] []) depth Hbits)
    as (st & Hrun & _ & Hloads).
  - apply (w_state_lookup c s 2); reflexivity.
  - apply (w_state_lookup c s 3); reflexivity.
  - exact Hls.
  - now rewrite Hwr.
  - intros j Hj. cbn [env]. subst env0.
    unfold w_output_loop, w_window_loop. cbn [par_ivs]. unfold w_output_ivs.
    rewrite bind_values_index_lookup
      by (rewrite ?length_coordinates; lia).
    apply coordinates_lookup. lia.
  - intros j Hj. cbn [env]. subst env0.
    unfold w_output_loop, w_window_loop. cbn [par_ivs].
    unfold w_output_ivs, w_window_ivs.
    rewrite bind_values_index_other by lia.
    rewrite bind_values_index_lookup
      by (rewrite ?length_coordinates; lia).
    apply coordinates_lookup. lia.
  - cbn [env]. subst env0.
    unfold w_output_loop, w_window_loop. cbn [par_ivs].
    unfold w_output_ivs, w_window_ivs.
    rewrite bind_values_index_other by (cbn [wc_n c]; lia).
    rewrite bind_values_index_other by (cbn [wc_n c]; lia).
    unfold w_init_value. cbn [v_id]. now rewrite lookup_singleton_eq.
  - cbv zeta in Hrun, Hloads. cbn [loads app] in Hloads.
    exists st. split; [ exact Hrun | ].
    rewrite Hloads.
    destruct (window_in_bounds_ult rt (rw_operand (wc_op c)) (wc_shape c)
                (wc_strides c) (wc_padding c) o w 0 (w_orank c)) eqn:Hin.
    + split; [ cbn; lia | ].
      intros memref indices [Heq | []]. injection Heq as <- <-.
      split; [ reflexivity | ].
      split; [ now rewrite length_map, length_seq | ].
      intros j Hj. rewrite nth_map_seq by (rewrite Hor; exact Hj).
      unfold window_in_bounds_ult in Hin. cbv zeta in Hin.
      rewrite forallb_forall in Hin.
      specialize (Hin j ltac:(apply in_seq; rewrite Hor; lia)).
      unfold cmpi in Hin. apply Z.ltb_lt in Hin.
      rewrite wrap_small in Hin by (apply Hext; exact Hj).
      pose proof (wrap_range (rt_index_bits rt)
                    (nth j o 0 * nth j (wc_strides c) 0 + nth j w 0
                     - fst (nth j (wc_padding c) (0, 0)))%Z Hbits) as Hr.
      unfold window_index in *. subst extent.
      cbn [wc_op wc_shape wc_strides wc_padding c] in *.
      lia.
    + split; [ cbn; lia | ]. intros memref indices [].
Qed.

(** * What is read of the strides and of the padding *)

Lemma bind_deref_Some {A B} (a : A) (k : A -> M B) s :
  bind (deref (Some a)) k s = k a s.
Proof. reflexivity. Qed.

Lemma operand_index_loop_ext xla_operand shape output_ivs window_ivs
    strides1 strides2 (padding1 padding2 : list (Z * Z)) :
  forall n i operand_indices in_bounds s,
  (forall j, i <= j < i + n ->
     strides1 !! j = strides2 !! j
     /\ fst <$> padding1 !! j = fst <$> padding2 !! j) ->
  operand_index_loop xla_operand shape output_ivs window_ivs strides1 padding1
    i n operand_indices in_bounds s
  = operand_index_loop xla_operand shape output_ivs window_ivs strides2
      padding2 i n operand_indices in_bounds s.
Proof.
  induction n as [ | n IH ]; intros i operand_indices in_bounds s H;
    [ reflexivity | ].
  cbn [operand_index_loop].
  destruct (H i ltac:(lia)) as [Hs Hp]. rewrite Hs.
  apply bind_ext; [ reflexivity | intros stride s1 _ ].
  destruct (padding1 !! i) as [ [low1 high1] | ];
    destruct (padding2 !! i) as [ [low2 high2] | ];
    try discriminate Hp; [ | reflexivity ].
  cbn in Hp. injection Hp as ->.
  rewrite !bind_deref_Some. cbn [fst].
  repeat (apply bind_ext; [ reflexivity | intros ? ? _ ]).
  apply IH. intros j Hj. apply H. lia.
Qed.

(** X17.  Of [window_strides] and [padding] the windowed converter reads
    one entry per axis of the output, and of a padding entry only the low
    side: other strides, other padding entries and every high padding are
    without effect on the conversion. *)
Theorem only_low_padding_is_read op strides1 strides2 padding1 padding2 s :
  ip_block s < length (blocks s) ->
  let rank := rank_of (rw_out op) in
  take rank strides1 = take rank strides2 ->
  map fst (take rank padding1) = map fst (take rank padding2) ->
  ReduceWindowOpConverter_matchAndRewrite
    (with_window_attributes op strides1 padding1) s
  = ReduceWindowOpConverter_matchAndRewrite
      (with_window_attributes op strides2 padding2) s.
Proof.
  intros Hip rank Hstrides Hpadding.
  unfold ReduceWindowOpConverter_matchAndRewrite.
  apply bind_ext; [ reflexivity | intros [output_loop window_loop] s0 Hloops ].
  apply bind_ext; [ | intros; reflexivity ].
  assert (Hrank : getNumLoops output_loop = rank).
  { destruct (CreateParallelLoops_Ok_inv _ _ _ _ Hloops)
      as (out_shape & out_ety & init_ety & Hout & Hinit).
    rewrite (CreateParallelLoopsToTraverseOutputAndWindow_run _ s out_shape
               out_ety init_ety Hout Hinit Hip) in Hloops.
    cbv zeta in Hloops. injection Hloops as <- _ _.
    unfold getNumLoops. cbn [par_step]. rewrite length_map.
    subst rank. unfold rank_of.
    change (rw_out (with_window_attributes op strides1 padding1))
      with (rw_out op) in Hout.
    now rewrite Hout. }
  unfold ReduceWindow_CreateReduceOpInNestedParallelLoops.
  apply bind_ext; [ reflexivity | intros u1 s1 _ ].
  apply bind_ext; [ reflexivity | intros u2 s2 _ ].
  unfold select_element_or_init. cbv zeta.
  cbn [rw_window_strides rw_padding rw_operand with_window_attributes].
  apply bind_ext; [ reflexivity | intros operand_type s3 _ ].
  apply bind_ext; [ reflexivity | intros shape s4 _ ].
  rewrite !bind_deref_Some.
  apply bind_ext; [ reflexivity | intros in_bounds0 s5 _ ].
  apply bind_ext; [ | intros; reflexivity ].
  apply operand_index_loop_ext. intros j Hj. rewrite Hrank in Hj.
  split.
  - rewrite <- (lookup_take_lt strides1 rank j) by lia.
    rewrite <- (lookup_take_lt strides2 rank j) by lia.
    now rewrite Hstrides.
  - rewrite <- (lookup_take_lt padding1 rank j) by lia.
    rewrite <- (lookup_take_lt padding2 rank j) by lia.
    rewrite <- !list_lookup_fmap.
    change (fst <$> take rank padding1) with (map fst (take rank padding1)).
    change (fst <$> take rank padding2) with (map fst (take rank padding2)).
    now rewrite Hpadding.
Qed.

(** * The further properties at the examples of the source *)

(** X1 at the maximum body. *)
Lemma transplanter_defined_iff_witness :
  is_undefined
    (ConvertToReductionOperator example_reduce_handle maximum_body
       example_state) = false
  <-> body_well_formed maximum_body = true.
Proof.
  apply (transplanter_defined_iff example_reduce_handle maximum_body
           example_state (mkValue 20 f32) (mkValue 21 f32)).
  reflexivity.
Defined.

(** X2 at the reduction of lines 83-87. *)
Lemma reduce_conversion_defined_iff_witness :
  is_undefined (ReduceOpConverter_matchAndRewrite example_reduce example_state)
  = false
  <-> length (r_out example_reduce) <> 1
      \/ reduce_well_formed example_reduce = true.
Proof.
  apply (reduce_conversion_defined_iff example_reduce example_state).
  - cbn. lia.
  - reflexivity.
Defined.

(** X3 at the windowed reduction of lines 240-254. *)
Lemma windowed_conversion_defined_iff_witness :
  is_undefined
    (ReduceWindowOpConverter_matchAndRewrite example_reduce_window
       example_state) = false
  <-> reduce_window_well_formed example_reduce_window = true.
Proof.
  apply (windowed_conversion_defined_iff example_reduce_window example_state).
  cbn. lia.
Defined.

(** X4: [dimensions = [2; 0; 2]] and [dimensions = [0; 2]]. *)
Lemma dimensions_read_as_set_witness :
  ReduceOpConverter_matchAndRewrite
    (with_dimensions example_reduce [2; 0; 2]%Z) example_state
  = ReduceOpConverter_matchAndRewrite
      (with_dimensions example_reduce [0; 2]%Z) example_state.
Proof.
  apply (dimensions_read_as_set example_reduce [2; 0; 2]%Z [0; 2]%Z
           example_state).
  intros z. simpl. lia.
Defined.

(** X5: the rank of the operand is 3, and dimension 3 names no axis. *)
Lemma out_of_range_dimension_ignored_witness :
  ReduceOpConverter_matchAndRewrite
    (with_dimensions example_reduce [3; 1]%Z) example_state
  = ReduceOpConverter_matchAndRewrite
      (with_dimensions example_reduce [1]%Z) example_state.
Proof.
  apply (out_of_range_dimension_ignored example_reduce 3%Z [1%Z]
           example_state).
  - vm_compute. reflexivity.
  - right. vm_compute. split; [ discriminate | reflexivity ].
Defined.

(** X6 at the reduction of lines 83-87: the operation that stood at the
    insertion point is still there, after the new ones. *)
Lemma reduce_rewrite_only_inserts_witness :
  exists s' new_ops,
    ReduceOpConverter_matchAndRewrite example_reduce example_state
    = Ok success s'
    /\ blocks s' !! 0 = Some (mkBlock [] (new_ops ++ [YieldOp []]))
    /\ diags s' = []
    /\ replaced s' = [7].
Proof.
  destruct (reduce_rewrite_only_inserts example_reduce example_state)
    as (s' & new_ops & Hrun & _ & Hat & Hd & Hr);
    try reflexivity; [ cbn; lia | ].
  exists s', new_ops.
  split; [ exact Hrun | ].
  split; [ apply (Hat (mkBlock [] [YieldOp []])); reflexivity | ].
  split; assumption.
Defined.

(** X7 at the windowed reduction of lines 240-254. *)
Lemma windowed_rewrite_only_inserts_witness :
  exists s' new_ops,
    ReduceWindowOpConverter_matchAndRewrite example_reduce_window
      example_state
    = Ok success s'
    /\ blocks s' !! 0 = Some (mkBlock [] (new_ops ++ [YieldOp []]))
    /\ diags s' = []
    /\ replaced s' = [7].
Proof.
  destruct (windowed_rewrite_only_inserts example_reduce_window example_state)
    as (s' & new_ops & Hrun & _ & Hat & Hd & Hr);
    try reflexivity; [ cbn; lia | ].
  exists s', new_ops.
  split; [ exact Hrun | ].
  split; [ apply (Hat (mkBlock [] [YieldOp []])); reflexivity | ].
  split; assumption.
Defined.


(** X9 at the reduction of lines 83-87, which keeps two axes. *)
Lemma reduce_blocks_closed_witness :
  exists s' res blk,
    ReduceOpConverter_matchAndRewrite example_reduce example_state
    = Ok success s'
    /\ blocks s' !! (length (blocks s') - 1) = Some blk
    /\ closed_by (ReduceReturnOp res) blk
    /\ length (List.filter is_lhlo (b_ops blk)) = 1.
Proof.
  destruct (reduce_blocks_closed example_reduce example_state)
    as (s' & res & blk & Hrun & _ & _ & Hblk & Hclosed & Hcount);
    try reflexivity; [ cbn; lia | ].
  exists s', res, blk.
  split; [ exact Hrun | ]. split; [ exact Hblk | ].
  split; [ exact Hclosed | exact Hcount ].
Defined.

(** X10 at a dynamic dimension. *)
Lemma GetStaticOrDynamicDim_reads_extent_witness :
  exists res op,
    GetStaticOrDynamicDim example_operand 1 kDynamicSize example_state
    = Ok res (emit_ops 1 [op] example_state)
    /\ exec_op static_runtime op (mkExec ∅ [] [])
       = Some (define res (IndexVal 0) (mkExec ∅ [] [])).
Proof.
  destruct (GetStaticOrDynamicDim_reads_extent example_operand 1 kDynamicSize
              example_state static_runtime (mkExec ∅ [] []))
    as (res & op & Hrun & _ & Hexec);
    [ left; reflexivity | ].
  exists res, op. split; assumption.
Defined.

(** X11 at the operand of lines 83-87 reduced along dimension 1: the outer
    loop runs to 100 and 5, the inner loop to 10. *)
Lemma reduce_loops_span_axes_witness :
  exists parallel reduce ops st',
    partition_dims example_operand (reducing_dims_of [1%Z]) 0
      [100; 10; 5]%Z no_bounds no_bounds example_state
    = Ok (parallel, reduce) (emit_ops 9 ops example_state)
    /\ exec_all static_runtime ops (mkExec ∅ [] []) = Some st'
    /\ mapM (eval st') (upper parallel) = Some [IndexVal 100; IndexVal 5]
    /\ mapM (eval st') (upper reduce) = Some [IndexVal 10].
Proof.
  destruct (reduce_loops_span_axes example_operand [1%Z] [100; 10; 5]%Z
              example_state static_runtime (mkExec ∅ [] []))
    as (parallel & reduce & ops & st' & Hrun & Hexec & _ & Hp & Hr & _);
    [ reflexivity | ].
  exists parallel, reduce, ops, st'.
  split; [ exact Hrun | ]. split; [ exact Hexec | ].
  split; [ rewrite Hp | rewrite Hr ]; vm_compute; reflexivity.
Defined.

(** X12 at the windowed reduction of lines 240-254: the output loop runs to
    56 and 56, the window loop to 3 and 3. *)
Lemma window_loops_span_output_and_window_witness :
  exists output_loop window_loop s' up wup st1 st2,
    CreateParallelLoopsToTraverseOutputAndWindow example_reduce_window
      example_state
    = Ok (output_loop, window_loop) s'
    /\ mapM (eval st1) up = Some [IndexVal 56; IndexVal 56]
    /\ mapM (eval st2) wup = Some [IndexVal 3; IndexVal 3].
Proof.
  destruct (window_loops_span_output_and_window example_reduce_window
              example_state [56; 56]%Z f32 f32 (mkBlock [] [YieldOp []])
              static_runtime (mkExec ∅ [] []))
    as (output_loop & window_loop & s' & init & setup & lo & up & stp & wsetup
        & wlo & wup & wstp & st1 & st2 & Hrun & _ & _ & _ & _ & _ & _ & _ & _
        & _ & _ & Hup & _ & _ & _ & _ & Hwup & _);
    try reflexivity.
  exists output_loop, window_loop, s', up, wup, st1, st2.
  split; [ exact Hrun | ].
  split; [ rewrite Hup | rewrite Hwup ]; vm_compute; reflexivity.
Defined.

(** X13 at the reduction of lines 83-87: the result is stored at
    [%i, %k]. *)
Lemma reduction_result_stored_in_outer_loop_witness :
  exists reduce_op s' result lo up st init,
    CreateReduceOpInNestedParallelLoops example_reduce example_state
    = Ok reduce_op s'
    /\ blocks s' !! 1
       = Some (mkBlock [mkValue 20 IndexTy; mkValue 21 IndexTy]
                 [ParallelOp [result] lo up st [init] 2;
                  StoreOp result example_out
                    [mkValue 20 IndexTy; mkValue 21 IndexTy];
                  YieldOp []]).
Proof.
  destruct (reduction_result_stored_in_outer_loop example_reduce example_state
              example_operand [] example_out [] (scalar_buf 1) []
              [100; 10; 5]%Z f32 f32 (mkBlock [] [YieldOp []]))
    as (reduce_op & s' & parallel & reduce & setup & init & result
        & outer_ivs & inner_ivs & inner_ops & Hrun & _ & _ & Houter & _);
    try reflexivity; [ vm_compute; discriminate | ].
  exists reduce_op, s', result, (lower reduce), (upper reduce), (step reduce),
    init.
  split; [ exact Hrun | ].
  revert Hrun Houter. vm_compute. intros Hrun Houter.
  injection Hrun as <- <-. vm_compute in Houter.
  injection Houter as <- <- <- <- <- <-. reflexivity.
Defined.

(** X14 at the reduction of lines 83-87: at [%i = 3], [%k = 4] and
    [%j = 5] the element loaded is the one at [3, 5, 4]. *)
Lemma reduce_body_loads_merged_coordinate_witness :
  exists reduce_op s' inner_body st,
    CreateReduceOpInNestedParallelLoops example_reduce example_state
    = Ok reduce_op s'
    /\ blocks s' !! 2 = Some inner_body
    /\ run_ops 1 (blocks s') static_runtime (b_ops inner_body)
         (mkExec
            (bind_values [mkValue 20 IndexTy; mkValue 21 IndexTy]
               (coordinates 64 [3; 4]%Z)
               (bind_values (b_args inner_body) (coordinates 64 [5]%Z) ∅))
            [] [])
       = Some (st, [])
    /\ loads st = [(example_operand, [3; 5; 4]%Z)].
Proof.
  destruct (reduce_body_loads_merged_coordinate example_reduce example_state
              example_operand [] example_out [] (scalar_buf 1) []
              [100; 10; 5]%Z f32 f32 static_runtime [3; 4]%Z [5]%Z 0)
    as (reduce_op & s' & inner_body_id & inner_body & outer_ivs & Hrun & Hbody
        & Houter & st & Hexec & Hloads & _);
    try reflexivity; [ cbn; lia | ].
  exists reduce_op, s', inner_body, st.
  split; [ exact Hrun | ].
  assert (Hid : inner_body_id = 2).
  { revert Houter. vm_compute. intros [Hid _]. exact Hid. }
  assert (Hivs : outer_ivs = [mkValue 20 IndexTy; mkValue 21 IndexTy]).
  { revert Hrun Houter. vm_compute. intros Hrun [_ [outer_ops Houter]].
    injection Hrun as <- <-. vm_compute in Houter.
    injection Houter as <- _. reflexivity. }
  subst inner_body_id outer_ivs.
  split; [ exact Hbody | ].
  split; [ exact Hexec | ].
  rewrite Hloads. vm_compute. reflexivity.
Defined.

(** X15 at the windowed reduction of lines 240-254: the last window
    element of the last output coordinate has index 112 on both axes, which
    is in the padding. *)
Lemma window_element_or_neutral_exact_witness :
  exists output_loop window_loop reduce_op s0 s1 body init st,
    CreateParallelLoopsToTraverseOutputAndWindow example_reduce_window
      example_state
    = Ok (output_loop, window_loop) s0
    /\ ReduceWindow_CreateReduceOpInNestedParallelLoops example_reduce_window
         output_loop window_loop s0
       = Ok reduce_op s1
    /\ blocks s1 !! par_body window_loop = Some body
    /\ run_ops 1 (blocks s1) static_runtime (b_ops body)
         (mkExec
            (bind_values (par_ivs output_loop) (coordinates 64 [55; 55]%Z)
               (bind_values (par_ivs window_loop) (coordinates 64 [2; 2]%Z)
                  {[ v_id init := ElemVal 7 ]})) [] [])
       = Some (st, [])
    /\ fed st = [ElemVal 7]
    /\ loads st = [].
Proof.
  destruct (window_element_or_neutral_exact example_reduce_window
              example_state [112; 112]%Z f32 [56; 56]%Z f32 f32 [2; 2]%Z
              [(0, 1); (0, 1)]%Z)
    as (output_loop & window_loop & reduce_op & s0 & s1 & body & init
        & HD & HE & Hbody & _ & _ & Hsem);
    try reflexivity; [ cbn; lia | ].
  destruct (Hsem static_runtime [55; 55]%Z [2; 2]%Z 7%Z 0)
    as (st & Hrun & Hfed & Hloads); try reflexivity.
  { intros j Hj.
    destruct j as [ | [ | j ] ];
      [ vm_compute; split; [ discriminate | reflexivity ]
      | vm_compute; split; [ discriminate | reflexivity ]
      | exfalso; cbn in Hj; lia ]. }
  { intros j Hj.
    destruct j as [ | [ | j ] ];
      [ vm_compute; split; [ discriminate | reflexivity ]
      | vm_compute; split; [ discriminate | reflexivity ]
      | exfalso; cbn in Hj; lia ]. }
  exists output_loop, window_loop, reduce_op, s0, s1, body, init, st.
  repeat split; assumption.
Defined.

(** X16 at the windowed reduction of lines 240-254, first window element
    of the last output coordinate. *)
Lemma window_load_within_operand_witness :
  exists output_loop window_loop reduce_op s0 s1 body init st,
    CreateParallelLoopsToTraverseOutputAndWindow example_reduce_window
      example_state
    = Ok (output_loop, window_loop) s0
    /\ ReduceWindow_CreateReduceOpInNestedParallelLoops example_reduce_window
         output_loop window_loop s0
       = Ok reduce_op s1
    /\ blocks s1 !! par_body window_loop = Some body
    /\ run_ops 1 (blocks s1) static_runtime (b_ops body)
         (mkExec
            (bind_values (par_ivs output_loop) (coordinates 64 [55; 55]%Z)
               (bind_values (par_ivs window_loop) (coordinates 64 [0; 0]%Z)
                  {[ v_id init := ElemVal 7 ]})) [] [])
       = Some (st, [])
    /\ length (loads st) <= 1.
Proof.
  destruct (window_load_within_operand example_reduce_window
              example_state [112; 112]%Z f32 [56; 56]%Z f32 f32 [2; 2]%Z
              [(0, 1); (0, 1)]%Z)
    as (output_loop & window_loop & reduce_op & s0 & s1 & body & init
        & HD & HE & Hbody & _ & Hsem);
    try reflexivity; [ cbn; lia | ].
  destruct (Hsem static_runtime [55; 55]%Z [0; 0]%Z 7%Z 0)
    as (st & Hrun & Hlen & _); try reflexivity.
  { intros j Hj.
    destruct j as [ | [ | j ] ];
      [ vm_compute; split; [ discriminate | reflexivity ]
      | vm_compute; split; [ discriminate | reflexivity ]
      | exfalso; cbn in Hj; lia ]. }
  exists output_loop, window_loop, reduce_op, s0, s1, body, init, st.
  repeat split; assumption.
Defined.

(** X17 at the windowed reduction of lines 240-254: a third stride, a third
    padding entry and other high paddings change nothing. *)
Lemma only_low_padding_is_read_witness :
  ReduceWindowOpConverter_matchAndRewrite
    (with_window_attributes example_reduce_window [2; 2]%Z
       [(0, 1); (0, 1)]%Z) example_state
  = ReduceWindowOpConverter_matchAndRewrite
      (with_window_attributes example_reduce_window [2; 2; 9]%Z
         [(0, 5); (0, 7); (3, 3)]%Z) example_state.
Proof.
  apply (only_low_padding_is_read example_reduce_window [2; 2]%Z [2; 2; 9]%Z
           [(0, 1); (0, 1)]%Z [(0, 5); (0, 7); (3, 3)]%Z example_state).
  - cbn. lia.
  - reflexivity.
  - reflexivity.
Defined.

(** C10 at the reduction with two operands and two initial values. *)
Lemma extra_operands_ignored_witness :
  ReduceOpConverter_matchAndRewrite example_reduce_two_operands example_state
  = ReduceOpConverter_matchAndRewrite example_reduce example_state
  /\ exists s' inner_body_id inner_ivs elem indices,
       ReduceOpConverter_matchAndRewrite example_reduce_two_operands
         example_state
       = Ok success s'
       /\ diags s' = diags example_state
       /\ replaced s' = [7]
       /\ blocks s' !! inner_body_id
          = Some (mkBlock inner_ivs
                    [LoadOp elem example_operand indices;
                     ReduceOp elem (inner_body_id + 1);
                     YieldOp []])
       /\ length indices = 3.
Proof.
  destruct (extra_operands_ignored example_reduce_two_operands example_state
              example_operand [mkValue 6 (MemRefTy [100; 10; 5]%Z f32)]
              example_out (scalar_buf 1) [scalar_buf 8] [100; 10; 5]%Z f32 []
              f32 (scalar_buf 3) (scalar_buf 4) [scalar_buf 5] [] f32 [] f32)
    as (Heq & s' & Hrun & Hd & Hr & setup & loops & init & result & lower
        & upper & step & inner_body_id & inner_ivs & elem & indices
        & reduce_args & reduce_ops & res & acc_buf & _ & _ & _ & _ & Hinner
        & Hidx & _);
    try reflexivity; [ cbn; lia | ].
  split; [ exact Heq | ].
  exists s', inner_body_id, inner_ivs, elem, indices.
  split; [ exact Hrun | ]. split; [ exact Hd | ]. split; [ exact Hr | ].
  split; [ exact Hinner | exact Hidx ].
Defined.
